(** * Team allocation optimizer: model and verified properties

    Shallow embedding of [src/models.js] and [src/optimizer.js], with the
    utilization figure of [src/index.js] and, of [src/web/server.js], the
    handlers of [POST /api/optimize] and of the two sheet imports, each from
    the data read to the response and the data written; files, HTTP and the
    Google Sheets client are not modelled.

    Numbers.  The engine is embedded twice.  In the first embedding every
    quantity the engine computes from its inputs by addition, subtraction,
    multiplication, [Math.min], [Math.max] and division by a non-zero
    literal is a rational ([Q]), without the rounding of binary64
    arithmetic.  The five divisions whose divisor is data
    ([allocated / required], [totalAllocated / totalCapacity],
    [allocatedCapacity / capacity], [platformEffort / effort.total]) land in
    [num], which adds the IEEE special values the JavaScript division
    produces on a zero divisor: [NaN] for [0 / 0] and an infinity for
    [x / 0].  Comparisons with [NaN] are false, as in JavaScript.  The
    properties stated on this embedding are orders, bounds with room to
    spare, and facts of structure, which the rounding of the code's
    arithmetic leaves alone.  The second embedding, [Binary64], has the
    numbers of the code, IEEE 754 binary64 floats; it carries what turns on
    the last digit of a sum.

    Objects.  [teamMembers] and [roadmapItems] are arrays of distinct
    objects; an object reference is the index of the object in its array, and
    mutation of an object is an in-place update of the array at that index.

    Strings.  Strings are sequences of bytes; [toLowerCase] maps the ASCII
    letters, and [includes] is the substring test.  Level names are looked
    up as JavaScript does, which finds the names an object literal inherits
    as well as its own. *)

From Stdlib Require Import QArith Qminmax Qround Lqa Ascii Sorted Floats.
From stdpp Require Import base option list strings.

Local Open Scope Q_scope.

(** ** JavaScript numbers that may come out of a division *)

Module Num.

Inductive num : Type :=
| Fin (q : Q)
| PInf
| NInf
| NaN.

Definition Qltb (a b : Q) : bool := negb (Qle_bool b a).

(** [a / b] on finite operands. *)
Definition div (a b : Q) : num :=
  if Qeq_bool b 0 then
    if Qeq_bool a 0 then NaN
    else if Qltb 0 a then PInf else NInf
  else Fin (a / b).

Definition neg (x : num) : num :=
  match x with
  | Fin q => Fin (- q)
  | PInf => NInf
  | NInf => PInf
  | NaN => NaN
  end.

Definition add (x y : num) : num :=
  match x, y with
  | NaN, _ | _, NaN => NaN
  | Fin a, Fin b => Fin (a + b)
  | PInf, NInf | NInf, PInf => NaN
  | PInf, _ | _, PInf => PInf
  | NInf, _ | _, NInf => NInf
  end.

Definition sub (x y : num) : num := add x (neg y).

(** Multiplication by a finite factor, [x * k]. *)
Definition scale (x : num) (k : Q) : num :=
  match x with
  | Fin a => Fin (a * k)
  | NaN => NaN
  | PInf => if Qeq_bool k 0 then NaN else if Qltb 0 k then PInf else NInf
  | NInf => if Qeq_bool k 0 then NaN else if Qltb 0 k then NInf else PInf
  end.

(** [x < y]; false as soon as one side is [NaN]. *)
Definition ltb (x y : num) : bool :=
  match x, y with
  | NaN, _ | _, NaN => false
  | Fin a, Fin b => Qltb a b
  | NInf, NInf => false
  | NInf, _ => true
  | _, NInf => false
  | PInf, _ => false
  | Fin _, PInf => true
  end.

(** [x <= y]; false as soon as one side is [NaN]. *)
Definition leb (x y : num) : bool :=
  match x, y with
  | NaN, _ | _, NaN => false
  | Fin a, Fin b => Qle_bool a b
  | NInf, _ => true
  | _, PInf => true
  | _, NInf => false
  | PInf, _ => false
  end.

Definition gtb (x y : num) : bool := ltb y x.
Definition geb (x y : num) : bool := leb y x.

(** [Math.round] on a rational: the nearest integer, ties towards
    plus infinity. *)
Definition roundHalfUp (q : Q) : Z := Qfloor (q + (1 # 2)).

(** [Math.round]. *)
Definition round (x : num) : num :=
  match x with
  | Fin q => Fin (inject_Z (roundHalfUp q))
  | other => other
  end.

(** [Math.round(q * 100) / 100]. *)
Definition round2 (q : Q) : Q := inject_Z (roundHalfUp (q * 100)) / 100.

End Num.

Import Num.

(** ** Strings *)

Definition lowerAscii (c : ascii) : ascii :=
  let n := nat_of_ascii c in
  if (65 <=? n)%nat && (n <=? 90)%nat then ascii_of_nat (n + 32) else c.

Fixpoint toLowerCase (s : string) : string :=
  match s with
  | EmptyString => EmptyString
  | String c rest => String (lowerAscii c) (toLowerCase rest)
  end.

(** [s.includes(sub)] *)
Fixpoint includes (s sub : string) : bool :=
  String.prefix sub s ||
  match s with
  | EmptyString => false
  | String _ rest => includes rest sub
  end.

(** The test shared by [hasSkill], [hasInterest] and [hasCareerGoal]:
    either string contains the other once both are lowercased. *)
Definition fuzzyMatch (own asked : string) : bool :=
  includes (toLowerCase own) (toLowerCase asked) ||
  includes (toLowerCase asked) (toLowerCase own).

(** ** Looking a level up in [levelWeights]

    [levelWeights] is an object literal with seven own keys, and the lookup
    [levelWeights[key]] also finds what the literal inherits from
    [Object.prototype].  The key is a lowercased string, and the two
    inherited names without a capital letter are [constructor], the
    function [Object], and [__proto__], the object [Object.prototype].
    Both are truthy, so [levelWeights[key] || 1.0] is a number for every
    other key and one of these two objects for these two. *)
Inductive LevelWeight (A : Type) : Type :=
| Weight (w : A)
| ObjectFunction
| ObjectPrototype.
Arguments Weight {A}.
Arguments ObjectFunction {A}.
Arguments ObjectPrototype {A}.

(** [a >= b] on such values.  Two objects are compared as the strings they
    convert to, [function Object() { [native code] }] and [[object Object]],
    of which the first is the greater; an object against a number converts
    to [NaN], and the comparison is false. *)
Definition geWeight {A : Type} (geb : A → A → bool) (a b : LevelWeight A)
    : bool :=
  match a, b with
  | Weight x, Weight y => geb x y
  | ObjectFunction, ObjectFunction => true
  | ObjectPrototype, ObjectPrototype => true
  | ObjectFunction, ObjectPrototype => true
  | ObjectPrototype, ObjectFunction => false
  | Weight _, _ | _, Weight _ => false
  end.

(** The table shared by [getLevelWeight] and [calculateScore];
    [None] is [undefined]. *)
Definition levelWeights (key : string) : option (LevelWeight Q) :=
  if String.eqb key "intern" then Some (Weight (1 # 2))
  else if String.eqb key "junior" then Some (Weight (7 # 10))
  else if String.eqb key "mid" then Some (Weight 1)
  else if String.eqb key "senior" then Some (Weight (13 # 10))
  else if String.eqb key "staff" then Some (Weight (3 # 2))
  else if String.eqb key "principal" then Some (Weight (17 # 10))
  else if String.eqb key "architect" then Some (Weight (9 # 5))
  else if String.eqb key "constructor" then Some ObjectFunction
  else if String.eqb key "__proto__" then Some ObjectPrototype
  else None.

(** [levelWeights[key] || 1.0] *)
Definition levelWeightOr1 (key : string) : LevelWeight Q :=
  match levelWeights key with
  | Some (Weight w) => if Qeq_bool w 0 then Weight 1 else Weight w
  | Some object => object
  | None => Weight 1
  end.

(** ** models.js *)

Module TeamMember.

(** An entry of [member.assignments]. *)
Record Assignment : Type := mkAssignment {
  item : string;
  allocation : Q;
  percentage : Z
}.

Record t : Type := mk {
  name : string;
  level : string;
  skills : list string;
  capacity : Q;
  interests : list string;
  careerGoals : list string;
  allocatedCapacity : Q;
  (** absent until the optimizer creates it *)
  assignments : option (list Assignment)
}.

(** The constructor with its defaults applied by the caller. *)
Definition new (name level : string) (skills : list string) (capacity : Q)
    (interests careerGoals : list string) : t :=
  mk name level skills capacity interests careerGoals 0 None.

Definition getAvailableCapacity (m : t) : Q :=
  Qmax 0 (capacity m - allocatedCapacity m).

Definition hasSkill (m : t) (skill : string) : bool :=
  existsb (fun s => fuzzyMatch s skill) (skills m).

Definition hasInterest (m : t) (area : string) : bool :=
  existsb (fun i => fuzzyMatch i area) (interests m).

Definition hasCareerGoal (m : t) (goal : string) : bool :=
  existsb (fun g => fuzzyMatch g goal) (careerGoals m).

Definition getLevelWeight (m : t) : LevelWeight Q :=
  levelWeightOr1 (toLowerCase (level m)).

End TeamMember.

Inductive Status : Type :=
| FullyStaffed
| AdequatelyStaffed
| UnderStaffed
| NotStaffed.

Definition Status_eqb (a b : Status) : bool :=
  match a, b with
  | FullyStaffed, FullyStaffed
  | AdequatelyStaffed, AdequatelyStaffed
  | UnderStaffed, UnderStaffed
  | NotStaffed, NotStaffed => true
  | _, _ => false
  end.

Inductive Platform : Type := Ios | Android | Web | Backend.

Module RoadmapItem.

Record EffortBreakdown : Type := mkEffort {
  ios : Q;
  android : Q;
  web : Q;
  backend : Q;
  total : Q
}.

(** An entry of [item.assignedMembers]. *)
Record Assigned : Type := mkAssigned {
  member : string;
  allocation : Q;
  percentage : Z
}.

Record t : Type := mk {
  name : string;
  description : string;
  size : Q;
  complexity : Q;
  requiredSkills : list string;
  domain : string;
  minLevel : string;
  careerOpportunities : list string;
  assignedMembers : list Assigned;
  priority : Q;
  (** set by callers after construction; absent otherwise *)
  effortBreakdown : option EffortBreakdown;
  (** absent until the optimizer sets it *)
  allocationStatus : option Status
}.

Definition calculatePriority (size complexity : Q) : Q :=
  size * (6 # 10) + complexity * (4 # 10).

Definition new (name description : string) (size complexity : Q)
    (requiredSkills : list string) (domain minLevel : string)
    (careerOpportunities : list string) : t :=
  mk name description size complexity requiredSkills domain minLevel
     careerOpportunities [] (calculatePriority size complexity) None None.

Definition getTotalAllocation (it : t) : Q :=
  fold_left (fun sum assignment => sum + allocation assignment)
            (assignedMembers it) 0.

Definition getRequiredCapacity (it : t) : Q :=
  let heuristic := (size it / 5) * (complexity it / 5) * 2 in
  match effortBreakdown it with
  | Some e =>
      if Qltb 0 (total e) then
        let complexityMultiplier := 1 + (complexity it - 1) * (1 # 10) in
        let baseCapacity := total e / 12 in
        baseCapacity * complexityMultiplier
      else heuristic
  | None => heuristic
  end.

Definition isFullyStaffed (it : t) : bool :=
  Qle_bool (getRequiredCapacity it) (getTotalAllocation it).

Definition effortOf (p : Platform) (e : EffortBreakdown) : Q :=
  match p with
  | Ios => ios e
  | Android => android e
  | Web => web e
  | Backend => backend e
  end.

End RoadmapItem.

Module Allocation.

Definition platformSkills (p : Platform) : list string :=
  match p with
  | Ios => ["ios"; "swift"; "objective-c"; "mobile development"; "mobile";
            "app development"]
  | Android => ["android"; "kotlin"; "java"; "mobile development"; "mobile";
                "app development"]
  | Web => ["frontend"; "javascript"; "react"; "vue"; "angular"; "html";
            "css"; "web development"]
  | Backend => ["backend"; "api"; "node.js"; "python"; "java"; "database";
                "sql"; "server"]
  end%string.

(** [keywords.some(k => memberSkillsLower.some(s => s.includes(k)))] *)
Definition skillsMention (m : TeamMember.t) (keywords : list string) : bool :=
  let memberSkillsLower := map toLowerCase (TeamMember.skills m) in
  existsb (fun skill =>
             existsb (fun memberSkill => includes memberSkill skill)
                     memberSkillsLower)
          keywords.

Definition calculatePlatformBonus (m : TeamMember.t)
    (effort : RoadmapItem.EffortBreakdown) : num :=
  let perPlatform :=
    fold_left
      (fun bonus platform =>
         let platformEffort := RoadmapItem.effortOf platform effort in
         if Qltb 0 platformEffort then
           if skillsMention m (platformSkills platform) then
             let platformWeight :=
               Num.div platformEffort (RoadmapItem.total effort) in
             Num.add bonus (Num.scale platformWeight 30)
           else bonus
         else bonus)
      [Ios; Android; Web; Backend] (Fin 0) in
  if Qltb 0 (RoadmapItem.total effort) then
    let platformCount :=
      length (List.filter (fun e => Qltb 0 e)
                [RoadmapItem.ios effort; RoadmapItem.android effort;
                 RoadmapItem.web effort; RoadmapItem.backend effort]) in
    if (2 <? platformCount)%nat then
      if skillsMention m ["frontend"; "backend"; "full-stack"; "fullstack"]%string
      then Num.add perPlatform (Fin 15)
      else perPlatform
    else perPlatform
  else perPlatform.

(** The part of the score that precedes the level test. *)
Definition scoreBeforeLevel (m : TeamMember.t) (it : RoadmapItem.t) : num :=
  let skillMatches :=
    length (List.filter (fun skill => TeamMember.hasSkill m skill)
              (RoadmapItem.requiredSkills it)) in
  let skillScore :=
    inject_Z (Z.of_nat skillMatches) /
    inject_Z (Z.of_nat (Nat.max 1 (length (RoadmapItem.requiredSkills it)))) in
  let score := Fin (0 + skillScore * 35) in
  let score :=
    match RoadmapItem.effortBreakdown it with
    | Some effort => Num.add score (calculatePlatformBonus m effort)
    | None => score
    end in
  let score :=
    if TeamMember.hasInterest m (RoadmapItem.domain it)
    then Num.add score (Fin 25) else score in
  let careerMatches :=
    length (List.filter (fun opp => TeamMember.hasCareerGoal m opp)
              (RoadmapItem.careerOpportunities it)) in
  if (0 <? careerMatches)%nat then Num.add score (Fin 20) else score.

(** The level test: bonus for an appropriate level, penalty otherwise. *)
Definition levelAdjust (m : TeamMember.t) (it : RoadmapItem.t)
    (score : num) : num :=
  let memberLevelWeight := TeamMember.getLevelWeight m in
  let minLevelWeight := levelWeightOr1 (toLowerCase (RoadmapItem.minLevel it)) in
  let ge := geWeight (fun x y => Qle_bool y x) in
  if ge memberLevelWeight minLevelWeight then
    let score := Num.add score (Fin 10) in
    if Qle_bool 4 (RoadmapItem.complexity it) &&
       ge memberLevelWeight (Weight (13 # 10))
    then Num.add score (Fin 10) else score
  else Num.sub score (Fin 20).

Definition calculateScore (m : TeamMember.t) (it : RoadmapItem.t)
    (allocation : Q) : num :=
  let score := scoreBeforeLevel m it in
  let score := levelAdjust m it score in
  let score := Num.add score (Fin (RoadmapItem.priority it * 5)) in
  Num.add score (Fin (allocation * 15)).

(** A committed allocation; [member] and [item] are object references. *)
Record t : Type := mk {
  member : nat;
  item : nat;
  allocation : Q;
  score : num
}.

End Allocation.

(** ** [Array.prototype.sort] with a comparator

    The sort is stable.  An element [x] moves behind [y] exactly when the
    comparator is positive on [(x, y)]; a [NaN] result counts as zero. *)

Section Sort.
Context {A : Type} (compareFn : A → A → num).

Fixpoint insertSorted (x : A) (l : list A) : list A :=
  match l with
  | [] => [x]
  | y :: rest =>
      if Num.gtb (compareFn x y) (Fin 0) then y :: insertSorted x rest
      else x :: l
  end.

Definition jsSort (l : list A) : list A := foldr insertSorted [] l.
End Sort.

(** ** The report returned by [optimize] *)

Module Report.

Record Summary : Type := mkSummary {
  totalTeamCapacity : Q;
  totalAllocatedCapacity : Q;
  utilizationRate : num;
  itemsCount : nat;
  fullyStaffedCount : nat;
  totalAssignments : nat
}.

Record AllocationRow : Type := mkRow {
  member : string;
  item : string;
  allocation : Q;
  score : num
}.

(** [{...item, requiredCapacity, totalAllocation}] *)
Record EnhancedItem : Type := mkEnhanced {
  base : RoadmapItem.t;
  requiredCapacity : Q;
  totalAllocation : Q
}.

Record ByStatus (A : Type) : Type := mkByStatus {
  fullyStaffed : list A;
  adequatelyStaffed : list A;
  underStaffed : list A;
  notStaffed : list A
}.
Arguments mkByStatus {A}.
Arguments fullyStaffed {A}.
Arguments adequatelyStaffed {A}.
Arguments underStaffed {A}.
Arguments notStaffed {A}.

(** The recommendation texts, kept as the message chosen and the values
    interpolated into it. *)
Inductive Recommendation : Type :=
| NoStaffing (items : nat)
| MissingFTE (missing : list (Platform * Q))
| UnderStaffedItems (items : nat)
| AvailableCapacity (members : nat)
| OverAllocated (members : nat)
| WellBalanced.

Record t : Type := mk {
  summary : Summary;
  allocations : list AllocationRow;
  teamMembers : list TeamMember.t;
  roadmapItems : list RoadmapItem.t;
  itemsByStatus : ByStatus EnhancedItem;
  underUtilized : list TeamMember.t;
  overUtilized : list TeamMember.t;
  recommendations : list Recommendation
}.

End Report.

(** ** optimizer.js *)

Module AllocationOptimizer.

Record t : Type := mk {
  teamMembers : list TeamMember.t;
  roadmapItems : list RoadmapItem.t;
  allocations : list Allocation.t
}.

Definition new (members : list TeamMember.t) (items : list RoadmapItem.t) : t :=
  mk members items [].

(** An entry of [potentialAllocations]. *)
Record Potential : Type := mkPotential {
  member : nat;
  score : num
}.

(** The loop of [findPotentialAllocations], from member number [idx] on. *)
Fixpoint potentialsFrom (idx : nat) (members : list TeamMember.t)
    (it : RoadmapItem.t) : list Potential :=
  match members with
  | [] => []
  | m :: rest =>
      if Qltb (1 # 10) (TeamMember.getAvailableCapacity m) then
        mkPotential idx (Allocation.calculateScore m it (3 # 10))
          :: potentialsFrom (S idx) rest it
      else potentialsFrom (S idx) rest it
  end.

Definition findPotentialAllocations (st : t) (it : RoadmapItem.t)
    : list Potential :=
  potentialsFrom 0 (teamMembers st) it.

Definition getItemStatus (it : RoadmapItem.t) (allocatedCapacity : Q)
    : Status :=
  let requiredCapacity := RoadmapItem.getRequiredCapacity it in
  let ratio := Num.div allocatedCapacity requiredCapacity in
  if Num.geb ratio (Fin (9 # 10)) then FullyStaffed
  else if Num.geb ratio (Fin (6 # 10)) then AdequatelyStaffed
  else if Num.geb ratio (Fin (3 # 10)) then UnderStaffed
  else NotStaffed.

(** The writes of one commit on the member object. *)
Definition recordOnMember (itemName : string) (amount : Q)
    (m : TeamMember.t) : TeamMember.t :=
  TeamMember.mk
    (TeamMember.name m) (TeamMember.level m) (TeamMember.skills m)
    (TeamMember.capacity m) (TeamMember.interests m)
    (TeamMember.careerGoals m)
    (TeamMember.allocatedCapacity m + amount)
    (Some (default [] (TeamMember.assignments m) ++
           [TeamMember.mkAssignment itemName amount
              (Num.roundHalfUp (amount * 100))])).

Definition withAssignedMembers (l : list RoadmapItem.Assigned)
    (it : RoadmapItem.t) : RoadmapItem.t :=
  RoadmapItem.mk
    (RoadmapItem.name it) (RoadmapItem.description it) (RoadmapItem.size it)
    (RoadmapItem.complexity it) (RoadmapItem.requiredSkills it)
    (RoadmapItem.domain it) (RoadmapItem.minLevel it)
    (RoadmapItem.careerOpportunities it) l (RoadmapItem.priority it)
    (RoadmapItem.effortBreakdown it) (RoadmapItem.allocationStatus it).

Definition withAllocationStatus (s : option Status) (it : RoadmapItem.t)
    : RoadmapItem.t :=
  RoadmapItem.mk
    (RoadmapItem.name it) (RoadmapItem.description it) (RoadmapItem.size it)
    (RoadmapItem.complexity it) (RoadmapItem.requiredSkills it)
    (RoadmapItem.domain it) (RoadmapItem.minLevel it)
    (RoadmapItem.careerOpportunities it) (RoadmapItem.assignedMembers it)
    (RoadmapItem.priority it) (RoadmapItem.effortBreakdown it) s.

(** The write of one commit on the item object. *)
Definition recordOnItem (memberName : string) (amount : Q)
    (it : RoadmapItem.t) : RoadmapItem.t :=
  withAssignedMembers
    (RoadmapItem.assignedMembers it ++
     [RoadmapItem.mkAssigned memberName amount (Num.roundHalfUp (amount * 100))])
    it.

(** The body of the [if (allocationAmount > 0.1)] block. *)
Definition commit (memberIdx itemIdx : nat) (m : TeamMember.t)
    (it : RoadmapItem.t) (amount : Q) (st : t) : t :=
  let allocation :=
    Allocation.mk memberIdx itemIdx amount
      (Allocation.calculateScore m it amount) in
  mk (alter (recordOnMember (RoadmapItem.name it) amount) memberIdx
        (teamMembers st))
     (alter (recordOnItem (TeamMember.name m) amount) itemIdx
        (roadmapItems st))
     (allocations st ++ [allocation]).

(** The [for (const potential of potentialAllocations)] loop of
    [allocateItem]; returns the remaining capacity with the state. *)
Fixpoint allocLoop (itemIdx : nat) (it : RoadmapItem.t)
    (potentials : list Potential) (remainingCapacity : Q) (st : t)
    : Q * t :=
  match potentials with
  | [] => (remainingCapacity, st)
  | potential :: rest =>
      if Qle_bool remainingCapacity 0 then (remainingCapacity, st)
      else
        match teamMembers st !! member potential with
        | None => allocLoop itemIdx it rest remainingCapacity st
        | Some m =>
            let availableCapacity := TeamMember.getAvailableCapacity m in
            if Qle_bool availableCapacity 0 then
              allocLoop itemIdx it rest remainingCapacity st
            else
              let allocationAmount :=
                Qmin (Qmin remainingCapacity availableCapacity) (1 # 2) in
              if Qltb (1 # 10) allocationAmount then
                allocLoop itemIdx it rest
                  (remainingCapacity - allocationAmount)
                  (commit (member potential) itemIdx m it allocationAmount st)
              else allocLoop itemIdx it rest remainingCapacity st
        end
  end.

Definition setStatus (itemIdx : nat) (s : Status) (st : t) : t :=
  mk (teamMembers st)
     (alter (withAllocationStatus (Some s)) itemIdx (roadmapItems st))
     (allocations st).

Definition byScoreDesc (a b : Potential) : num :=
  Num.sub (score b) (score a).

Definition allocateItem (st : t) (itemIdx : nat) : t :=
  match roadmapItems st !! itemIdx with
  | None => st
  | Some it =>
      let requiredCapacity := RoadmapItem.getRequiredCapacity it in
      let potentialAllocations :=
        jsSort byScoreDesc (findPotentialAllocations st it) in
      let '(remainingCapacity, st') :=
        allocLoop itemIdx it potentialAllocations requiredCapacity st in
      setStatus itemIdx
        (getItemStatus it (requiredCapacity - remainingCapacity)) st'
  end.

Definition resetMember (m : TeamMember.t) : TeamMember.t :=
  TeamMember.mk
    (TeamMember.name m) (TeamMember.level m) (TeamMember.skills m)
    (TeamMember.capacity m) (TeamMember.interests m)
    (TeamMember.careerGoals m) 0 (Some []).

(** The three resets at the head of [optimize]. *)
Definition reset (st : t) : t :=
  mk (resetMember <$> teamMembers st)
     (withAssignedMembers [] <$> roadmapItems st)
     [].

Definition priorityAt (items : list RoadmapItem.t) (i : nat) : Q :=
  from_option RoadmapItem.priority 0 (items !! i).

Definition byPriorityDesc (items : list RoadmapItem.t) (a b : nat) : num :=
  Fin (priorityAt items b - priorityAt items a).

(** [[...this.roadmapItems].sort((a, b) => b.priority - a.priority)],
    as the references of the items in sorted order. *)
Definition sortedItems (st : t) : list nat :=
  jsSort (byPriorityDesc (roadmapItems st))
         (seq 0 (length (roadmapItems st))).

(** [optimize] up to the call of [generateReport]. *)
Definition allocateAll (st : t) : t :=
  let st0 := reset st in
  fold_left allocateItem (sortedItems st0) st0.

(** *** [generateReport] *)

(** [list.reduce((sum, x) => sum + f(x), 0)] *)
Definition sumOf {A : Type} (f : A → Q) (l : list A) : Q :=
  fold_left (fun sum x => sum + f x) l 0.

Definition hasStatus (s : Status) (it : RoadmapItem.t) : bool :=
  match RoadmapItem.allocationStatus it with
  | Some s' => Status_eqb s' s
  | None => false
  end.

Definition itemsWithStatus (st : t) (s : Status) : list RoadmapItem.t :=
  List.filter (hasStatus s) (roadmapItems st).

Definition isUnderUtilized (m : TeamMember.t) : bool :=
  Num.ltb (Num.div (TeamMember.allocatedCapacity m) (TeamMember.capacity m))
          (Fin (7 # 10)).

Definition isOverUtilized (m : TeamMember.t) : bool :=
  Num.gtb (Num.div (TeamMember.allocatedCapacity m) (TeamMember.capacity m))
          (Fin (95 # 100)).

Definition enhance (it : RoadmapItem.t) : Report.EnhancedItem :=
  Report.mkEnhanced it (RoadmapItem.getRequiredCapacity it)
                    (RoadmapItem.getTotalAllocation it).

Definition getAvailableCapacityForSkills (st : t) (skills : list string) : Q :=
  fold_left
    (fun totalCapacity m =>
       let hasRelevantSkill :=
         existsb (fun skill =>
                    existsb (fun memberSkill => fuzzyMatch memberSkill skill)
                            (TeamMember.skills m))
                 skills in
       if hasRelevantSkill
       then totalCapacity + TeamMember.getAvailableCapacity m
       else totalCapacity)
    (teamMembers st) 0.

Definition Platform_eqb (a b : Platform) : bool :=
  match a, b with
  | Ios, Ios | Android, Android | Web, Web | Backend, Backend => true
  | _, _ => false
  end.

(** [missingTypes[role] = (missingTypes[role] || 0) + shortage] on an object
    whose keys keep their insertion order; the four roles are named by their
    platform. *)
Fixpoint addShortage (role : Platform) (shortage : Q)
    (missingTypes : list (Platform * Q)) : list (Platform * Q) :=
  match missingTypes with
  | [] => [(role, 0 + shortage)]
  | (r, v) :: rest =>
      if Platform_eqb r role
      then (r, (if Qeq_bool v 0 then 0 else v) + shortage) :: rest
      else (r, v) :: addShortage role shortage rest
  end.

Definition analyzeMissingFTETypes (st : t) (unstaffedItems : list RoadmapItem.t)
    : list (Platform * Q) :=
  fold_left
    (fun missingTypes it =>
       match RoadmapItem.effortBreakdown it with
       | None => missingTypes
       | Some effort =>
           fold_left
             (fun missingTypes platform =>
                let platformEffort := RoadmapItem.effortOf platform effort in
                if Qltb 0 platformEffort then
                  let neededFTE := platformEffort / 13 in
                  let availableCapacity :=
                    getAvailableCapacityForSkills st
                      (Allocation.platformSkills platform) in
                  let shortage := Qmax 0 (neededFTE - availableCapacity) in
                  if Qltb 0 shortage
                  then addShortage platform shortage missingTypes
                  else missingTypes
                else missingTypes)
             [Ios; Android; Web; Backend] missingTypes
       end)
    unstaffedItems [].

Definition generateRecommendations (st : t)
    (notStaffed underStaffed : list RoadmapItem.t)
    (underUtilized overUtilized : list TeamMember.t)
    : list Report.Recommendation :=
  let recommendations :=
    match notStaffed with
    | [] => []
    | _ :: _ =>
        let missingFTETypes := analyzeMissingFTETypes st notStaffed in
        Report.NoStaffing (length notStaffed) ::
        match missingFTETypes with
        | [] => []
        | _ :: _ => [Report.MissingFTE missingFTETypes]
        end
    end in
  let recommendations :=
    match underStaffed with
    | [] => recommendations
    | _ :: _ => recommendations ++ [Report.UnderStaffedItems (length underStaffed)]
    end in
  let recommendations :=
    match underUtilized with
    | [] => recommendations
    | _ :: _ => recommendations ++ [Report.AvailableCapacity (length underUtilized)]
    end in
  let recommendations :=
    match overUtilized with
    | [] => recommendations
    | _ :: _ => recommendations ++ [Report.OverAllocated (length overUtilized)]
    end in
  match recommendations with
  | [] => [Report.WellBalanced]
  | _ :: _ => recommendations
  end.

Definition reportRow (st : t) (a : Allocation.t) : Report.AllocationRow :=
  Report.mkRow
    (from_option TeamMember.name ""%string (teamMembers st !! Allocation.member a))
    (from_option RoadmapItem.name ""%string (roadmapItems st !! Allocation.item a))
    (Allocation.allocation a) (Allocation.score a).

Definition generateReport (st : t) : Report.t :=
  let totalTeamCapacity := sumOf TeamMember.capacity (teamMembers st) in
  let totalAllocatedCapacity :=
    sumOf TeamMember.allocatedCapacity (teamMembers st) in
  let utilizationRate :=
    Num.scale (Num.div totalAllocatedCapacity totalTeamCapacity) 100 in
  let underUtilized := List.filter isUnderUtilized (teamMembers st) in
  let overUtilized := List.filter isOverUtilized (teamMembers st) in
  Report.mk
    (Report.mkSummary
       (Num.round2 totalTeamCapacity)
       (Num.round2 totalAllocatedCapacity)
       (Num.round utilizationRate)
       (length (roadmapItems st))
       (length (itemsWithStatus st FullyStaffed))
       (length (allocations st)))
    (map (reportRow st) (allocations st))
    (teamMembers st)
    (roadmapItems st)
    (Report.mkByStatus
       (map enhance (itemsWithStatus st FullyStaffed))
       (map enhance (itemsWithStatus st AdequatelyStaffed))
       (map enhance (itemsWithStatus st UnderStaffed))
       (map enhance (itemsWithStatus st NotStaffed)))
    underUtilized
    overUtilized
    (generateRecommendations st
       (itemsWithStatus st NotStaffed) (itemsWithStatus st UnderStaffed)
       underUtilized overUtilized).

(** [optimize]: the optimizer object after the call, and the report. *)
Definition optimize (st : t) : t * Report.t :=
  let st' := allocateAll st in
  (st', generateReport st').

End AllocationOptimizer.

(** ** index.js *)

Module TeamAllocationApp.


End TeamAllocationApp.

(** ** web/server.js *)

Module Server.

(** *** The sheet imports

    [POST /api/sheets/import] and [POST /api/sheets/import-roadmap] are the
    same text, on team members and on roadmap items.  What a handler gets
    from outside its own text is gathered in one record. *)
Record ImportInput (A : Type) : Type := mkImportInput {
  (** [req.body.sheetUrl] and [req.body.apiKey]; empty when absent *)
  sheetUrl : string;
  apiKey : string;
  (** [req.body.replaceExisting], [false] when absent *)
  replaceExisting : bool;
  (** [None]: no service account file is configured; [Some None]: the file
      initialises the client; [Some (Some e)]: initialising throws an error
      with message [e] *)
  serviceAccount : option (option string);
  (** the rows read from the sheet, or the message of the error thrown *)
  sheet : string + list A;
  (** what [readDataFile] returns *)
  existing : list A;
  (** whether [writeDataFile] succeeds *)
  writable : bool
}.
Arguments sheetUrl {A}.
Arguments apiKey {A}.
Arguments replaceExisting {A}.
Arguments serviceAccount {A}.
Arguments sheet {A}.
Arguments existing {A}.
Arguments writable {A}.

(** The same request against another content of the data file. *)
Definition withExisting {A : Type} (data : list A) (input : ImportInput A)
    : ImportInput A :=
  mkImportInput A (sheetUrl input) (apiKey input) (replaceExisting input)
    (serviceAccount input) (sheet input) data (writable input).

(** The error texts, by the place that sends them. *)
Inductive ImportError : Type :=
| SheetUrlRequired
| ApiKeyRequired
| NoValidRows
| Thrown (message : string)
| FailedToSave.

Inductive ImportResponse (A : Type) : Type :=
| Failure (status : nat) (error : ImportError)
| Success (imported total : nat) (rows : list A).
Arguments Failure {A}.
Arguments Success {A}.

(** The handler: its response, and the data it hands to [writeDataFile] if
    it gets that far.  [lower] is [String.prototype.toLowerCase];
    [existingNames] is the set of the lower-cased names on file. *)
Definition importSheet {A : Type} (lower : string → string)
    (name : A → string) (input : ImportInput A)
    : ImportResponse A * option (list A) :=
  if String.eqb (sheetUrl input) "" then (Failure 400 SheetUrlRequired, None)
  else
    let initialised : option ImportError :=
      match serviceAccount input with
      | Some None => None
      | Some (Some message) => Some (Thrown message)
      | None =>
          if String.eqb (apiKey input) "" then Some ApiKeyRequired else None
      end in
    match initialised with
    | Some error => (Failure 400 error, None)
    | None =>
        match sheet input with
        | inl message => (Failure 400 (Thrown message), None)
        | inr imported =>
            if (length imported =? 0)%nat then (Failure 400 NoValidRows, None)
            else
              let existingItems :=
                if replaceExisting input then imported
                else
                  let existingNames :=
                    (fun m => lower (name m)) <$> existing input in
                  let newItems :=
                    List.filter
                      (fun m =>
                         negb (bool_decide (lower (name m) ∈ existingNames)))
                      imported in
                  existing input ++ newItems in
              if writable input
              then (Success (length imported) (length existingItems) imported,
                    Some existingItems)
              else (Failure 500 FailedToSave, Some existingItems)
        end
    end.

(** The records of the data files, as far as [POST /api/optimize] reads
    them.  A field the constructors have a default for may be absent; the
    [effortBreakdown] a sheet import stores with an item is on file too. *)
Record TeamMemberData : Type := mkTeamMemberData {
  memberName : string;
  level : option string;
  skills : option (list string);
  capacity : option Q;
  interests : option (list string);
  careerGoals : option (list string)
}.

Record RoadmapItemData : Type := mkRoadmapItemData {
  itemName : string;
  description : string;
  size : Q;
  complexity : Q;
  requiredSkills : option (list string);
  domain : option string;
  minLevel : option string;
  careerOpportunities : option (list string);
  effortBreakdown : option RoadmapItem.EffortBreakdown
}.

Inductive Response : Type :=
| BadRequest (error : string)
| Json (report : Report.t).

(** The handler of [POST /api/optimize], from the content of the two data
    files to the response.  The rows are typed as above, so that nothing
    throws; the handler's [catch], which answers 500, is reached only by a
    row whose field holds a value of another type. *)
Definition optimize (teamMembersData : list TeamMemberData)
    (roadmapItemsData : list RoadmapItemData) : Response :=
  if (length teamMembersData =? 0)%nat then
    BadRequest "No team members found. Please add team members first."
  else if (length roadmapItemsData =? 0)%nat then
    BadRequest "No roadmap items found. Please add roadmap items first."
  else
    let teamMembers :=
      map (fun data =>
             TeamMember.new (memberName data) (default "Mid"%string (level data))
               (default [] (skills data)) (default 1 (capacity data))
               (default [] (interests data)) (default [] (careerGoals data)))
          teamMembersData in
    let roadmapItems :=
      map (fun data =>
             RoadmapItem.new (itemName data) (description data) (size data)
               (complexity data) (default [] (requiredSkills data))
               (default ""%string (domain data))
               (default "Junior"%string (minLevel data))
               (default [] (careerOpportunities data)))
          roadmapItemsData in
    let optimizer := AllocationOptimizer.new teamMembers roadmapItems in
    Json (AllocationOptimizer.optimize optimizer).2.

End Server.

(** ** The fixture of the optimizer tests *)

Module Fixture.

Definition alice : TeamMember.t :=
  TeamMember.new "Alice" "Senior" ["JavaScript"; "React"] 1 ["Frontend"]
                 ["Leadership"].
Definition bob : TeamMember.t :=
  TeamMember.new "Bob" "Mid" ["Node.js"; "Python"] (8 # 10) ["Backend"]
                 ["Architecture"].
Definition carol : TeamMember.t :=
  TeamMember.new "Carol" "Junior" ["CSS"; "HTML"] 1 ["Frontend"] ["Mentoring"].

Definition frontendRedesign : RoadmapItem.t :=
  RoadmapItem.new "Frontend Redesign" "Redesign the main UI" 4 3
                  ["React"; "CSS"] "Frontend" "Mid" ["Leadership"].
Definition apiDevelopment : RoadmapItem.t :=
  RoadmapItem.new "API Development" "Build REST APIs" 3 4
                  ["Node.js"; "Python"] "Backend" "Senior" ["Architecture"].
Definition smallBugFix : RoadmapItem.t :=
  RoadmapItem.new "Small Bug Fix" "Fix minor issues" 1 1 ["JavaScript"]
                  "Frontend" "Junior" [].

Definition optimizer : AllocationOptimizer.t :=
  AllocationOptimizer.new [alice; bob; carol]
                          [frontendRedesign; apiDevelopment; smallBugFix].

End Fixture.

(** ** Inputs used in the examples *)

Module Examples.

(** One part-time member and one large item. *)
Definition partTimer : TeamMember.t :=
  TeamMember.new "Dana" "Mid" ["React"] (2 # 5) ["Frontend"] [].
Definition bigItem : RoadmapItem.t :=
  RoadmapItem.new "Platform Rewrite" "Rewrite everything" 5 5 ["React"]
                  "Frontend" "Junior" [].
Definition partTime : AllocationOptimizer.t :=
  AllocationOptimizer.new [partTimer] [bigItem].

(** The part-timer with more work than time. *)
Definition overbooked : AllocationOptimizer.t :=
  AllocationOptimizer.new [partTimer] [bigItem; Fixture.smallBugFix].

(** The test fixture's items with nobody to staff them. *)
Definition noMembers : AllocationOptimizer.t :=
  AllocationOptimizer.new []
    [Fixture.frontendRedesign; Fixture.apiDevelopment; Fixture.smallBugFix].

(** One member at three quarters of the time, alone on the frontend
    redesign. *)
Definition fay : TeamMember.t :=
  TeamMember.new "Fay" "Mid" ["React"] (3 # 4) ["Frontend"] [].
Definition fayAlone : AllocationOptimizer.t :=
  AllocationOptimizer.new [fay] [Fixture.frontendRedesign].

(** An item of size 0 next to the test fixture's members. *)
Definition sizeZero : RoadmapItem.t :=
  RoadmapItem.new "Placeholder" "Nothing to do yet" 0 3 ["React"] "Frontend"
                  "Junior" [].
Definition withSizeZero : AllocationOptimizer.t :=
  AllocationOptimizer.new [Fixture.alice; Fixture.bob; Fixture.carol]
                          [Fixture.frontendRedesign; sizeZero].

(** A member without capacity next to the test fixture's members. *)
Definition zeroCap : TeamMember.t :=
  TeamMember.new "Zero Cap" "Mid" ["JavaScript"] 0 ["Frontend"] [].
Definition withZeroCap : AllocationOptimizer.t :=
  AllocationOptimizer.new [zeroCap; Fixture.alice]
                          [Fixture.frontendRedesign; Fixture.apiDevelopment].


End Examples.

(** * The engine in binary64

    The same functions of [models.js] and [optimizer.js] once more, this
    time over the numbers JavaScript computes with: every [+], [-], [*] and
    [/] is the IEEE 754 binary64 operation, rounded to nearest, and
    [Math.min], [Math.max] and [Math.round] follow ECMAScript on [NaN], the
    infinities and the two zeros.  Of [generateReport] the [summary] is
    repeated. *)

Module Binary64.

Import PrimFloat.
#[local] Set Warnings "-inexact-float".
Local Open Scope float_scope.

(** *** Numbers *)

(** An integer below [2^53] as a float; every step is exact. *)
Fixpoint ofPositive (p : positive) : float :=
  match p with
  | xH => 1
  | xO q => 2 * ofPositive q
  | xI q => 2 * ofPositive q + 1
  end.

Definition ofZ (z : Z) : float :=
  match z with
  | Z0 => 0
  | Zpos p => ofPositive p
  | Zneg p => - ofPositive p
  end.

Definition ofNat (n : nat) : float := ofZ (Z.of_nat n).

Definition Math_max (a b : float) : float :=
  if is_nan a || is_nan b then nan
  else if a <? b then b
  else if b <? a then a
  else if get_sign a then b else a.

Definition Math_min (a b : float) : float :=
  if is_nan a || is_nan b then nan
  else if a <? b then a
  else if b <? a then b
  else if get_sign a then a else b.

(** [Math.round]: the integer nearest to [x], ties towards plus infinity,
    computed without rounding error; a float of exponent zero or more is an
    integer already, and a negative [x] that rounds to zero gives [-0]. *)
Definition Math_round (x : float) : float :=
  match FloatOps.Prim2SF x with
  | SpecFloat.S754_finite s m e =>
      if (0 <=? e)%Z then x
      else
        let twice := if s then Zneg m~0 else Zpos m~0 in
        let n := ((twice + 2 ^ (- e)) / 2 ^ (- e + 1))%Z in
        if (n =? 0)%Z then (if s then -0 else 0) else ofZ n
  | _ => x
  end.

(** [Array.prototype.sort] with a comparator, as in [jsSort]. *)
Section Sort.
Context {A : Type} (compareFn : A → A → float).

Fixpoint insertSorted (x : A) (l : list A) : list A :=
  match l with
  | [] => [x]
  | y :: rest =>
      if 0 <? compareFn x y then y :: insertSorted x rest
      else x :: l
  end.

Definition jsSort (l : list A) : list A := foldr insertSorted [] l.
End Sort.

(** The table of levels. *)
Definition levelWeights (key : string) : option (LevelWeight float) :=
  if String.eqb key "intern" then Some (Weight 0.5)
  else if String.eqb key "junior" then Some (Weight 0.7)
  else if String.eqb key "mid" then Some (Weight 1.0)
  else if String.eqb key "senior" then Some (Weight 1.3)
  else if String.eqb key "staff" then Some (Weight 1.5)
  else if String.eqb key "principal" then Some (Weight 1.7)
  else if String.eqb key "architect" then Some (Weight 1.8)
  else if String.eqb key "constructor" then Some ObjectFunction
  else if String.eqb key "__proto__" then Some ObjectPrototype
  else None.

(** [levelWeights[key] || 1.0] *)
Definition levelWeightOr1 (key : string) : LevelWeight float :=
  match levelWeights key with
  | Some (Weight w) => if is_zero w || is_nan w then Weight 1.0 else Weight w
  | Some object => object
  | None => Weight 1.0
  end.

(** The keywords of [calculatePlatformBonus]. *)
Definition platformSkills : Platform → list string :=
  Allocation.platformSkills.

(** *** models.js *)

Module TeamMember.

Record Assignment : Type := mkAssignment {
  item : string;
  allocation : float;
  percentage : float
}.

Record t : Type := mk {
  name : string;
  level : string;
  skills : list string;
  capacity : float;
  interests : list string;
  careerGoals : list string;
  allocatedCapacity : float;
  assignments : option (list Assignment)
}.

Definition new (name level : string) (skills : list string) (capacity : float)
    (interests careerGoals : list string) : t :=
  mk name level skills capacity interests careerGoals 0.0 None.

Definition getAvailableCapacity (m : t) : float :=
  Math_max 0 (capacity m - allocatedCapacity m).

Definition hasSkill (m : t) (skill : string) : bool :=
  existsb (fun s => fuzzyMatch s skill) (skills m).

Definition hasInterest (m : t) (area : string) : bool :=
  existsb (fun i => fuzzyMatch i area) (interests m).

Definition hasCareerGoal (m : t) (goal : string) : bool :=
  existsb (fun g => fuzzyMatch g goal) (careerGoals m).

Definition getLevelWeight (m : t) : LevelWeight float :=
  levelWeightOr1 (toLowerCase (level m)).

End TeamMember.

Module RoadmapItem.

Record EffortBreakdown : Type := mkEffort {
  ios : float;
  android : float;
  web : float;
  backend : float;
  total : float
}.

Record Assigned : Type := mkAssigned {
  member : string;
  allocation : float;
  percentage : float
}.

Record t : Type := mk {
  name : string;
  description : string;
  size : float;
  complexity : float;
  requiredSkills : list string;
  domain : string;
  minLevel : string;
  careerOpportunities : list string;
  assignedMembers : list Assigned;
  priority : float;
  effortBreakdown : option EffortBreakdown;
  allocationStatus : option Status
}.

Definition calculatePriority (size complexity : float) : float :=
  (size * 0.6) + (complexity * 0.4).

Definition new (name description : string) (size complexity : float)
    (requiredSkills : list string) (domain minLevel : string)
    (careerOpportunities : list string) : t :=
  mk name description size complexity requiredSkills domain minLevel
     careerOpportunities [] (calculatePriority size complexity) None None.

Definition getTotalAllocation (it : t) : float :=
  fold_left (fun sum assignment => sum + allocation assignment)
            (assignedMembers it) 0.

Definition getRequiredCapacity (it : t) : float :=
  let heuristic := (size it / 5) * (complexity it / 5) * 2 in
  match effortBreakdown it with
  | Some e =>
      if 0 <? total e then
        let complexityMultiplier := 1 + ((complexity it - 1) * 0.1) in
        let baseCapacity := total e / 12 in
        baseCapacity * complexityMultiplier
      else heuristic
  | None => heuristic
  end.

Definition isFullyStaffed (it : t) : bool :=
  getRequiredCapacity it <=? getTotalAllocation it.

Definition effortOf (p : Platform) (e : EffortBreakdown) : float :=
  match p with
  | Ios => ios e
  | Android => android e
  | Web => web e
  | Backend => backend e
  end.

End RoadmapItem.

Module Allocation.

(** [keywords.some(k => memberSkillsLower.some(s => s.includes(k)))] *)
Definition skillsMention (m : TeamMember.t) (keywords : list string) : bool :=
  let memberSkillsLower := map toLowerCase (TeamMember.skills m) in
  existsb (fun skill =>
             existsb (fun memberSkill => includes memberSkill skill)
                     memberSkillsLower)
          keywords.

Definition calculatePlatformBonus (m : TeamMember.t)
    (effort : RoadmapItem.EffortBreakdown) : float :=
  let perPlatform :=
    fold_left
      (fun bonus platform =>
         let platformEffort := RoadmapItem.effortOf platform effort in
         if 0 <? platformEffort then
           if skillsMention m (platformSkills platform) then
             let platformWeight := platformEffort / RoadmapItem.total effort in
             bonus + platformWeight * 30
           else bonus
         else bonus)
      [Ios; Android; Web; Backend] 0 in
  if 0 <? RoadmapItem.total effort then
    let platformCount :=
      length (List.filter (fun e => 0 <? e)
                [RoadmapItem.ios effort; RoadmapItem.android effort;
                 RoadmapItem.web effort; RoadmapItem.backend effort]) in
    if (2 <? platformCount)%nat then
      if skillsMention m ["frontend"; "backend"; "full-stack"; "fullstack"]%string
      then perPlatform + 15
      else perPlatform
    else perPlatform
  else perPlatform.

Definition calculateScore (m : TeamMember.t) (it : RoadmapItem.t)
    (allocation : float) : float :=
  let score := 0 in
  let skillMatches :=
    length (List.filter (fun skill => TeamMember.hasSkill m skill)
              (RoadmapItem.requiredSkills it)) in
  let skillScore :=
    ofNat skillMatches /
    ofNat (Nat.max 1 (length (RoadmapItem.requiredSkills it))) in
  let score := score + skillScore * 35 in
  let score :=
    match RoadmapItem.effortBreakdown it with
    | Some effort => score + calculatePlatformBonus m effort
    | None => score
    end in
  let score :=
    if TeamMember.hasInterest m (RoadmapItem.domain it)
    then score + 25 else score in
  let careerMatches :=
    length (List.filter (fun opp => TeamMember.hasCareerGoal m opp)
              (RoadmapItem.careerOpportunities it)) in
  let score := if (0 <? careerMatches)%nat then score + 20 else score in
  let memberLevelWeight := TeamMember.getLevelWeight m in
  let minLevelWeight := levelWeightOr1 (toLowerCase (RoadmapItem.minLevel it)) in
  let ge := geWeight (fun x y => y <=? x) in
  let score :=
    if ge memberLevelWeight minLevelWeight then
      let score := score + 10 in
      if (4 <=? RoadmapItem.complexity it) && ge memberLevelWeight (Weight 1.3)
      then score + 10 else score
    else score - 20 in
  let score := score + RoadmapItem.priority it * 5 in
  score + allocation * 15.

(** A committed allocation; [member] and [item] are object references. *)
Record t : Type := mk {
  member : nat;
  item : nat;
  allocation : float;
  score : float
}.

End Allocation.

(** The [summary] of the report. *)
Record Summary : Type := mkSummary {
  totalTeamCapacity : float;
  totalAllocatedCapacity : float;
  utilizationRate : float;
  itemsCount : nat;
  fullyStaffedCount : nat;
  totalAssignments : nat
}.

(** *** optimizer.js *)

Module AllocationOptimizer.

Record t : Type := mk {
  teamMembers : list TeamMember.t;
  roadmapItems : list RoadmapItem.t;
  allocations : list Allocation.t
}.

Definition new (members : list TeamMember.t) (items : list RoadmapItem.t) : t :=
  mk members items [].

Record Potential : Type := mkPotential {
  member : nat;
  score : float
}.

Fixpoint potentialsFrom (idx : nat) (members : list TeamMember.t)
    (it : RoadmapItem.t) : list Potential :=
  match members with
  | [] => []
  | m :: rest =>
      if 0.1 <? TeamMember.getAvailableCapacity m then
        mkPotential idx (Allocation.calculateScore m it 0.3)
          :: potentialsFrom (S idx) rest it
      else potentialsFrom (S idx) rest it
  end.

Definition findPotentialAllocations (st : t) (it : RoadmapItem.t)
    : list Potential :=
  potentialsFrom 0 (teamMembers st) it.

Definition getItemStatus (it : RoadmapItem.t) (allocatedCapacity : float)
    : Status :=
  let requiredCapacity := RoadmapItem.getRequiredCapacity it in
  let ratio := allocatedCapacity / requiredCapacity in
  if 0.9 <=? ratio then FullyStaffed
  else if 0.6 <=? ratio then AdequatelyStaffed
  else if 0.3 <=? ratio then UnderStaffed
  else NotStaffed.

Definition recordOnMember (itemName : string) (amount : float)
    (m : TeamMember.t) : TeamMember.t :=
  TeamMember.mk
    (TeamMember.name m) (TeamMember.level m) (TeamMember.skills m)
    (TeamMember.capacity m) (TeamMember.interests m)
    (TeamMember.careerGoals m)
    (TeamMember.allocatedCapacity m + amount)
    (Some (default [] (TeamMember.assignments m) ++
           [TeamMember.mkAssignment itemName amount
              (Math_round (amount * 100))])).

Definition withAssignedMembers (l : list RoadmapItem.Assigned)
    (it : RoadmapItem.t) : RoadmapItem.t :=
  RoadmapItem.mk
    (RoadmapItem.name it) (RoadmapItem.description it) (RoadmapItem.size it)
    (RoadmapItem.complexity it) (RoadmapItem.requiredSkills it)
    (RoadmapItem.domain it) (RoadmapItem.minLevel it)
    (RoadmapItem.careerOpportunities it) l (RoadmapItem.priority it)
    (RoadmapItem.effortBreakdown it) (RoadmapItem.allocationStatus it).

Definition withAllocationStatus (s : option Status) (it : RoadmapItem.t)
    : RoadmapItem.t :=
  RoadmapItem.mk
    (RoadmapItem.name it) (RoadmapItem.description it) (RoadmapItem.size it)
    (RoadmapItem.complexity it) (RoadmapItem.requiredSkills it)
    (RoadmapItem.domain it) (RoadmapItem.minLevel it)
    (RoadmapItem.careerOpportunities it) (RoadmapItem.assignedMembers it)
    (RoadmapItem.priority it) (RoadmapItem.effortBreakdown it) s.

Definition recordOnItem (memberName : string) (amount : float)
    (it : RoadmapItem.t) : RoadmapItem.t :=
  withAssignedMembers
    (RoadmapItem.assignedMembers it ++
     [RoadmapItem.mkAssigned memberName amount (Math_round (amount * 100))])
    it.

(** The body of the [if (allocationAmount > 0.1)] block. *)
Definition commit (memberIdx itemIdx : nat) (m : TeamMember.t)
    (it : RoadmapItem.t) (amount : float) (st : t) : t :=
  let allocation :=
    Allocation.mk memberIdx itemIdx amount
      (Allocation.calculateScore m it amount) in
  mk (alter (recordOnMember (RoadmapItem.name it) amount) memberIdx
        (teamMembers st))
     (alter (recordOnItem (TeamMember.name m) amount) itemIdx
        (roadmapItems st))
     (allocations st ++ [allocation]).

(** The loop of [allocateItem]. *)
Fixpoint allocLoop (itemIdx : nat) (it : RoadmapItem.t)
    (potentials : list Potential) (remainingCapacity : float) (st : t)
    : float * t :=
  match potentials with
  | [] => (remainingCapacity, st)
  | potential :: rest =>
      if remainingCapacity <=? 0 then (remainingCapacity, st)
      else
        match teamMembers st !! member potential with
        | None => allocLoop itemIdx it rest remainingCapacity st
        | Some m =>
            let availableCapacity := TeamMember.getAvailableCapacity m in
            if availableCapacity <=? 0 then
              allocLoop itemIdx it rest remainingCapacity st
            else
              let allocationAmount :=
                Math_min (Math_min remainingCapacity availableCapacity) 0.5 in
              if 0.1 <? allocationAmount then
                allocLoop itemIdx it rest
                  (remainingCapacity - allocationAmount)
                  (commit (member potential) itemIdx m it allocationAmount st)
              else allocLoop itemIdx it rest remainingCapacity st
        end
  end.

Definition setStatus (itemIdx : nat) (s : Status) (st : t) : t :=
  mk (teamMembers st)
     (alter (withAllocationStatus (Some s)) itemIdx (roadmapItems st))
     (allocations st).

Definition byScoreDesc (a b : Potential) : float := score b - score a.

Definition allocateItem (st : t) (itemIdx : nat) : t :=
  match roadmapItems st !! itemIdx with
  | None => st
  | Some it =>
      let requiredCapacity := RoadmapItem.getRequiredCapacity it in
      let potentialAllocations :=
        jsSort byScoreDesc (findPotentialAllocations st it) in
      let '(remainingCapacity, st') :=
        allocLoop itemIdx it potentialAllocations requiredCapacity st in
      setStatus itemIdx
        (getItemStatus it (requiredCapacity - remainingCapacity)) st'
  end.

Definition resetMember (m : TeamMember.t) : TeamMember.t :=
  TeamMember.mk
    (TeamMember.name m) (TeamMember.level m) (TeamMember.skills m)
    (TeamMember.capacity m) (TeamMember.interests m)
    (TeamMember.careerGoals m) 0.0 (Some []).

Definition reset (st : t) : t :=
  mk (resetMember <$> teamMembers st)
     (withAssignedMembers [] <$> roadmapItems st)
     [].

Definition priorityAt (items : list RoadmapItem.t) (i : nat) : float :=
  from_option RoadmapItem.priority 0 (items !! i).

Definition byPriorityDesc (items : list RoadmapItem.t) (a b : nat) : float :=
  priorityAt items b - priorityAt items a.

Definition sortedItems (st : t) : list nat :=
  jsSort (byPriorityDesc (roadmapItems st))
         (seq 0 (length (roadmapItems st))).

(** [optimize] up to the call of [generateReport]. *)
Definition allocateAll (st : t) : t :=
  let st0 := reset st in
  fold_left allocateItem (sortedItems st0) st0.

(** [list.reduce((sum, x) => sum + f(x), 0)] *)
Definition sumOf {A : Type} (f : A → float) (l : list A) : float :=
  fold_left (fun sum x => sum + f x) l 0.

Definition hasStatus (s : Status) (it : RoadmapItem.t) : bool :=
  match RoadmapItem.allocationStatus it with
  | Some s' => Status_eqb s' s
  | None => false
  end.

(** The [summary] that [generateReport] returns. *)
Definition summary (st : t) : Summary :=
  let totalTeamCapacity := sumOf TeamMember.capacity (teamMembers st) in
  let totalAllocatedCapacity :=
    sumOf TeamMember.allocatedCapacity (teamMembers st) in
  let utilizationRate := (totalAllocatedCapacity / totalTeamCapacity) * 100 in
  mkSummary
    (Math_round (totalTeamCapacity * 100) / 100)
    (Math_round (totalAllocatedCapacity * 100) / 100)
    (Math_round utilizationRate)
    (length (roadmapItems st))
    (length (List.filter (hasStatus FullyStaffed) (roadmapItems st)))
    (length (allocations st)).

(** [optimize]: the optimizer object after the call, and the summary of
    the report. *)
Definition optimize (st : t) : t * Summary :=
  let st' := allocateAll st in
  (st', summary st').

End AllocationOptimizer.

End Binary64.

(** * Vocabulary of the properties *)

Import AllocationOptimizer.
Import Examples.

(** Case analysis on every [Qmin] and [Qmax] around. *)
Ltac qminmax :=
  repeat match goal with
  | |- context [Qmax ?a ?b] =>
      let H := fresh "Hmax" in
      destruct (Q.max_spec a b) as [[? H]|[? H]];
      revert H; generalize (Qmax a b); intros ? H
  | |- context [Qmin ?a ?b] =>
      let H := fresh "Hmin" in
      destruct (Q.min_spec a b) as [[? H]|[? H]];
      revert H; generalize (Qmin a b); intros ? H
  | H0 : context [Qmax ?a ?b] |- _ =>
      let H := fresh "Hmax" in
      destruct (Q.max_spec a b) as [[? H]|[? H]];
      revert H0 H; generalize (Qmax a b); intros ? H0 H
  | H0 : context [Qmin ?a ?b] |- _ =>
      let H := fresh "Hmin" in
      destruct (Q.min_spec a b) as [[? H]|[? H]];
      revert H0 H; generalize (Qmin a b); intros ? H0 H
  end.

(** What the loop has established when it commits [amount] for member [m]. *)
Definition guarded (remaining : Q) (m : TeamMember.t) (amount : Q) : Prop :=
  0 < remaining ∧ 0 < TeamMember.getAvailableCapacity m ∧
  amount = Qmin (Qmin remaining (TeamMember.getAvailableCapacity m)) (1 # 2) ∧
  (1 # 10) < amount.

(** [P] survives a guarded commit for item [itemIdx]. *)
Definition commitStable (P : t → Prop) (itemIdx : nat) (it : RoadmapItem.t)
    : Prop :=
  ∀ st idx m remaining amount,
    P st → teamMembers st !! idx = Some m →
    is_Some (roadmapItems st !! itemIdx) →
    guarded remaining m amount →
    P (commit idx itemIdx m it amount st).

(** [P] survives the status write on item [itemIdx]. *)
Definition statusStable (P : t → Prop) (itemIdx : nat) : Prop :=
  ∀ st s, P st → P (setStatus itemIdx s st).

(** An item without its engine-owned fields. *)
Definition eraseItem (it : RoadmapItem.t) : RoadmapItem.t :=
  withAllocationStatus None (withAssignedMembers [] it).

(** [st] has the members and items of [st0], engine-owned fields apart. *)
Definition sameStatics (st0 st : t) : Prop :=
  resetMember <$> teamMembers st = resetMember <$> teamMembers st0 ∧
  eraseItem <$> roadmapItems st = eraseItem <$> roadmapItems st0.

(** The allocated capacity is not negative and, once positive, within the
    capacity. *)
Definition withinCapacity (m : TeamMember.t) : Prop :=
  0 <= TeamMember.allocatedCapacity m ∧
  TeamMember.allocatedCapacity m <= Qmax 0 (TeamMember.capacity m).

Definition membersWithin (st : t) : Prop :=
  Forall withinCapacity (teamMembers st).

(** A committed allocation is a meaningful increment, at most half a
    capacity unit, and is counted in the capacity of the member it names. *)
Definition allocationOk (st : t) (a : Allocation.t) : Prop :=
  (1 # 10) < Allocation.allocation a ∧ Allocation.allocation a <= 1 # 2 ∧
  ∃ m, teamMembers st !! Allocation.member a = Some m ∧
       Allocation.allocation a <= TeamMember.allocatedCapacity m.

Definition allocationsOk (st : t) : Prop :=
  membersWithin st ∧ Forall (allocationOk st) (allocations st).

(** Every entry of every [member.assignments] and [item.assignedMembers] is a
    meaningful increment. *)
Definition recordsOk (st : t) : Prop :=
  Forall (fun m =>
            Forall (fun r => (1 # 10) < TeamMember.allocation r)
                   (default [] (TeamMember.assignments m)))
         (teamMembers st) ∧
  Forall (fun it =>
            Forall (fun r => (1 # 10) < RoadmapItem.allocation r)
                   (RoadmapItem.assignedMembers it))
         (roadmapItems st).

(** The [allocationStatus] field of item [j], if there is such an item. *)
Definition statusOf (st : t) (j : nat) : option (option Status) :=
  RoadmapItem.allocationStatus <$> roadmapItems st !! j.

Definition hasSomeStatus (st : t) (j : nat) : Prop :=
  ∃ s, statusOf st j = Some (Some s).

(** Item [j] requires no capacity and nothing has been committed to it. *)
Definition untouched (j : nat) (st : t) : Prop :=
  ∃ it, roadmapItems st !! j = Some it ∧
        RoadmapItem.getRequiredCapacity it == 0 ∧
        RoadmapItem.assignedMembers it = [] ∧
        Forall (fun a => Allocation.item a ≠ j) (allocations st).

(** Two item arrays that differ in [allocationStatus] fields at most. *)
Definition sameButStatus (l l' : list RoadmapItem.t) : Prop :=
  withAllocationStatus None <$> l = withAllocationStatus None <$> l'.

(** Two optimizers that differ in item statuses at most, and not in the
    status of an item in [D]. *)
Definition agree (D : nat → Prop) (s s' : t) : Prop :=
  teamMembers s = teamMembers s' ∧ allocations s = allocations s' ∧
  sameButStatus (roadmapItems s) (roadmapItems s') ∧
  ∀ j, D j → statusOf s j = statusOf s' j.

(** [sub] occurs in [s]: the meaning of [s.includes(sub)]. *)
Definition occursIn (sub s : string) : Prop :=
  ∃ pre post, s = (pre ++ sub ++ post)%string.

(** The relation behind [hasSkill], [hasInterest] and [hasCareerGoal]: once
    both are lowercased, one string occurs in the other. *)
Definition overlaps (own asked : string) : Prop :=
  occursIn (toLowerCase asked) (toLowerCase own) ∨
  occursIn (toLowerCase own) (toLowerCase asked).

(** An effort breakdown as [parseRoadmapItemRow] builds it: no negative
    platform effort, and a total that is the sum of the four. *)
Definition wellFormedEffort (e : RoadmapItem.EffortBreakdown) : Prop :=
  0 <= RoadmapItem.ios e ∧ 0 <= RoadmapItem.android e ∧
  0 <= RoadmapItem.web e ∧ 0 <= RoadmapItem.backend e ∧
  RoadmapItem.total e
    == RoadmapItem.ios e + RoadmapItem.android e +
       RoadmapItem.web e + RoadmapItem.backend e.

(** The scales documented for [size] and [complexity]. *)
Definition onScale (x : Q) : Prop := 1 <= x ∧ x <= 5.

(** An item without effort breakdown, or with a well-formed one. *)
Definition wellFormedItem (it : RoadmapItem.t) : Prop :=
  ∀ e, RoadmapItem.effortBreakdown it = Some e → wellFormedEffort e.



(** The amounts committed so far for item [j]. *)
Definition allocatedTo (st : t) (j : nat) : Q :=
  sumOf Allocation.allocation
        (filter (fun a => Allocation.item a = j) (allocations st)).

(** The member and the item an allocation pairs. *)
Definition pairOf (a : Allocation.t) : nat * nat :=
  (Allocation.member a, Allocation.item a).

(** Item [j] has been handled: its status is the one [getItemStatus] gives
    for the amounts committed to it, which do not exceed what it requires. *)
Definition settled (st : t) (j : nat) : Prop :=
  ∃ x, roadmapItems st !! j = Some x ∧
       RoadmapItem.allocationStatus x
         = Some (getItemStatus x (allocatedTo st j)) ∧
       0 <= allocatedTo st j ∧
       allocatedTo st j <= Qmax 0 (RoadmapItem.getRequiredCapacity x).

(** The state while the items in [D] have been handled and no other. *)
Definition handled (D : nat → Prop) (st : t) : Prop :=
  Forall (fun a => D (Allocation.item a)) (allocations st) ∧
  NoDup (pairOf <$> allocations st) ∧
  ∀ j, D j → is_Some (roadmapItems st !! j) → settled st j.

(** The amounts in [item.assignedMembers] are the amounts of the
    allocations for that item, in the order they were committed. *)
Definition itemsMirror (st : t) : Prop :=
  ∀ j x, roadmapItems st !! j = Some x →
    RoadmapItem.allocation <$> RoadmapItem.assignedMembers x
    = Allocation.allocation
        <$> filter (fun a => Allocation.item a = j) (allocations st).

(** The amounts in [member.assignments] are the amounts of the allocations
    of that member, in the order they were committed, and add up to
    [member.allocatedCapacity]. *)
Definition membersMirror (st : t) : Prop :=
  ∀ i m, teamMembers st !! i = Some m →
    TeamMember.allocation <$> default [] (TeamMember.assignments m)
    = Allocation.allocation
        <$> filter (fun a => Allocation.member a = i) (allocations st) ∧
    is_Some (TeamMember.assignments m) ∧
    TeamMember.allocatedCapacity m
    == sumOf TeamMember.allocation (default [] (TeamMember.assignments m)).

(** Member [i] of [st0] has not been committed to anything in [st]. *)
Definition spared (st0 : t) (i : nat) (st : t) : Prop :=
  sameStatics st0 st ∧ membersWithin st ∧
  Forall (fun a => Allocation.member a ≠ i) (allocations st).

(** What one item adds to the shortage of a role: the part of its effort for
    the platform, in FTE of a 13-week quarter, that the capacity available for
    the platform's skills does not cover. *)
Definition shortageOf (st : t) (p : Platform) (it : RoadmapItem.t) : Q :=
  match RoadmapItem.effortBreakdown it with
  | None => 0
  | Some effort =>
      if Qltb 0 (RoadmapItem.effortOf p effort)
      then Qmax 0 (RoadmapItem.effortOf p effort / 13
                   - getAvailableCapacityForSkills st (Allocation.platformSkills p))
      else 0
  end.

(** The value stored under a key of the [missingTypes] object. *)
Fixpoint missingOf (p : Platform) (l : list (Platform * Q)) : option Q :=
  match l with
  | [] => None
  | (r, v) :: rest => if Platform_eqb r p then Some v else missingOf p rest
  end.

#[global] Instance Platform_eq_dec : EqDecision Platform.
Proof. solve_decision. Defined.

(** [allocation.member.name] and [allocation.item.name] *)
Definition memberName (st : t) (i : nat) : string :=
  from_option TeamMember.name ""%string (teamMembers st !! i).

Definition itemName (st : t) (j : nat) : string :=
  from_option RoadmapItem.name ""%string (roadmapItems st !! j).

(** The entry a commit pushes on [item.assignedMembers] and on
    [member.assignments], read off the allocation pushed with it. *)
Definition itemRecord (st : t) (a : Allocation.t) : RoadmapItem.Assigned :=
  RoadmapItem.mkAssigned (memberName st (Allocation.member a))
    (Allocation.allocation a)
    (Num.roundHalfUp (Allocation.allocation a * 100)).

Definition memberRecord (st : t) (a : Allocation.t) : TeamMember.Assignment :=
  TeamMember.mkAssignment (itemName st (Allocation.item a))
    (Allocation.allocation a)
    (Num.roundHalfUp (Allocation.allocation a * 100)).

(** An allocation pairs a member and an item of [st] and carries the score
    of that pair at its amount. *)
Definition scored (st : t) (a : Allocation.t) : Prop :=
  ∃ m x, teamMembers st !! Allocation.member a = Some m ∧
         roadmapItems st !! Allocation.item a = Some x ∧
         Allocation.score a
           = Allocation.calculateScore m x (Allocation.allocation a).

(** The records of [st] are the entries of its allocation list, with the
    names the members and items have in [st0]. *)
Definition ledger (st0 st : t) : Prop :=
  sameStatics st0 st ∧
  Forall (scored st0) (allocations st) ∧
  (∀ j x, roadmapItems st !! j = Some x →
     RoadmapItem.assignedMembers x
     = itemRecord st0
         <$> filter (fun a => Allocation.item a = j) (allocations st)) ∧
  (∀ i m, teamMembers st !! i = Some m →
     TeamMember.assignments m
     = Some (memberRecord st0
               <$> filter (fun a => Allocation.member a = i) (allocations st))).

(** No member of [st] has more capacity available than in [st0]. *)
Definition noFreer (st0 st : t) : Prop :=
  length (teamMembers st) = length (teamMembers st0) ∧
  ∀ k m0 m, teamMembers st0 !! k = Some m0 → teamMembers st !! k = Some m →
    TeamMember.getAvailableCapacity m <= TeamMember.getAvailableCapacity m0.

(** Item [j] is short of a meaningful amount only when every member with a
    meaningful amount left is already allocated to it. *)
Definition spareless (st : t) (j : nat) : Prop :=
  ∀ x i m, roadmapItems st !! j = Some x → teamMembers st !! i = Some m →
    (1 # 10) < RoadmapItem.getRequiredCapacity x - allocatedTo st j →
    (1 # 10) < TeamMember.getAvailableCapacity m →
    ∃ a, a ∈ allocations st ∧ Allocation.member a = i ∧ Allocation.item a = j.

Definition greedy (D : nat → Prop) (st : t) : Prop :=
  Forall (fun a => D (Allocation.item a)) (allocations st) ∧
  ∀ j, D j → spareless st j.

(** The score of the pair an allocation names, at the 30% baseline
    [findPotentialAllocations] ranks the candidates with. *)
Definition baselineScore (st : t) (a : Allocation.t) : num :=
  match teamMembers st !! Allocation.member a,
        roadmapItems st !! Allocation.item a with
  | Some m, Some x => Allocation.calculateScore m x (3 # 10)
  | _, _ => NaN
  end.

(** [a] is no worse a match than [b]. *)
Definition noWorse (st : t) (a b : Allocation.t) : Prop :=
  Num.geb (baselineScore st a) (baselineScore st b) = true.

(** The baseline score of member [k] for item [j], as a number. *)
Definition baselineOf (st : t) (j k : nat) : Q :=
  match baselineScore st (Allocation.mk k j 0 NaN) with
  | Fin q => q
  | _ => 0
  end.

(** The allocations of the items in [D] are in the order of the ranking. *)
Definition ranked (st0 : t) (D : nat → Prop) (st : t) : Prop :=
  sameStatics st0 st ∧
  Forall (fun a => D (Allocation.item a)) (allocations st) ∧
  ∀ j x, D j → roadmapItems st0 !! j = Some x → wellFormedItem x →
    StronglySorted (noWorse st0)
      (filter (fun a => Allocation.item a = j) (allocations st)).

(** The object built so far holds, for every role, the sum [acc] of the
    shortages seen, and has no key for a role whose sum is zero. *)
Definition missingInv (l : list (Platform * Q)) (acc : Platform → Q) : Prop :=
  NoDup l.*1 ∧
  ∀ p, match missingOf p l with
       | Some v => 0 < v ∧ v == acc p
       | None => acc p == 0
       end.

(** The item the loop works for keeps, in the array, the fields of the
    object [it] read before the loop. *)
Definition isItem (itemIdx : nat) (it : RoadmapItem.t) (st : t) : Prop :=
  eraseItem <$> roadmapItems st !! itemIdx = Some (eraseItem it).

(** *** The allocation list read per member and per item *)

Module Binary64Ledger.
Import Binary64 Binary64.AllocationOptimizer.

(** The committed allocations of member number [k], in commit order. *)
Definition ofMember (k : nat) (l : list Allocation.t) : list Allocation.t :=
  filter (fun a => Allocation.member a = k) l.

(** The committed allocations of item number [j], in commit order. *)
Definition ofItem (j : nat) (l : list Allocation.t) : list Allocation.t :=
  filter (fun a => Allocation.item a = j) l.

(** What the bookkeeping of a state says about its allocation list. *)
Record balanced (st : t) : Prop := mkBalanced {
  onMember : ∀ k m, teamMembers st !! k = Some m →
    TeamMember.allocatedCapacity m =
      sumOf Allocation.allocation (ofMember k (allocations st)) ∧
    TeamMember.allocation <$> default [] (TeamMember.assignments m) =
      Allocation.allocation <$> ofMember k (allocations st);
  onItem : ∀ j it, roadmapItems st !! j = Some it →
    RoadmapItem.allocation <$> RoadmapItem.assignedMembers it =
      Allocation.allocation <$> ofItem j (allocations st);
  inRange : Forall (fun a =>
              (Allocation.member a < length (teamMembers st))%nat ∧
              (Allocation.item a < length (roadmapItems st))%nat)
            (allocations st)
}.

End Binary64Ledger.

(** *** Inputs in binary64 *)

Module Binary64Examples.
Import PrimFloat Binary64.
#[local] Set Warnings "-inexact-float".
Local Open Scope float_scope.

(** The fixture of the optimizer tests. *)
Definition alice : TeamMember.t :=
  TeamMember.new "Alice" "Senior" ["JavaScript"; "React"] 1.0 ["Frontend"]
                 ["Leadership"].
Definition bob : TeamMember.t :=
  TeamMember.new "Bob" "Mid" ["Node.js"; "Python"] 0.8 ["Backend"]
                 ["Architecture"].
Definition carol : TeamMember.t :=
  TeamMember.new "Carol" "Junior" ["CSS"; "HTML"] 1.0 ["Frontend"]
                 ["Mentoring"].
Definition frontendRedesign : RoadmapItem.t :=
  RoadmapItem.new "Frontend Redesign" "Redesign the main UI" 4 3
                  ["React"; "CSS"] "Frontend" "Mid" ["Leadership"].
Definition apiDevelopment : RoadmapItem.t :=
  RoadmapItem.new "API Development" "Build REST APIs" 3 4
                  ["Node.js"; "Python"] "Backend" "Senior" ["Architecture"].
Definition smallBugFix : RoadmapItem.t :=
  RoadmapItem.new "Small Bug Fix" "Fix minor issues" 1 1 ["JavaScript"]
                  "Frontend" "Junior" [].
Definition fixture : AllocationOptimizer.t :=
  AllocationOptimizer.new [alice; bob; carol]
                          [frontendRedesign; apiDevelopment; smallBugFix].

(** Two members without skills and two items without required skills. *)
Definition ann : TeamMember.t := TeamMember.new "Ann" "Mid" [] 0.21 [] [].
Definition ben : TeamMember.t := TeamMember.new "Ben" "Mid" [] 0.44 [] [].
Definition search : RoadmapItem.t :=
  RoadmapItem.new "Search" "" 4 1 [] "" "Junior" [].
Definition billing : RoadmapItem.t :=
  RoadmapItem.new "Billing" "" 3 2 [] "" "Junior" [].
Definition overrun : AllocationOptimizer.t :=
  AllocationOptimizer.new [ann; ben] [search; billing].

(** The item of the [Allocation] tests of [tests/models.test.js], and a
    developer whose level is left open. *)
Definition reactProject : RoadmapItem.t :=
  RoadmapItem.new "React Project" "Build React app" 3 3 ["React"] "Frontend"
    "Mid" ["Leadership"].
Definition dev (level : string) : TeamMember.t :=
  TeamMember.new "Dev" level ["React"] 1.0 ["Frontend"] [].

(** Two part-timers and three items. *)
Definition cleo : TeamMember.t := TeamMember.new "Cleo" "Mid" [] 0.84 [] [].
Definition dan : TeamMember.t := TeamMember.new "Dan" "Mid" [] 0.686 [] [].
Definition login : RoadmapItem.t :=
  RoadmapItem.new "Login" "" 5 2 [] "" "Junior" [].
Definition reports : RoadmapItem.t :=
  RoadmapItem.new "Reports" "" 3 2 [] "" "Junior" [].
Definition audit : RoadmapItem.t :=
  RoadmapItem.new "Audit" "" 1 5 [] "" "Junior" [].
Definition uneven : AllocationOptimizer.t :=
  AllocationOptimizer.new [cleo; dan] [login; reports; audit].

End Binary64Examples.

(** Two members that differ in their level only. *)
Definition sameButLevel (m1 m2 : TeamMember.t) : Prop :=
  TeamMember.name m1 = TeamMember.name m2 ∧
  TeamMember.skills m1 = TeamMember.skills m2 ∧
  TeamMember.capacity m1 = TeamMember.capacity m2 ∧
  TeamMember.interests m1 = TeamMember.interests m2 ∧
  TeamMember.careerGoals m1 = TeamMember.careerGoals m2 ∧
  TeamMember.allocatedCapacity m1 = TeamMember.allocatedCapacity m2 ∧
  TeamMember.assignments m1 = TeamMember.assignments m2.

(** Carol of the fixture, had she the level Senior. *)
Definition seniorCarol : TeamMember.t :=
  TeamMember.new "Carol" "Senior" ["CSS"; "HTML"] 1 ["Frontend"] ["Mentoring"].

(** * Properties *)

(** ** The repository's tests, replayed on the model *)

Example test_available_capacity :
  let member := TeamMember.new "John Doe" "Senior" ["JavaScript"; "React"]
                               (8 # 10) ["Frontend"] ["Leadership"] in
  let allocated a :=
    TeamMember.mk (TeamMember.name member) (TeamMember.level member)
      (TeamMember.skills member) (TeamMember.capacity member)
      (TeamMember.interests member) (TeamMember.careerGoals member) a None in
  TeamMember.getAvailableCapacity member == 8 # 10 ∧
  TeamMember.getAvailableCapacity (allocated (3 # 10)) == 5 # 10 ∧
  TeamMember.getAvailableCapacity (allocated (8 # 10)) == 0 ∧
  TeamMember.getAvailableCapacity (allocated 1) == 0.
Proof. by vm_compute. Qed.

Example test_fuzzy_matching :
  let member := TeamMember.new "John Doe" "Senior" ["JavaScript"; "React"]
                               (8 # 10) ["Frontend"] ["Leadership"] in
  TeamMember.hasSkill member "JavaScript" = true ∧
  TeamMember.hasSkill member "Python" = false ∧
  TeamMember.hasSkill member "java" = true ∧
  TeamMember.hasInterest member "Backend" = false ∧
  TeamMember.hasInterest member "front" = true ∧
  TeamMember.hasCareerGoal member "Architecture" = false ∧
  TeamMember.hasCareerGoal member "lead" = true.
Proof. by vm_compute. Qed.

Example test_level_weight :
  TeamMember.getLevelWeight (TeamMember.new "John Doe" "Senior" [] 1 [] [])
    = Weight (13 # 10) ∧
  TeamMember.getLevelWeight (TeamMember.new "Junior Dev" "Junior" [] 1 [] [])
    = Weight (7 # 10) ∧
  TeamMember.getLevelWeight
    (TeamMember.new "Unknown Dev" "Unknown Level" [] 1 [] []) = Weight 1.
Proof. by vm_compute. Qed.

Example test_priority_and_required_capacity :
  RoadmapItem.priority Fixture.frontendRedesign == 36 # 10 ∧
  RoadmapItem.getRequiredCapacity Fixture.frontendRedesign == 96 # 100 ∧
  RoadmapItem.isFullyStaffed Fixture.frontendRedesign = false ∧
  RoadmapItem.isFullyStaffed
    (withAssignedMembers [RoadmapItem.mkAssigned "John" (96 # 100) 96]
                         Fixture.frontendRedesign) = true.
Proof. by vm_compute. Qed.

Example test_score_orderings :
  let member := TeamMember.new "Alice" "Senior" ["React"; "JavaScript"] 1
                               ["Frontend"] ["Leadership"] in
  let item := RoadmapItem.new "React Project" "Build React app" 3 3 ["React"]
                              "Frontend" "Mid" ["Leadership"] in
  let score m q := Allocation.calculateScore m item q in
  Num.gtb (score member (4 # 10))
          (score (TeamMember.new "Bob" "Senior" ["Python"] 1 [] []) (4 # 10))
    = true ∧
  Num.gtb (score member (4 # 10))
          (score (TeamMember.new "Charlie" "Senior" ["React"] 1 ["Backend"] [])
                 (4 # 10)) = true ∧
  Num.gtb (score member (4 # 10))
          (score (TeamMember.new "Dave" "Senior" ["React"] 1 ["Frontend"]
                                 ["Architecture"]) (4 # 10)) = true ∧
  Num.gtb (score member (4 # 10))
          (score (TeamMember.new "Junior Dev" "Junior" ["React"] 1
                                 ["Frontend"] []) (4 # 10)) = true ∧
  Num.gtb (score member (8 # 10)) (score member (1 # 10)) = true.
Proof. by vm_compute. Qed.

Example test_fixture_report :
  let report := (optimize Fixture.optimizer).2 in
  Report.totalTeamCapacity (Report.summary report) == 28 # 10 ∧
  Report.itemsCount (Report.summary report) = 3%nat ∧
  Report.totalAssignments (Report.summary report) = 4%nat ∧
  Report.recommendations report
    = [Report.NoStaffing 1; Report.AvailableCapacity 2; Report.OverAllocated 1].
Proof. by vm_compute. Qed.

Example test_empty_inputs :
  let noTeam := (optimize noMembers).2 in
  let noItems :=
    (optimize (AllocationOptimizer.new
                 [Fixture.alice; Fixture.bob; Fixture.carol] [])).2 in
  Report.totalTeamCapacity (Report.summary noTeam) == 0 ∧
  Report.totalAllocatedCapacity (Report.summary noTeam) == 0 ∧
  Report.allocations noTeam = [] ∧
  Report.itemsCount (Report.summary noItems) = 0%nat ∧
  Report.allocations noItems = [] ∧
  Report.recommendations noItems = [Report.AvailableCapacity 3].
Proof. by vm_compute. Qed.

Example test_skill_matching :
  let frontendMember :=
    TeamMember.new "Frontend Dev" "Senior" ["React"; "CSS"] 1 ["Frontend"] [] in
  let backendMember :=
    TeamMember.new "Backend Dev" "Senior" ["Node.js"; "Python"] 1 ["Backend"] [] in
  let frontendProject :=
    RoadmapItem.new "React App" "Build React app" 3 3 ["React"] "Frontend"
                    "Junior" [] in
  let report :=
    (optimize (AllocationOptimizer.new [frontendMember; backendMember]
                                       [frontendProject])).2 in
  Report.member <$> Report.allocations report = ["Frontend Dev"; "Backend Dev"] ∧
  Report.item <$> Report.allocations report = ["React App"; "React App"].
Proof. by vm_compute. Qed.

(** The same tests in binary64: the figures of the report on the fixture,
    on which no member exceeds their capacity, and the priority and the
    required capacity of the first item. *)
Section TestsInBinary64.
Import PrimFloat Binary64 Binary64.AllocationOptimizer Binary64Examples.
#[local] Set Warnings "-inexact-float".
Local Open Scope float_scope.

Example test_fixture_binary64 :
  let st := (optimize fixture).1 in
  let summary := (optimize fixture).2 in
  totalTeamCapacity summary = 2.8 ∧
  itemsCount summary = 3%nat ∧
  totalAssignments summary = 4%nat ∧
  Allocation.allocation <$> allocations st
    = [0.5; 0.45999999999999996; 0.5; 0.45999999999999996] ∧
  forallb (fun m => TeamMember.allocatedCapacity m <=? TeamMember.capacity m)
          (teamMembers st) = true ∧
  RoadmapItem.priority frontendRedesign = 4 * 0.6 + 3 * 0.4 ∧
  RoadmapItem.getRequiredCapacity frontendRedesign = (4 / 5) * (3 / 5) * 2.
Proof. by vm_compute. Qed.

End TestsInBinary64.

(** ** Rational comparisons *)

Lemma Qltb_lt (a b : Q) : Qltb a b = true ↔ a < b.
Proof.
  unfold Qltb. rewrite negb_true_iff. split.
  - intros H. apply Qnot_le_lt. intros Hle.
    apply Qle_bool_iff in Hle. congruence.
  - intros H. destruct (Qle_bool b a) eqn:E; [|done].
    apply Qle_bool_iff in E. lra.
Qed.

Lemma Qltb_ge (a b : Q) : Qltb a b = false ↔ b <= a.
Proof.
  unfold Qltb. rewrite negb_false_iff. apply Qle_bool_iff.
Qed.

Lemma Qle_bool_gt (a b : Q) : Qle_bool a b = false ↔ b < a.
Proof.
  split.
  - intros H. apply Qnot_le_lt. intros Hle.
    apply Qle_bool_iff in Hle. congruence.
  - intros H. destruct (Qle_bool a b) eqn:E; [|done].
    apply Qle_bool_iff in E. lra.
Qed.

Lemma Qeq_bool_true (a b : Q) : a == b → Qeq_bool a b = true.
Proof. apply Qeq_bool_iff. Qed.

(** ** Sums *)

Section Sums.
Context {A : Type} (f : A → Q).

Lemma sumOf_acc (l : list A) (a : Q) :
  fold_left (fun sum x => sum + f x) l a == a + sumOf f l.
Proof.
  unfold sumOf. revert a. induction l as [|x l IH]; intros a; simpl.
  - lra.
  - rewrite (IH (a + f x)), (IH (0 + f x)). lra.
Qed.

Lemma sumOf_nil : sumOf f [] == 0.
Proof. reflexivity. Qed.

Lemma sumOf_cons (x : A) (l : list A) : sumOf f (x :: l) == f x + sumOf f l.
Proof. unfold sumOf at 1. simpl. rewrite sumOf_acc. lra. Qed.

Lemma sumOf_app (l k : list A) : sumOf f (l ++ k) == sumOf f l + sumOf f k.
Proof.
  induction l as [|x l IH]; simpl.
  - rewrite sumOf_nil. lra.
  - rewrite !sumOf_cons, IH. lra.
Qed.

Lemma sumOf_alter (g : A → A) (l : list A) (i : nat) (x : A) :
  l !! i = Some x →
  sumOf f (alter g i l) == sumOf f l - f x + f (g x).
Proof.
  revert i. induction l as [|y l IH]; intros [|i] H; simplify_eq/=.
  - rewrite !sumOf_cons. lra.
  - rewrite !sumOf_cons, (IH i H). lra.
Qed.

Lemma sumOf_zero (l : list A) : Forall (fun x => f x == 0) l → sumOf f l == 0.
Proof.
  induction 1 as [|x l Hx _ IH].
  - reflexivity.
  - rewrite sumOf_cons, Hx, IH. lra.
Qed.

End Sums.

(** ** Invariants of the allocation loop

    A state property that survives every guarded commit and every status
    write holds after [allocateItem], and after the whole run once it holds
    of the reset state. *)

Lemma commit_item_is_Some idx itemIdx m it amount st j :
  is_Some (roadmapItems st !! j) →
  is_Some (roadmapItems (commit idx itemIdx m it amount st) !! j).
Proof.
  rewrite !lookup_lt_is_Some. simpl. by rewrite length_alter.
Qed.

Lemma allocLoop_inv (P : t → Prop) itemIdx it :
  commitStable P itemIdx it →
  ∀ potentials remaining st,
    is_Some (roadmapItems st !! itemIdx) → P st →
    P (allocLoop itemIdx it potentials remaining st).2.
Proof.
  intros Hc potentials.
  induction potentials as [|p rest IH]; intros remaining st Hi HP; simpl.
  - done.
  - destruct (Qle_bool remaining 0) eqn:Hrem; [done|].
    apply Qle_bool_gt in Hrem.
    destruct (teamMembers st !! member p) as [m|] eqn:Hm; [|by apply IH].
    destruct (Qle_bool (TeamMember.getAvailableCapacity m) 0) eqn:Hav;
      [by apply IH|].
    apply Qle_bool_gt in Hav.
    destruct (Qltb _ _) eqn:Hamt; [|by apply IH].
    apply Qltb_lt in Hamt.
    apply IH.
    + by apply commit_item_is_Some.
    + eapply Hc; eauto. by repeat split.
Qed.

Lemma allocLoop_item_is_Some itemIdx it potentials remaining st j :
  is_Some (roadmapItems st !! j) →
  is_Some (roadmapItems (allocLoop itemIdx it potentials remaining st).2 !! j).
Proof.
  revert remaining st.
  induction potentials as [|p rest IH]; intros remaining st Hj; simpl; [done|].
  repeat case_match; auto using commit_item_is_Some.
Qed.

Lemma allocateItem_inv (P : t → Prop) st itemIdx :
  (∀ it, roadmapItems st !! itemIdx = Some it → commitStable P itemIdx it) →
  statusStable P itemIdx →
  P st → P (allocateItem st itemIdx).
Proof.
  intros Hc Hs HP. unfold allocateItem.
  destruct (roadmapItems st !! itemIdx) as [it|] eqn:Hit; [|done].
  destruct (allocLoop _ _ _ _ _) as [remaining st'] eqn:Hloop.
  apply Hs.
  change st' with (remaining, st').2. rewrite <- Hloop.
  apply allocLoop_inv; eauto.
Qed.

Lemma fold_allocateItem_inv (P : t → Prop) (order : list nat) st :
  (∀ st' i, i ∈ order → P st' → P (allocateItem st' i)) →
  P st → P (fold_left allocateItem order st).
Proof.
  revert st. induction order as [|i order IH]; intros st Hstep HP; simpl.
  - done.
  - apply IH.
    + intros st' j Hj. apply Hstep. by right.
    + apply Hstep; [by left|done].
Qed.

Lemma allocateAll_inv (P : t → Prop) st :
  (∀ itemIdx it, commitStable P itemIdx it) →
  (∀ itemIdx, statusStable P itemIdx) →
  P (reset st) → P (allocateAll st).
Proof.
  intros Hc Hs HP. unfold allocateAll.
  apply fold_allocateItem_inv; [|done].
  intros st' i _ HP'. apply allocateItem_inv; auto.
Qed.

(** ** What a run leaves alone

    A commit and a status write change only the engine-owned fields:
    erasing those fields gives the same arrays before and after. *)

Lemma fmap_alter_absorb {A B : Type} (g : A → B) (f : A → A) (l : list A) i :
  (∀ x, g (f x) = g x) → g <$> alter f i l = g <$> l.
Proof.
  intros H. rewrite (list_fmap_alter g f id).
  - by apply list_alter_id.
  - apply Forall_forall. intros x _. apply H.
Qed.

Lemma sameStatics_commit st0 itemIdx it : commitStable (sameStatics st0) itemIdx it.
Proof.
  intros st idx m remaining amount [Hm Hi] _ _ _. split; simpl.
  - by rewrite fmap_alter_absorb.
  - by rewrite fmap_alter_absorb.
Qed.

Lemma sameStatics_status st0 itemIdx : statusStable (sameStatics st0) itemIdx.
Proof.
  intros st s [Hm Hi]. split; simpl; [done|].
  by rewrite fmap_alter_absorb.
Qed.

Lemma sameStatics_reset st : sameStatics st (reset st).
Proof.
  split; simpl; rewrite <- list_fmap_compose; by apply list_fmap_ext.
Qed.

Lemma sameStatics_allocateAll st : sameStatics st (allocateAll st).
Proof.
  apply allocateAll_inv;
    auto using sameStatics_commit, sameStatics_status, sameStatics_reset.
Qed.

(** The members after a run are the members before it, field by field,
    engine-owned fields apart. *)
Lemma members_statics st :
  Forall2 (fun m m' => resetMember m' = resetMember m)
          (teamMembers st) (teamMembers (allocateAll st)).
Proof.
  destruct (sameStatics_allocateAll st) as [H _].
  apply Forall2_same_length_lookup. split.
  - apply (f_equal length) in H. by rewrite !length_fmap in H.
  - intros i x y Hx Hy.
    apply (f_equal (.!! i)) in H. rewrite !list_lookup_fmap, Hx, Hy in H.
    simpl in H. congruence.
Qed.

(** ** Capacity bookkeeping of the members *)

Lemma guarded_amount remaining m amount :
  guarded remaining m amount →
  (1 # 10) < amount ∧ amount <= 1 # 2 ∧ amount <= remaining ∧
  amount <= TeamMember.capacity m - TeamMember.allocatedCapacity m.
Proof.
  unfold guarded, TeamMember.getAvailableCapacity.
  intros (Hrem & Hav & -> & Hamt). revert Hav Hamt.
  qminmax; intros; repeat split; lra.
Qed.

Lemma membersWithin_commit itemIdx it : commitStable membersWithin itemIdx it.
Proof.
  intros st idx m remaining amount HP Hm _ Hg. unfold membersWithin. simpl.
  apply Forall_alter; [done|].
  intros x Hx [H0 H1]. simplify_eq.
  apply guarded_amount in Hg. destruct Hg as (Ha & _ & _ & Hcap).
  unfold withinCapacity. simpl. revert H1. qminmax; intros; split; lra.
Qed.

Lemma membersWithin_status itemIdx : statusStable membersWithin itemIdx.
Proof. by intros st s HP. Qed.

Lemma membersWithin_reset st : membersWithin (reset st).
Proof.
  unfold membersWithin. simpl. apply Forall_fmap, Forall_forall.
  intros m _. unfold withinCapacity. simpl. qminmax; split; lra.
Qed.

Lemma membersWithin_allocateAll st : membersWithin (allocateAll st).
Proof.
  apply allocateAll_inv;
    auto using membersWithin_commit, membersWithin_status, membersWithin_reset.
Qed.

(** ** The committed allocations *)

Lemma allocationsOk_commit itemIdx it : commitStable allocationsOk itemIdx it.
Proof.
  intros st idx m remaining amount [Hw Ha] Hm Hi Hg. split.
  { eapply membersWithin_commit; eauto. }
  pose proof (Forall_lookup_1 _ _ _ _ Hw Hm) as [Hm0 _].
  destruct (guarded_amount _ _ _ Hg) as (Hlo & Hhi & _ & _).
  simpl. apply Forall_app. split.
  - eapply Forall_impl; [exact Ha|].
    intros a (H1 & H2 & m' & Hm' & H3). repeat split; [done..|]. simpl.
    destruct (decide (Allocation.member a = idx)) as [He|Hne].
    + rewrite He in *. rewrite list_lookup_alter_eq, Hm. simplify_eq.
      eexists. split; [done|]. simpl. lra.
    + rewrite list_lookup_alter_ne by done. eauto.
  - apply Forall_singleton. repeat split; simpl; [done..|].
    rewrite list_lookup_alter_eq, Hm. eexists. split; [done|]. simpl. lra.
Qed.

Lemma allocationsOk_status itemIdx : statusStable allocationsOk itemIdx.
Proof. by intros st s HP. Qed.

Lemma allocationsOk_reset st : allocationsOk (reset st).
Proof. split; [apply membersWithin_reset|by apply Forall_nil]. Qed.

Lemma allocationsOk_allocateAll st : allocationsOk (allocateAll st).
Proof.
  apply allocateAll_inv;
    auto using allocationsOk_commit, allocationsOk_status, allocationsOk_reset.
Qed.

Lemma recordsOk_commit itemIdx it : commitStable recordsOk itemIdx it.
Proof.
  intros st idx m remaining amount [Hm Hi] _ _ Hg.
  destruct (guarded_amount _ _ _ Hg) as (Hlo & _).
  split; simpl.
  - apply Forall_alter; [done|]. intros x _ Hx. simpl.
    apply Forall_app. split; [done|]. by apply Forall_singleton.
  - apply Forall_alter; [done|]. intros x _ Hx. simpl.
    apply Forall_app. split; [done|]. by apply Forall_singleton.
Qed.

Lemma recordsOk_status itemIdx : statusStable recordsOk itemIdx.
Proof.
  intros st s [Hm Hi]. split; simpl; [done|].
  apply Forall_alter; [done|]. by intros x _ Hx.
Qed.

Lemma recordsOk_reset st : recordsOk (reset st).
Proof.
  split; simpl; apply Forall_fmap, Forall_forall; intros x _; simpl;
    apply Forall_nil_2.
Qed.

Lemma recordsOk_allocateAll st : recordsOk (allocateAll st).
Proof.
  apply allocateAll_inv;
    auto using recordsOk_commit, recordsOk_status, recordsOk_reset.
Qed.

(** ** Conservation of the allocated amounts *)

Lemma sumOf_alter_same {A : Type} (f : A → Q) (g : A → A) (l : list A) i :
  (∀ x, f (g x) == f x) → sumOf f (alter g i l) == sumOf f l.
Proof.
  intros H. revert i. induction l as [|y l IH]; intros [|i].
  - reflexivity.
  - reflexivity.
  - change (alter g 0%nat (y :: l)) with (g y :: l).
    rewrite !sumOf_cons, H. reflexivity.
  - change (alter g (S i) (y :: l)) with (y :: alter g i l).
    rewrite !sumOf_cons, IH. reflexivity.
Qed.

Lemma getTotalAllocation_recordOnItem memberName amount it :
  RoadmapItem.getTotalAllocation (recordOnItem memberName amount it)
    == RoadmapItem.getTotalAllocation it + amount.
Proof.
  unfold RoadmapItem.getTotalAllocation. simpl.
  change (fold_left ?g ?l 0) with (sumOf RoadmapItem.allocation l).
  rewrite sumOf_app, sumOf_cons, sumOf_nil. simpl. lra.
Qed.

(** ** The sort keeps its elements *)

Lemma insertSorted_Permutation {A : Type} (cmp : A → A → num) x (l : list A) :
  insertSorted cmp x l ≡ₚ x :: l.
Proof.
  induction l as [|y l IH]; simpl; [done|].
  case_match; [|done]. rewrite IH. apply Permutation_swap.
Qed.

Lemma jsSort_Permutation {A : Type} (cmp : A → A → num) (l : list A) :
  jsSort cmp l ≡ₚ l.
Proof.
  induction l as [|x l IH]; simpl; [done|].
  unfold jsSort in *. simpl. by rewrite insertSorted_Permutation, IH.
Qed.

Lemma jsSort_ext {A : Type} (cmp cmp' : A → A → num) (l : list A) :
  (∀ a b, cmp a b = cmp' a b) → jsSort cmp l = jsSort cmp' l.
Proof.
  intros H. unfold jsSort. induction l as [|x l IH]; simpl; [done|].
  rewrite IH. generalize (foldr (insertSorted cmp') [] l). intros k.
  induction k as [|y k IHk]; simpl; [done|]. by rewrite H, IHk.
Qed.

Lemma sortedItems_complete st j :
  is_Some (roadmapItems st !! j) → j ∈ sortedItems st.
Proof.
  intros Hj. unfold sortedItems. rewrite jsSort_Permutation.
  apply elem_of_seq. apply lookup_lt_is_Some in Hj. lia.
Qed.

(** ** Every item ends with a status *)

Lemma statusOf_commit idx itemIdx m it amount st j :
  statusOf (commit idx itemIdx m it amount st) j = statusOf st j.
Proof.
  unfold statusOf. simpl.
  rewrite <- !list_lookup_fmap. by rewrite fmap_alter_absorb.
Qed.

Lemma statusOf_setStatus_eq i s st :
  is_Some (roadmapItems st !! i) → statusOf (setStatus i s st) i = Some (Some s).
Proof.
  intros [it Hit]. unfold statusOf. simpl.
  by rewrite list_lookup_alter_eq, Hit.
Qed.

Lemma statusOf_setStatus_ne i s st j :
  i ≠ j → statusOf (setStatus i s st) j = statusOf st j.
Proof.
  intros Hne. unfold statusOf. simpl. by rewrite list_lookup_alter_ne.
Qed.

Lemma hasSomeStatus_allocateItem st i j :
  hasSomeStatus st j → hasSomeStatus (allocateItem st i) j.
Proof.
  apply (allocateItem_inv (fun st => hasSomeStatus st j)).
  - intros it _ st' idx m remaining amount H _ _ _.
    unfold hasSomeStatus. by rewrite statusOf_commit.
  - intros st' s [s' H]. destruct (decide (i = j)) as [->|Hne].
    + exists s. apply statusOf_setStatus_eq.
      unfold statusOf in H. destruct (roadmapItems st' !! j); by eauto.
    + exists s'. by rewrite statusOf_setStatus_ne.
Qed.

Lemma allocateItem_length st i :
  length (roadmapItems (allocateItem st i)) = length (roadmapItems st).
Proof.
  apply (allocateItem_inv
           (fun st' => length (roadmapItems st') = length (roadmapItems st)));
    [| |done].
  - intros it _ st' idx m remaining amount H _ _ _. simpl.
    by rewrite length_alter.
  - intros st' s H. simpl. by rewrite length_alter.
Qed.

Lemma allocateItem_sets_status st i :
  is_Some (roadmapItems st !! i) → hasSomeStatus (allocateItem st i) i.
Proof.
  intros [it Hit]. unfold allocateItem. rewrite Hit.
  destruct (allocLoop _ _ _ _ _) as [remaining st'] eqn:Hloop.
  eexists. apply statusOf_setStatus_eq.
  change st' with (remaining, st').2. rewrite <- Hloop.
  apply allocLoop_item_is_Some. by eexists.
Qed.

Lemma fold_allocateItem_length order st :
  length (roadmapItems (fold_left allocateItem order st))
    = length (roadmapItems st).
Proof.
  revert st. induction order as [|i order IH]; intros st; simpl; [done|].
  by rewrite IH, allocateItem_length.
Qed.

Lemma fold_allocateItem_status order st j :
  is_Some (roadmapItems st !! j) →
  j ∈ order ∨ hasSomeStatus st j →
  hasSomeStatus (fold_left allocateItem order st) j.
Proof.
  revert st. induction order as [|i order IH]; intros st Hj H; simpl.
  - destruct H as [H|H]; [by apply elem_of_nil in H|done].
  - apply IH.
    + apply lookup_lt_is_Some. rewrite allocateItem_length.
      by apply lookup_lt_is_Some.
    + destruct H as [H|H].
      * apply elem_of_cons in H as [->|H]; [|by left].
        right. by apply allocateItem_sets_status.
      * right. by apply hasSomeStatus_allocateItem.
Qed.

Lemma allocateAll_status st :
  Forall (fun it => is_Some (RoadmapItem.allocationStatus it))
         (roadmapItems (allocateAll st)).
Proof.
  apply Forall_lookup. intros j it Hit.
  assert (Hj : is_Some (roadmapItems (reset st) !! j)).
  { apply lookup_lt_is_Some.
    unfold allocateAll in Hit. apply lookup_lt_Some in Hit.
    by rewrite fold_allocateItem_length in Hit. }
  destruct (fold_allocateItem_status (sortedItems (reset st)) (reset st) j Hj)
    as [s Hs].
  { left. by apply sortedItems_complete. }
  unfold statusOf, allocateAll in *. rewrite Hit in Hs. simpl in Hs.
  exists s. congruence.
Qed.

Lemma itemsWithStatus_status st s :
  Forall (fun e => RoadmapItem.allocationStatus (Report.base e) = Some s)
         (map enhance (itemsWithStatus st s)).
Proof.
  apply Forall_forall. intros e He.
  apply list_elem_of_In, in_map_iff in He as (it & <- & Hin).
  apply filter_In in Hin as [_ Hs]. simpl.
  unfold hasStatus in Hs. destruct (RoadmapItem.allocationStatus it) as [s'|];
    [|done].
  by destruct s', s.
Qed.

Lemma status_partition (l : list RoadmapItem.t) :
  Forall (fun it => is_Some (RoadmapItem.allocationStatus it)) l →
  (length (List.filter (hasStatus FullyStaffed) l) +
   length (List.filter (hasStatus AdequatelyStaffed) l) +
   length (List.filter (hasStatus UnderStaffed) l) +
   length (List.filter (hasStatus NotStaffed) l))%nat = length l.
Proof.
  induction 1 as [|it l [s Hs] _ IH]; simpl; [done|].
  assert (Hh : ∀ s', hasStatus s' it = Status_eqb s s').
  { intros s'. unfold hasStatus. by rewrite Hs. }
  rewrite !Hh. destruct s; simpl; lia.
Qed.

(** ** An item that requires no capacity *)

Lemma allocLoop_done itemIdx it potentials remaining st :
  remaining <= 0 →
  allocLoop itemIdx it potentials remaining st = (remaining, st).
Proof.
  intros H. apply Qle_bool_iff in H.
  destruct potentials; simpl; [done|]. by rewrite H.
Qed.

Lemma div_zero_zero (a b : Q) : a == 0 → b == 0 → Num.div a b = NaN.
Proof.
  intros Ha Hb. unfold Num.div.
  by rewrite (Qeq_bool_true _ _ Ha), (Qeq_bool_true _ _ Hb).
Qed.

Lemma getItemStatus_zero it allocated :
  RoadmapItem.getRequiredCapacity it == 0 → allocated == 0 →
  getItemStatus it allocated = NotStaffed.
Proof.
  intros Hreq Ha. unfold getItemStatus. by rewrite div_zero_zero.
Qed.

Lemma untouched_self j st :
  untouched j st →
  untouched j (allocateItem st j) ∧
  statusOf (allocateItem st j) j = Some (Some NotStaffed).
Proof.
  intros (it & Hit & Hreq & Has & Hal). unfold allocateItem. rewrite Hit.
  rewrite allocLoop_done by lra.
  rewrite getItemStatus_zero by (done || lra). split.
  - exists (withAllocationStatus (Some NotStaffed) it). simpl.
    by rewrite list_lookup_alter_eq, Hit.
  - apply statusOf_setStatus_eq. by eexists.
Qed.

Lemma untouched_other i j st :
  i ≠ j → untouched j st → untouched j (allocateItem st i).
Proof.
  intros Hne. apply allocateItem_inv.
  - intros it _ st' idx m remaining amount (it' & Hit & Hreq & Has & Hal) _ _ _.
    exists it'. simpl. rewrite list_lookup_alter_ne by done.
    repeat split; [done..|].
    apply Forall_app. split; [done|]. by apply Forall_singleton.
  - intros st' s (it' & Hit & Hreq & Has & Hal).
    exists it'. simpl. by rewrite list_lookup_alter_ne.
Qed.

Lemma untouched_allocateItem i j st :
  untouched j st → untouched j (allocateItem st i).
Proof.
  destruct (decide (i = j)) as [->|Hne].
  - apply untouched_self.
  - by apply untouched_other.
Qed.

Lemma notStaffed_allocateItem i j st :
  untouched j st → statusOf st j = Some (Some NotStaffed) →
  statusOf (allocateItem st i) j = Some (Some NotStaffed).
Proof.
  intros Hu Hs. destruct (decide (i = j)) as [->|Hne].
  - by apply untouched_self.
  - revert Hs.
    apply (allocateItem_inv (fun st => statusOf st j = Some (Some NotStaffed))).
    + intros it _ st' idx m remaining amount H _ _ _.
      by rewrite statusOf_commit.
    + intros st' s H. by rewrite statusOf_setStatus_ne.
Qed.

Lemma fold_allocateItem_untouched order j st :
  untouched j st →
  j ∈ order ∨ statusOf st j = Some (Some NotStaffed) →
  untouched j (fold_left allocateItem order st) ∧
  statusOf (fold_left allocateItem order st) j = Some (Some NotStaffed).
Proof.
  revert st. induction order as [|i order IH]; intros st Hu H; simpl.
  - destruct H as [H|H]; [by apply elem_of_nil in H|done].
  - apply IH; [by apply untouched_allocateItem|].
    destruct H as [H|H].
    + apply elem_of_cons in H as [->|H]; [|by left].
      right. by apply untouched_self.
    + right. by apply notStaffed_allocateItem.
Qed.

Lemma untouched_reset j st it :
  roadmapItems st !! j = Some it →
  RoadmapItem.getRequiredCapacity it == 0 →
  untouched j (reset st).
Proof.
  intros Hit Hreq. exists (withAssignedMembers [] it). simpl.
  rewrite list_lookup_fmap, Hit. by repeat split.
Qed.

(** ** Two runs from states that differ in item statuses only

    [allocateItem] never reads a status and overwrites the status of the item
    it handles, so two states that agree on everything but statuses stay so,
    and agree on the status of every item handled so far. *)

Lemma agree_weaken (D D' : nat → Prop) s s' :
  (∀ j, D' j → D j) → agree D s s' → agree D' s s'.
Proof. intros H (Hm & Ha & Hi & Hs). repeat split; auto. Qed.

Lemma sameButStatus_lookup l l' i :
  sameButStatus l l' →
  withAllocationStatus None <$> l !! i = withAllocationStatus None <$> l' !! i.
Proof. intros H. rewrite <- !list_lookup_fmap. by rewrite H. Qed.

Lemma sameButStatus_alter (f : RoadmapItem.t → RoadmapItem.t) l l' i :
  (∀ x, withAllocationStatus None (f x) = f (withAllocationStatus None x)) →
  sameButStatus l l' → sameButStatus (alter f i l) (alter f i l').
Proof.
  intros Hf H. unfold sameButStatus in *.
  rewrite !(list_fmap_alter (withAllocationStatus None) f f), H; [done|..];
    apply Forall_forall; auto.
Qed.

Lemma commit_agree D idx i m it it' amount s s' :
  withAllocationStatus None it = withAllocationStatus None it' →
  agree D s s' →
  agree D (commit idx i m it amount s) (commit idx i m it' amount s').
Proof.
  intros Hit (Hm & Ha & Hi & Hs).
  assert (Hname : RoadmapItem.name it = RoadmapItem.name it')
    by exact (f_equal RoadmapItem.name Hit).
  assert (Hscore : Allocation.calculateScore m it amount
                   = Allocation.calculateScore m it' amount)
    by exact (f_equal (fun x => Allocation.calculateScore m x amount) Hit).
  repeat split; simpl.
  - by rewrite Hm, Hname.
  - by rewrite Ha, Hscore.
  - by apply sameButStatus_alter.
  - intros j Hj. rewrite !statusOf_commit. by apply Hs.
Qed.

Lemma allocLoop_agree D i it it' potentials :
  withAllocationStatus None it = withAllocationStatus None it' →
  ∀ remaining s s', agree D s s' →
    (allocLoop i it potentials remaining s).1
      = (allocLoop i it' potentials remaining s').1 ∧
    agree D (allocLoop i it potentials remaining s).2
            (allocLoop i it' potentials remaining s').2.
Proof.
  intros Hit. induction potentials as [|p rest IH]; intros remaining s s' H;
    simpl; [done|].
  destruct (Qle_bool remaining 0); [done|].
  destruct H as (Hm & H'). rewrite <- Hm.
  destruct (teamMembers s !! member p) as [m|]; [|by apply IH].
  destruct (Qle_bool _ 0); [by apply IH|].
  destruct (Qltb _ _); [|by apply IH].
  apply IH. by apply commit_agree.
Qed.

Lemma potentialsFrom_agree it it' members n :
  withAllocationStatus None it = withAllocationStatus None it' →
  potentialsFrom n members it = potentialsFrom n members it'.
Proof.
  intros Hit. revert n. induction members as [|m l IH]; intros n; simpl; [done|].
  assert (Hscore : Allocation.calculateScore m it (3 # 10)
                   = Allocation.calculateScore m it' (3 # 10))
    by exact (f_equal (fun x => Allocation.calculateScore m x (3 # 10)) Hit).
  by rewrite IH, Hscore.
Qed.

Lemma setStatus_agree D i x s s' :
  agree D s s' →
  agree (fun j => j = i ∨ D j) (setStatus i x s) (setStatus i x s').
Proof.
  intros (Hm & Ha & Hi & Hs). repeat split; simpl; [done..| |].
  - unfold sameButStatus in *.
    by rewrite !(fmap_alter_absorb (withAllocationStatus None)).
  - intros j [->|Hj].
    + pose proof (sameButStatus_lookup _ _ i Hi) as Hl.
      unfold statusOf. simpl. rewrite !list_lookup_alter_eq.
      destruct (roadmapItems s !! i), (roadmapItems s' !! i); by simplify_eq/=.
    + destruct (decide (i = j)) as [->|Hne].
      * pose proof (sameButStatus_lookup _ _ j Hi) as Hl.
        unfold statusOf. simpl. rewrite !list_lookup_alter_eq.
        destruct (roadmapItems s !! j), (roadmapItems s' !! j);
          by simplify_eq/=.
      * rewrite !statusOf_setStatus_ne by done. by apply Hs.
Qed.

Lemma allocateItem_agree D i s s' :
  agree D s s' →
  agree (fun j => j = i ∨ D j) (allocateItem s i) (allocateItem s' i).
Proof.
  intros H. pose proof H as (Hm & Ha & Hi & Hs).
  pose proof (sameButStatus_lookup _ _ i Hi) as Hl.
  unfold allocateItem.
  destruct (roadmapItems s !! i) as [it|] eqn:E,
           (roadmapItems s' !! i) as [it'|] eqn:E'; simplify_eq/=.
  - assert (Hit : withAllocationStatus None it = withAllocationStatus None it')
      by (unfold withAllocationStatus; congruence).
    assert (Hreq : RoadmapItem.getRequiredCapacity it
                   = RoadmapItem.getRequiredCapacity it')
      by exact (f_equal RoadmapItem.getRequiredCapacity Hit).
    assert (Hpot : findPotentialAllocations s it
                   = findPotentialAllocations s' it').
    { unfold findPotentialAllocations. rewrite <- Hm.
      by apply potentialsFrom_agree. }
    assert (Hst : ∀ q, getItemStatus it q = getItemStatus it' q).
    { intros q. unfold getItemStatus. by rewrite Hreq. }
    rewrite <- Hpot, <- Hreq.
    destruct (allocLoop_agree D i it it'
                (jsSort byScoreDesc (findPotentialAllocations s it)) Hit
                (RoadmapItem.getRequiredCapacity it) s s' H) as [Hr Hag].
    destruct (allocLoop i it _ _ s) as [r1 s1].
    destruct (allocLoop i it' _ _ s') as [r2 s2]. simpl in *. subst r2.
    rewrite <- Hst. by apply setStatus_agree.
  - repeat split; [done..|]. intros j [->|Hj]; [|by apply Hs].
    unfold statusOf. by rewrite E, E'.
Qed.

Lemma fold_allocateItem_agree D order s s' :
  agree D s s' →
  agree (fun j => j ∈ order ∨ D j)
        (fold_left allocateItem order s) (fold_left allocateItem order s').
Proof.
  revert D s s'. induction order as [|i order IH]; intros D s s' H; simpl.
  - eapply agree_weaken; [|exact H]. intros j [Hj|Hj]; [|done].
    by apply elem_of_nil in Hj.
  - eapply agree_weaken; [|apply IH, allocateItem_agree, H].
    intros j [Hj|Hj]; [|by right; right].
    apply elem_of_cons in Hj as [->|Hj]; [right; by left|by left].
Qed.

Lemma item_eta (it it' : RoadmapItem.t) :
  withAllocationStatus None it = withAllocationStatus None it' →
  RoadmapItem.allocationStatus it = RoadmapItem.allocationStatus it' →
  it = it'.
Proof.
  destruct it, it'. unfold withAllocationStatus. simpl. congruence.
Qed.

Lemma agree_eq (D : nat → Prop) s s' :
  (∀ j, is_Some (roadmapItems s !! j) → D j) → agree D s s' → s = s'.
Proof.
  intros HD (Hm & Ha & Hi & Hs).
  destruct s as [M I A], s' as [M' I' A']. simpl in *. subst M' A'.
  f_equal. apply list_eq. intros j.
  pose proof (sameButStatus_lookup _ _ j Hi) as Hl.
  destruct (I !! j) as [it|] eqn:E, (I' !! j) as [it'|] eqn:E';
    simpl in Hl; try done.
  f_equal. apply item_eta; [congruence|].
  assert (HDj : D j) by (apply HD; by eexists).
  specialize (Hs j HDj). unfold statusOf in Hs. simpl in Hs.
  rewrite E, E' in Hs. simpl in Hs. congruence.
Qed.

Lemma reset_agree st :
  agree (fun _ => False) (reset (allocateAll st)) (reset st).
Proof.
  destruct (sameStatics_allocateAll st) as [Hm Hi].
  repeat split; simpl; [done| |done].
  unfold sameButStatus. rewrite <- !list_fmap_compose. exact Hi.
Qed.

Lemma priorityAt_erase l i :
  priorityAt (withAllocationStatus None <$> l) i = priorityAt l i.
Proof.
  unfold priorityAt. rewrite list_lookup_fmap. by destruct (l !! i).
Qed.

Lemma sortedItems_agree D s s' : agree D s s' → sortedItems s = sortedItems s'.
Proof.
  intros (_ & _ & Hi & _). unfold sortedItems.
  assert (Hlen : length (roadmapItems s) = length (roadmapItems s')).
  { apply (f_equal length) in Hi. by rewrite !length_fmap in Hi. }
  rewrite Hlen. apply jsSort_ext. intros a b. unfold byPriorityDesc.
  rewrite <- !(priorityAt_erase (roadmapItems s)).
  rewrite <- !(priorityAt_erase (roadmapItems s')).
  unfold sameButStatus in Hi. by rewrite Hi.
Qed.

(** A second run ends in the state the first run ended in. *)
Lemma allocateAll_again st : allocateAll (allocateAll st) = allocateAll st.
Proof.
  pose proof (reset_agree st) as H.
  unfold allocateAll at 1 3. rewrite (sortedItems_agree _ _ _ H).
  eapply agree_eq; [|by apply fold_allocateItem_agree].
  intros j Hj. left. apply sortedItems_complete.
  apply lookup_lt_is_Some in Hj. rewrite fold_allocateItem_length in Hj.
  apply lookup_lt_is_Some.
  destruct H as (_ & _ & Hi & _). apply (f_equal length) in Hi.
  rewrite !length_fmap in Hi. lia.
Qed.

Lemma div_nonzero (a b : Q) : ¬ b == 0 → Num.div a b = Fin (a / b).
Proof.
  intros H. unfold Num.div. destruct (Qeq_bool b 0) eqn:E; [|done].
  by apply Qeq_bool_iff in E.
Qed.

(** ** The bookkeeping of the binary64 engine *)

Section Binary64Bookkeeping.
Import Binary64 Binary64.AllocationOptimizer Binary64Ledger.

Lemma filter_split_lt {A : Type} (key : A → nat) (l : list A) (n : nat) :
  filter (fun a => (key a < n)%nat) l ++ filter (fun a => key a = n) l
    ≡ₚ filter (fun a => (key a < S n)%nat) l.
Proof.
  induction l as [|a l IH]; [done|].
  rewrite !filter_cons.
  destruct (decide (key a < n)%nat), (decide (key a = n)), (decide (key a < S n)%nat);
    try lia; simpl.
  - by rewrite IH.
  - by rewrite <- Permutation_middle, IH.
  - done.
Qed.

Lemma concat_by_key_lt {A : Type} (key : A → nat) (l : list A) (n : nat) :
  concat ((fun k => filter (fun a => key a = k) l) <$> seq 0 n)
    ≡ₚ filter (fun a => (key a < n)%nat) l.
Proof.
  induction n as [|n IH].
  - simpl. induction l as [|a l IHl]; [done|].
    rewrite filter_cons. destruct (decide (key a < 0)%nat); [lia|done].
  - rewrite seq_S, fmap_app, concat_app, IH. simpl. rewrite app_nil_r.
    apply filter_split_lt.
Qed.

Lemma concat_by_key {A : Type} (key : A → nat) (l : list A) (n : nat) :
  Forall (fun a => (key a < n)%nat) l →
  concat ((fun k => filter (fun a => key a = k) l) <$> seq 0 n) ≡ₚ l.
Proof.
  intros H. rewrite concat_by_key_lt.
  induction H as [|a l Ha _ IH]; [done|].
  rewrite filter_cons. destruct (decide (key a < n)%nat); [|lia]. by rewrite IH.
Qed.

Lemma float_sumOf_snoc {A : Type} (f : A → PrimFloat.float) (l : list A) (x : A) :
  sumOf f (l ++ [x]) = PrimFloat.add (sumOf f l) (f x).
Proof. unfold sumOf. by rewrite fold_left_app. Qed.

Lemma float_sumOf_fmap {A B : Type} (f : A → PrimFloat.float)
    (g : B → PrimFloat.float) (l : list A) (l' : list B) :
  f <$> l = g <$> l' → sumOf f l = sumOf g l'.
Proof.
  unfold sumOf. generalize 0%float.
  revert l'. induction l as [|a l IH]; intros [|b l'] acc E; try done.
  simpl in *. injection E as E1 E2. rewrite E1. by apply IH.
Qed.

Lemma balanced_reset (st : t) : balanced (reset st).
Proof.
  split; simpl.
  - intros k m. rewrite list_lookup_fmap.
    destruct (teamMembers st !! k); [|done]. by intros [= <-].
  - intros j it. rewrite list_lookup_fmap.
    destruct (roadmapItems st !! j); [|done]. by intros [= <-].
  - constructor.
Qed.

Lemma balanced_commit (st : t) (k j : nat) (m : TeamMember.t)
    (it : RoadmapItem.t) (amount : PrimFloat.float) :
  balanced st →
  teamMembers st !! k = Some m →
  (j < length (roadmapItems st))%nat →
  balanced (commit k j m it amount st).
Proof.
  intros [Hm Hi Hr] Hk Hj. split; simpl.
  - intros k' m'. unfold ofMember. rewrite filter_app, filter_cons, filter_nil.
    simpl. destruct (decide (k = k')) as [<-|Hne].
    + rewrite list_lookup_alter_eq, Hk. intros [= <-]. simpl.
      destruct (Hm k m Hk) as [E1 E2].
      rewrite float_sumOf_snoc, !fmap_app, E1, E2. done.
    + rewrite list_lookup_alter_ne by done. rewrite app_nil_r. apply Hm.
  - intros j' it'. unfold ofItem. rewrite filter_app, filter_cons, filter_nil.
    simpl. destruct (decide (j = j')) as [<-|Hne].
    + rewrite list_lookup_alter_eq.
      destruct (roadmapItems st !! j) as [x|] eqn:Ex; [|done].
      intros [= <-]. simpl. rewrite !fmap_app, (Hi j x Ex). done.
    + rewrite list_lookup_alter_ne by done. rewrite app_nil_r. apply Hi.
  - rewrite !length_alter. apply Forall_app. split; [done|].
    constructor; [|done]. simpl. split; [|done].
    by apply lookup_lt_Some in Hk.
Qed.

Lemma balanced_setStatus (st : t) (j : nat) (s : Status) :
  balanced st → balanced (setStatus j s st).
Proof.
  intros [Hm Hi Hr]. split; simpl; [done| |by rewrite length_alter].
  intros j' it'. destruct (decide (j = j')) as [<-|Hne].
  - rewrite list_lookup_alter_eq.
    destruct (roadmapItems st !! j) as [x|] eqn:Ex; [|done].
    intros [= <-]. simpl. by apply Hi.
  - rewrite list_lookup_alter_ne by done. apply Hi.
Qed.

Lemma commit_keeps_items (st : t) (k j : nat) (m : TeamMember.t)
    (it : RoadmapItem.t) (amount : PrimFloat.float) :
  length (roadmapItems (commit k j m it amount st)) = length (roadmapItems st).
Proof. simpl. by rewrite length_alter. Qed.

Lemma balanced_allocLoop (j : nat) (it : RoadmapItem.t)
    (potentials : list Potential) (remaining : PrimFloat.float) (st : t) :
  balanced st →
  (j < length (roadmapItems st))%nat →
  balanced (allocLoop j it potentials remaining st).2.
Proof.
  revert remaining st.
  induction potentials as [|p rest IH]; intros remaining st Hc Hj; [done|].
  simpl. destruct (PrimFloat.leb remaining 0); [done|].
  destruct (teamMembers st !! member p) as [m|] eqn:Em; [|by apply IH].
  destruct (PrimFloat.leb (TeamMember.getAvailableCapacity m) 0);
    [by apply IH|].
  destruct (PrimFloat.ltb _ _); [|by apply IH].
  apply IH; [by apply balanced_commit|by rewrite commit_keeps_items].
Qed.

Lemma balanced_allocateItem (st : t) (j : nat) :
  balanced st → balanced (allocateItem st j).
Proof.
  intros Hc. unfold allocateItem.
  destruct (roadmapItems st !! j) as [it|] eqn:Ej; [|done].
  pose proof (balanced_allocLoop j it
    (jsSort byScoreDesc (findPotentialAllocations st it))
    (RoadmapItem.getRequiredCapacity it) st Hc
    (lookup_lt_Some _ _ _ Ej)) as H.
  destruct (allocLoop _ _ _ _ _) as [remaining st']. simpl in H.
  by apply balanced_setStatus.
Qed.

Lemma balanced_allocateAll (st : t) : balanced (allocateAll st).
Proof.
  unfold allocateAll. generalize (sortedItems (reset st)).
  intros order. generalize (balanced_reset st). generalize (reset st).
  induction order as [|j order IH]; intros st0 Hc; [done|].
  simpl. apply IH. by apply balanced_allocateItem.
Qed.
End Binary64Bookkeeping.

(** * The claims *)

(** ** C1: the utilization rate *)

(** C1, counterexample.  With an empty member list the report's
    [utilizationRate] is [NaN], not [0]; and with Fay (capacity 0.75) alone
    on the frontend redesign 0.5 is allocated, the quotient times 100 is
    200/3 and the report says 67. *)
Lemma utilizationRate_counterexample :
  Report.utilizationRate (Report.summary (optimize noMembers).2) = NaN ∧
  NaN ≠ Fin 0 ∧
  (∃ q, Num.scale
          (Num.div
             (sumOf TeamMember.allocatedCapacity (teamMembers (optimize fayAlone).1))
             (sumOf TeamMember.capacity (teamMembers (optimize fayAlone).1)))
          100 = Fin q ∧ q == 200 # 3) ∧
  Report.utilizationRate (Report.summary (optimize fayAlone).2) = Fin 67.
Proof.
  split; [by vm_compute|]. split; [done|]. split; [|by vm_compute].
  eexists. split; [by vm_compute|]. by vm_compute.
Qed.

(** C1, as amended.  The report's [utilizationRate] is [Math.round] of
    [totalAllocatedCapacity / totalTeamCapacity * 100], taken on the sums
    before they are rounded for the summary; the division has no guard, and
    when every member has capacity 0 (an empty member list included) the rate
    is [NaN]. *)
Theorem utilizationRate_rounded_unguarded (st : t) :
  Report.utilizationRate (Report.summary (optimize st).2)
    = Num.round
        (Num.scale
           (Num.div
              (sumOf TeamMember.allocatedCapacity (Report.teamMembers (optimize st).2))
              (sumOf TeamMember.capacity (Report.teamMembers (optimize st).2)))
           100) ∧
  (Forall (fun m => TeamMember.capacity m == 0) (teamMembers st) →
   Report.utilizationRate (Report.summary (optimize st).2) = NaN).
Proof.
  split; [reflexivity|]. intros Hzero. simpl.
  pose proof (members_statics st) as Hst.
  pose proof (membersWithin_allocateAll st) as Hw.
  rewrite div_zero_zero; [done| |].
  - apply sumOf_zero. apply Forall_lookup. intros i m' Hm'.
    destruct (Forall2_lookup_r _ _ _ _ _ Hst Hm') as (m & Hm & Heq).
    pose proof (Forall_lookup_1 _ _ _ _ Hzero Hm) as Hc.
    pose proof (Forall_lookup_1 _ _ _ _ Hw Hm') as [H0 H1].
    assert (Hcap : TeamMember.capacity m' = TeamMember.capacity m)
      by exact (f_equal TeamMember.capacity Heq).
    simpl in Hc. rewrite Hcap in H1. revert H1. qminmax; intros; lra.
  - apply sumOf_zero. apply Forall_lookup. intros i m' Hm'.
    destruct (Forall2_lookup_r _ _ _ _ _ Hst Hm') as (m & Hm & Heq).
    pose proof (Forall_lookup_1 _ _ _ _ Hzero Hm) as Hc.
    assert (Hcap : TeamMember.capacity m' = TeamMember.capacity m)
      by exact (f_equal TeamMember.capacity Heq).
    by rewrite Hcap.
Qed.

Lemma utilizationRate_rounded_unguarded_witness :
  Forall (fun m => TeamMember.capacity m == 0) (teamMembers noMembers) ∧
  Report.utilizationRate (Report.summary (optimize noMembers).2) = NaN.
Proof.
  split.
  - apply Forall_nil_2.
  - apply (proj2 (utilizationRate_rounded_unguarded noMembers)).
    apply Forall_nil_2.
Defined.

(** ** C2: an item that requires no capacity *)

(** C2, counterexample.  The item of size 0 requires no capacity, gets no
    allocation, and ends not-staffed rather than fully-staffed. *)
Lemma zero_required_counterexample :
  RoadmapItem.getRequiredCapacity sizeZero == 0 ∧
  roadmapItems withSizeZero !! 1%nat = Some sizeZero ∧
  statusOf (optimize withSizeZero).1 1 = Some (Some NotStaffed) ∧
  statusOf (optimize withSizeZero).1 1 ≠ Some (Some FullyStaffed).
Proof. by vm_compute. Qed.

(** C2, as amended.  An item whose [getRequiredCapacity()] is 0 receives no
    committed allocation, and its [allocationStatus] after [optimize] is
    'not-staffed': the ratio [0 / 0] is [NaN] and passes no threshold. *)
Theorem zero_required_not_staffed (st : t) (j : nat) (it : RoadmapItem.t) :
  roadmapItems st !! j = Some it →
  RoadmapItem.getRequiredCapacity it == 0 →
  ∃ it', roadmapItems (optimize st).1 !! j = Some it' ∧
         RoadmapItem.assignedMembers it' = [] ∧
         RoadmapItem.allocationStatus it' = Some NotStaffed ∧
         Forall (fun a => Allocation.item a ≠ j) (allocations (optimize st).1).
Proof.
  intros Hit Hreq. simpl. unfold allocateAll.
  destruct (fold_allocateItem_untouched (sortedItems (reset st)) j (reset st))
    as [(it' & Hit' & _ & Has & Hal) Hs].
  - by eapply untouched_reset.
  - left. apply sortedItems_complete. simpl.
    rewrite list_lookup_fmap, Hit. by eexists.
  - exists it'. repeat split; [done..| |done].
    unfold statusOf in Hs. rewrite Hit' in Hs. simpl in Hs. congruence.
Qed.

Lemma zero_required_not_staffed_witness :
  ∃ it', roadmapItems (optimize withSizeZero).1 !! 1%nat = Some it' ∧
         RoadmapItem.assignedMembers it' = [] ∧
         RoadmapItem.allocationStatus it' = Some NotStaffed ∧
         Forall (fun a => Allocation.item a ≠ 1%nat)
                (allocations (optimize withSizeZero).1).
Proof.
  apply (zero_required_not_staffed withSizeZero 1 sizeZero).
  - reflexivity.
  - reflexivity.
Defined.

(** ** C3: the cap on a single allocation *)

(** C3, counterexample.  Dana has capacity 0.4 and is committed for 0.4 on
    one item, which is more than half of that capacity. *)
Lemma half_capacity_counterexample :
  ∃ a m, allocations (optimize partTime).1 = [a] ∧
         teamMembers (optimize partTime).1 !! Allocation.member a = Some m ∧
         TeamMember.capacity m == 2 # 5 ∧
         Allocation.allocation a == 2 # 5 ∧
         ¬ Allocation.allocation a <= (1 # 2) * TeamMember.capacity m.
Proof.
  eexists _, _. split; [by vm_compute|]. split; [by vm_compute|].
  by vm_compute.
Qed.

(** C3, as amended.  A committed allocation never exceeds 0.5 capacity
    units, whatever the capacity of its member, and never exceeds the
    member's total capacity. *)
Theorem allocation_at_most_half_unit (st : t) :
  Forall (fun a =>
            ∃ m, teamMembers (optimize st).1 !! Allocation.member a = Some m ∧
                 Allocation.allocation a <= 1 # 2 ∧
                 Allocation.allocation a <= TeamMember.capacity m)
         (allocations (optimize st).1).
Proof.
  destruct (allocationsOk_allocateAll st) as [Hw Ha]. simpl.
  eapply Forall_impl; [exact Ha|].
  intros a (Hlo & Hhi & m & Hm & Hle). exists m. repeat split; [done..|].
  pose proof (Forall_lookup_1 _ _ _ _ Hw Hm) as [H0 H1].
  revert H1. qminmax; intros; lra.
Qed.

(** ** C4: the capacity invariant *)

Section CapacityInBinary64.
Import PrimFloat Binary64 Binary64.AllocationOptimizer Binary64Examples.
#[local] Set Warnings "-inexact-float".
Local Open Scope float_scope.

(** C4.  The invariant [0 <= allocatedCapacity <= capacity] does not survive
    the additions of [optimize] in binary64.  On [overrun] no capacity is
    negative and both capacities are kept, yet Ben, whose capacity is 0.44,
    ends with [allocatedCapacity] 0.44000000000000006: the two amounts
    committed to him, 0.11000000000000007 on Search and 0.32999999999999996
    on Billing, were each cut to what he had left, and their sum rounds to
    the next float above 0.44. *)
Theorem allocated_capacity_exceeds_capacity :
  let st := (optimize overrun).1 in
  Forall (fun m => (0 <=? TeamMember.capacity m) = true)
         (teamMembers overrun) ∧
  TeamMember.capacity <$> teamMembers st = [0.21; 0.44] ∧
  (fun m => TeamMember.allocation <$> default [] (TeamMember.assignments m))
    <$> teamMembers st
    = [[0.21]; [0.11000000000000007; 0.32999999999999996]] ∧
  TeamMember.allocatedCapacity <$> teamMembers st
    = [0.21; 0.44000000000000006] ∧
  (fun m => TeamMember.allocatedCapacity m <=? TeamMember.capacity m)
    <$> teamMembers st = [true; false].
Proof. vm_compute. split; [by repeat constructor|done]. Qed.

End CapacityInBinary64.

(** ** C5: running twice *)

(** C5.  A second [optimize] on the same optimizer, whose members and items
    carry the results of the first run, returns the report of the first
    run. *)
Theorem optimize_twice_same_report (st : t) :
  (optimize (optimize st).1).2 = (optimize st).2.
Proof.
  unfold optimize. simpl. by rewrite allocateAll_again.
Qed.

(** ** C6: members without capacity *)

Lemma isUnderUtilized_zero m :
  TeamMember.capacity m == 0 → TeamMember.allocatedCapacity m == 0 →
  isUnderUtilized m = false ∧ isOverUtilized m = false.
Proof.
  intros Hc Ha. unfold isUnderUtilized, isOverUtilized.
  by rewrite div_zero_zero.
Qed.

(** C6.  A member with capacity 0 is in neither [underUtilized] nor
    [overUtilized]. *)
Theorem zero_capacity_member_excluded (st : t) (m : TeamMember.t) :
  m ∈ Report.teamMembers (optimize st).2 →
  TeamMember.capacity m == 0 →
  ¬ m ∈ Report.underUtilized (optimize st).2 ∧
  ¬ m ∈ Report.overUtilized (optimize st).2.
Proof.
  intros Hin Hcap. simpl in *.
  pose proof (membersWithin_allocateAll st) as Hw.
  apply Forall_forall with (x := m) in Hw; [|done].
  destruct Hw as [H0 H1].
  assert (Ha : TeamMember.allocatedCapacity m == 0).
  { revert H1. qminmax; intros; lra. }
  destruct (isUnderUtilized_zero m Hcap Ha) as [Hu Ho].
  split; intros H; apply list_elem_of_In, filter_In in H as [_ H]; congruence.
Qed.

Lemma zero_capacity_member_excluded_witness :
  ∃ m, teamMembers (optimize withZeroCap).1 !! 0%nat = Some m ∧
       TeamMember.capacity m == 0 ∧
       ¬ m ∈ Report.underUtilized (optimize withZeroCap).2 ∧
       ¬ m ∈ Report.overUtilized (optimize withZeroCap).2.
Proof.
  eexists. split; [reflexivity|]. split; [reflexivity|].
  apply (zero_capacity_member_excluded withZeroCap).
  - apply list_elem_of_here.
  - reflexivity.
Defined.

(** ** C7: the level penalty *)

Section LevelInBinary64.
Import PrimFloat Binary64 Binary64Examples.
#[local] Set Warnings "-inexact-float".
Local Open Scope float_scope.

(** C7.  The penalty does not separate the under-leveled developer from
    every appropriately-leveled one.  For the item [reactProject], whose
    [minLevel] Mid weighs 1.0, and developers that differ in their level
    only: a level the table does not know, such as Unknown Level, weighs
    the default 1.0 and scores 91, and Junior weighs 0.7 and scores 61; the
    level constructor is not in the table either, but the lookup finds the
    inherited function [Object] for it, no comparison of that value with
    a number is true, and the developer is scored 61 like the junior one. *)
Theorem inherited_level_counts_as_under_leveled :
  let score level := Allocation.calculateScore (dev level) reactProject 0.4 in
  levelWeightOr1 (toLowerCase (RoadmapItem.minLevel reactProject))
    = Weight 1.0 ∧
  TeamMember.getLevelWeight (dev "Unknown Level") = Weight 1.0 ∧
  TeamMember.getLevelWeight (dev "Junior") = Weight 0.7 ∧
  TeamMember.getLevelWeight (dev "constructor") = ObjectFunction ∧
  score "Unknown Level" = 91 ∧
  score "Junior" = 61 ∧
  score "constructor" = 61 ∧
  (score "Junior" <? score "constructor") = false.
Proof. vm_compute. done. Qed.

End LevelInBinary64.

(** ** C8: the status buckets *)

(** C8.  After [optimize] every roadmap item carries one of the four status
    labels, every bucket of [itemsByStatus] holds items of its own label, and
    the sizes of the four buckets add up to the number of roadmap items. *)
Theorem status_buckets_partition (st : t) :
  let report := (optimize st).2 in
  let buckets := Report.itemsByStatus report in
  let labelled s :=
    Forall (fun e => RoadmapItem.allocationStatus (Report.base e) = Some s) in
  Forall (fun it => is_Some (RoadmapItem.allocationStatus it))
         (Report.roadmapItems report) ∧
  length (Report.roadmapItems report) = length (roadmapItems st) ∧
  labelled FullyStaffed (Report.fullyStaffed buckets) ∧
  labelled AdequatelyStaffed (Report.adequatelyStaffed buckets) ∧
  labelled UnderStaffed (Report.underStaffed buckets) ∧
  labelled NotStaffed (Report.notStaffed buckets) ∧
  (length (Report.fullyStaffed buckets) +
   length (Report.adequatelyStaffed buckets) +
   length (Report.underStaffed buckets) +
   length (Report.notStaffed buckets))%nat
  = length (roadmapItems st).
Proof.
  pose proof (allocateAll_status st) as Hs.
  assert (Hlen : length (roadmapItems (allocateAll st))
                 = length (roadmapItems st)).
  { unfold allocateAll. rewrite fold_allocateItem_length. simpl.
    by rewrite length_fmap. }
  simpl. split; [done|]. split; [done|].
  repeat (split; [apply itemsWithStatus_status|]).
  rewrite !length_map. unfold itemsWithStatus.
  by rewrite status_partition.
Qed.

(** ** C9: the minimum increment *)

(** C9.  Every allocation committed by [optimize] has an amount strictly
    greater than 0.1: in the optimizer's allocation list, in the rows of the
    report, in every [member.assignments] and in every
    [item.assignedMembers]. *)
Theorem allocation_above_minimum (st : t) :
  Forall (fun a => (1 # 10) < Allocation.allocation a)
         (allocations (optimize st).1) ∧
  Forall (fun row => (1 # 10) < Report.allocation row)
         (Report.allocations (optimize st).2) ∧
  Forall (fun m =>
            Forall (fun r => (1 # 10) < TeamMember.allocation r)
                   (default [] (TeamMember.assignments m)))
         (Report.teamMembers (optimize st).2) ∧
  Forall (fun it =>
            Forall (fun r => (1 # 10) < RoadmapItem.allocation r)
                   (RoadmapItem.assignedMembers it))
         (Report.roadmapItems (optimize st).2).
Proof.
  destruct (allocationsOk_allocateAll st) as [_ Ha].
  destruct (recordsOk_allocateAll st) as [Hm Hi]. simpl.
  assert (H : Forall (fun a => (1 # 10) < Allocation.allocation a)
                     (allocations (allocateAll st))).
  { eapply Forall_impl; [exact Ha|]. by intros a (Hlo & _). }
  split; [done|]. split; [|done].
  apply Forall_forall. intros row Hrow.
  apply list_elem_of_In, in_map_iff in Hrow as (a & <- & Hin).
  apply list_elem_of_In in Hin.
  by apply (proj1 (Forall_forall _ _) H a).
Qed.

(** ** C10: conservation *)

Section ConservationInBinary64.
Import PrimFloat Binary64 Binary64.AllocationOptimizer Binary64Ledger
  Binary64Examples.
#[local] Set Warnings "-inexact-float".
Local Open Scope float_scope.

(** C10, as claimed, fails on [uneven]: the members' [allocatedCapacity]
    add up to 1.526, the amounts of the allocation list to
    1.5260000000000002 and the items' [getTotalAllocation()] to
    1.5259999999999998, and the summary's [totalAllocatedCapacity] is
    1.53. *)
Lemma grand_totals_differ :
  let st := (optimize uneven).1 in
  let report := (optimize uneven).2 in
  let ofMembers := sumOf TeamMember.allocatedCapacity (teamMembers st) in
  let ofAllocations := sumOf Allocation.allocation (allocations st) in
  let ofItems := sumOf RoadmapItem.getTotalAllocation (roadmapItems st) in
  ofMembers = 1.526 ∧
  ofAllocations = 1.5260000000000002 ∧
  ofItems = 1.5259999999999998 ∧
  totalAllocatedCapacity report = 1.53 ∧
  (ofMembers =? ofAllocations) = false ∧
  (ofAllocations =? ofItems) = false ∧
  (totalAllocatedCapacity report =? ofAllocations) = false.
Proof. vm_compute. done. Qed.

(** C10, amended.  After [optimize] the bookkeeping is conserved record by
    record: a member's [allocatedCapacity] is the sum, in commit order, of
    the amounts of the allocations that name the member, and an item's
    [getTotalAllocation()] the sum, in commit order, of the amounts of the
    allocations that name the item; every allocation names one member and
    one item of the input, so that the allocations of all members, and those
    of all items, are the allocation list rearranged; and the summary's
    [totalAllocatedCapacity] is the sum of the members' [allocatedCapacity]
    rounded to two decimals. *)
Theorem allocation_conserved_per_record (st : t) :
  let st' := (optimize st).1 in
  let report := (optimize st).2 in
  let committed := allocations st' in
  (∀ k m, teamMembers st' !! k = Some m →
     TeamMember.allocatedCapacity m
       = sumOf Allocation.allocation (ofMember k committed)) ∧
  (∀ j it, roadmapItems st' !! j = Some it →
     RoadmapItem.getTotalAllocation it
       = sumOf Allocation.allocation (ofItem j committed)) ∧
  concat ((fun k => ofMember k committed)
            <$> seq 0 (length (teamMembers st'))) ≡ₚ committed ∧
  concat ((fun j => ofItem j committed)
            <$> seq 0 (length (roadmapItems st'))) ≡ₚ committed ∧
  totalAllocatedCapacity report
    = Math_round (sumOf TeamMember.allocatedCapacity (teamMembers st') * 100)
      / 100.
Proof.
  simpl. destruct (balanced_allocateAll st) as [Hm Hi Hr].
  split_and!.
  - intros k m Hk. by destruct (Hm k m Hk).
  - intros j it Hj. apply (float_sumOf_fmap RoadmapItem.allocation).
    by apply Hi.
  - apply (concat_by_key Allocation.member).
    eapply Forall_impl; [exact Hr|]. by intros a [? _].
  - apply (concat_by_key Allocation.item).
    eapply Forall_impl; [exact Hr|]. by intros a [_ ?].
  - done.
Qed.

End ConservationInBinary64.

(** * Further properties of models.js *)

(** ** Strings *)

Lemma lowerAscii_idem c : lowerAscii (lowerAscii c) = lowerAscii c.
Proof. by destruct c as [[] [] [] [] [] [] [] []]. Qed.

Lemma toLowerCase_idem s : toLowerCase (toLowerCase s) = toLowerCase s.
Proof.
  induction s as [|c s IH]; simpl; [done|]. by rewrite lowerAscii_idem, IH.
Qed.

Lemma prefix_occurs sub s :
  String.prefix sub s = true ↔ ∃ post, s = (sub ++ post)%string.
Proof.
  revert s. induction sub as [|c sub IH]; intros s; simpl.
  - split; [intros _; by exists s|by destruct s].
  - destruct s as [|d s]; [split; [done|intros [post H]; discriminate H]|].
    simpl. case_match; [subst d|].
    + rewrite IH. split; intros [post Hp]; exists post.
      * by rewrite Hp.
      * by injection Hp.
    + split; [done|]. intros [post Hp]. injection Hp as Hc _. congruence.
Qed.

Lemma includes_nil sub : includes "" sub = String.prefix sub "".
Proof. apply orb_false_r. Qed.

Lemma includes_cons c s sub :
  includes (String c s) sub = String.prefix sub (String c s) || includes s sub.
Proof. reflexivity. Qed.

Lemma includes_occursIn s sub : includes s sub = true ↔ occursIn sub s.
Proof.
  induction s as [|c s IH]; [rewrite includes_nil|rewrite includes_cons].
  - rewrite prefix_occurs. split.
    + intros [post H]. by exists ""%string, post.
    + intros (pre & post & H). destruct pre; [by exists post|done].
  - rewrite orb_true_iff, prefix_occurs, IH. split.
    + intros [[post H]|(pre & post & H)].
      * by exists ""%string, post.
      * exists (String c pre), post. simpl. by rewrite H.
    + intros (pre & post & H). destruct pre as [|d pre]; simpl in H.
      * left. by exists post.
      * right. exists pre, post. by injection H.
Qed.

Lemma fuzzyMatch_overlaps own asked :
  fuzzyMatch own asked = true ↔ overlaps own asked.
Proof.
  unfold fuzzyMatch, overlaps. by rewrite orb_true_iff, !includes_occursIn.
Qed.

Lemma existsb_fuzzy (l : list string) asked :
  existsb (fun own => fuzzyMatch own asked) l = true
  ↔ ∃ own, own ∈ l ∧ overlaps own asked.
Proof.
  rewrite existsb_exists. split; intros (own & Hin & H); exists own.
  - split; [by apply list_elem_of_In|by apply fuzzyMatch_overlaps].
  - split; [by apply list_elem_of_In|by apply fuzzyMatch_overlaps].
Qed.

Lemma occursIn_refl s : occursIn s s.
Proof.
  exists ""%string, ""%string.
  induction s as [|c s IH]; [done|].
  change (String c s = String c ("" +:+ s +:+ "")). by f_equal.
Qed.

Lemma occursIn_empty s : occursIn "" s.
Proof. by exists ""%string, s. Qed.

(** X2.  The match ignores letter case and needs no exact hit: a skill the
    member lists is found under any spelling with the same lowercase form,
    and the empty query is found as soon as the member lists one skill.
    A member without skills matches nothing. *)
Theorem hasSkill_edges (m : TeamMember.t) :
  (∀ own asked, own ∈ TeamMember.skills m →
                toLowerCase asked = toLowerCase own →
                TeamMember.hasSkill m asked = true) ∧
  (TeamMember.hasSkill m "" = true ↔ TeamMember.skills m ≠ []) ∧
  (TeamMember.skills m = [] → ∀ asked, TeamMember.hasSkill m asked = false).
Proof.
  split; [|split].
  - intros own asked Hin Heq. apply existsb_fuzzy. exists own. split; [done|].
    left. rewrite Heq. apply occursIn_refl.
  - unfold TeamMember.hasSkill. rewrite existsb_fuzzy. split.
    + intros (own & Hin & _) Hnil. rewrite Hnil in Hin.
      by apply elem_of_nil in Hin.
    + intros Hne. destruct (TeamMember.skills m) as [|own l]; [done|].
      exists own. split; [by left|]. left. apply occursIn_empty.
  - intros Hnil asked. unfold TeamMember.hasSkill. by rewrite Hnil.
Qed.

(** ** Derived values *)

(** X3.  [getLevelWeight] returns a number between 0.5 and 1.8 (one of the
    seven weights of the table, or the default 1.0) for every level except
    two: for a level that reads [constructor] or [__proto__] once lowercased
    it returns no number but an object inherited by the table, the function
    [Object] or [Object.prototype]. *)
Theorem getLevelWeight_range (m : TeamMember.t) :
  let key := toLowerCase (TeamMember.level m) in
  (key = "constructor"%string →
   TeamMember.getLevelWeight m = ObjectFunction) ∧
  (key = "__proto__"%string →
   TeamMember.getLevelWeight m = ObjectPrototype) ∧
  (key ≠ "constructor"%string → key ≠ "__proto__"%string →
   ∃ w, TeamMember.getLevelWeight m = Weight w ∧ (1 # 2) <= w ∧ w <= 9 # 5).
Proof.
  intros key. unfold TeamMember.getLevelWeight. fold key.
  split_and!.
  - by intros ->.
  - by intros ->.
  - intros Hc Hp. apply String.eqb_neq in Hc, Hp.
    unfold levelWeightOr1, levelWeights. rewrite Hc, Hp.
    repeat (case_match; simplify_eq; simpl in *);
      by eexists; split; [reflexivity | by vm_compute].
Qed.

(** X4.  For a size and a complexity on their 1-5 scales, the priority set
    by the constructor is between 1 and 5, and the required capacity of an
    item without effort breakdown is between 0.08 and 2.0 capacity units. *)
Theorem heuristic_ranges (name description : string) (size complexity : Q)
    (requiredSkills : list string) (domain minLevel : string)
    (careerOpportunities : list string) :
  onScale size → onScale complexity →
  let it := RoadmapItem.new name description size complexity requiredSkills
                            domain minLevel careerOpportunities in
  1 <= RoadmapItem.priority it ∧ RoadmapItem.priority it <= 5 ∧
  (2 # 25) <= RoadmapItem.getRequiredCapacity it ∧
  RoadmapItem.getRequiredCapacity it <= 2.
Proof.
  intros [Hs1 Hs2] [Hc1 Hc2]. simpl.
  unfold RoadmapItem.getRequiredCapacity, RoadmapItem.calculatePriority. simpl.
  assert (E : size / 5 * (complexity / 5) * 2 == size * complexity * (2 # 25))
    by field.
  rewrite E. repeat split; try lra.
  - assert (H : 1 <= size * complexity) by nra. lra.
  - assert (H : size * complexity <= 25) by nra. lra.
Qed.

Lemma heuristic_ranges_witness :
  onScale 4 ∧ onScale 3 ∧
  1 <= RoadmapItem.priority Fixture.frontendRedesign ∧
  RoadmapItem.priority Fixture.frontendRedesign <= 5 ∧
  (2 # 25) <= RoadmapItem.getRequiredCapacity Fixture.frontendRedesign ∧
  RoadmapItem.getRequiredCapacity Fixture.frontendRedesign <= 2.
Proof.
  assert (H4 : onScale 4) by (split; by vm_compute).
  assert (H3 : onScale 3) by (split; by vm_compute).
  split; [exact H4|]. split; [exact H3|].
  exact (heuristic_ranges "Frontend Redesign" "Redesign the main UI" 4 3
           ["React"; "CSS"] "Frontend" "Mid" ["Leadership"] H4 H3).
Defined.



(** ** The platform bonus and the score *)

Lemma Qdiv_nonneg (a t : Q) : 0 <= a → 0 < t → 0 <= a / t.
Proof. intros Ha Ht. apply Qle_shift_div_l; [done|]. lra. Qed.

Lemma wellFormedEffort_zero e :
  wellFormedEffort e → ¬ 0 < RoadmapItem.total e →
  Qltb 0 (RoadmapItem.ios e) = false ∧ Qltb 0 (RoadmapItem.android e) = false ∧
  Qltb 0 (RoadmapItem.web e) = false ∧ Qltb 0 (RoadmapItem.backend e) = false ∧
  Qltb 0 (RoadmapItem.total e) = false.
Proof.
  intros (Hi & Ha & Hw & Hb & Ht) Hz. repeat split; apply Qltb_ge; lra.
Qed.

Lemma calculatePlatformBonus_bounded (m : TeamMember.t)
    (e : RoadmapItem.EffortBreakdown) :
  wellFormedEffort e →
  ∃ b, Allocation.calculatePlatformBonus m e = Fin b ∧ 0 <= b ∧ b <= 45.
Proof.
  intros Hwf. unfold Allocation.calculatePlatformBonus.
  cbn [fold_left RoadmapItem.effortOf].
  generalize (Allocation.skillsMention m (Allocation.platformSkills Ios)),
             (Allocation.skillsMention m (Allocation.platformSkills Android)),
             (Allocation.skillsMention m (Allocation.platformSkills Web)),
             (Allocation.skillsMention m (Allocation.platformSkills Backend)),
             (Allocation.skillsMention m
                ["frontend"; "backend"; "full-stack"; "fullstack"]%string).
  intros bi ba bw bb bf.
  destruct (Qlt_le_dec 0 (RoadmapItem.total e)) as [Hpos|Hnonpos].
  - destruct Hwf as (Hi & Ha & Hw & Hb & Ht).
    rewrite !div_nonzero by lra.
    pose proof (Qdiv_nonneg _ _ Hi Hpos) as Hri.
    pose proof (Qdiv_nonneg _ _ Ha Hpos) as Hra.
    pose proof (Qdiv_nonneg _ _ Hw Hpos) as Hrw.
    pose proof (Qdiv_nonneg _ _ Hb Hpos) as Hrb.
    assert (Hsum : RoadmapItem.ios e / RoadmapItem.total e +
                   RoadmapItem.android e / RoadmapItem.total e +
                   RoadmapItem.web e / RoadmapItem.total e +
                   RoadmapItem.backend e / RoadmapItem.total e == 1).
    { transitivity ((RoadmapItem.ios e + RoadmapItem.android e +
                     RoadmapItem.web e + RoadmapItem.backend e)
                    / RoadmapItem.total e); [field; lra|].
      rewrite <- Ht. field. lra. }
    revert Hri Hra Hrw Hrb Hsum.
    generalize (RoadmapItem.ios e / RoadmapItem.total e),
               (RoadmapItem.android e / RoadmapItem.total e),
               (RoadmapItem.web e / RoadmapItem.total e),
               (RoadmapItem.backend e / RoadmapItem.total e).
    intros ri ra rw rb Hri Hra Hrw Hrb Hsum.
    repeat case_match; simpl; eexists; (split; [reflexivity|]); split; lra.
  - destruct (wellFormedEffort_zero e Hwf) as (-> & -> & -> & -> & ->); [lra|].
    exists 0. repeat split; lra.
Qed.

Lemma skillScore_range (k n : nat) :
  (k <= n)%nat →
  0 <= inject_Z (Z.of_nat k) / inject_Z (Z.of_nat (Nat.max 1 n)) ∧
  inject_Z (Z.of_nat k) / inject_Z (Z.of_nat (Nat.max 1 n)) <= 1.
Proof.
  intros Hk.
  assert (Hd : 0 < inject_Z (Z.of_nat (Nat.max 1 n))).
  { change 0 with (inject_Z 0). rewrite <- Zlt_Qlt. lia. }
  assert (Hn : 0 <= inject_Z (Z.of_nat k)).
  { change 0 with (inject_Z 0). rewrite <- Zle_Qle. lia. }
  assert (Hle : inject_Z (Z.of_nat k) <= inject_Z (Z.of_nat (Nat.max 1 n))).
  { rewrite <- Zle_Qle. lia. }
  split.
  - by apply Qdiv_nonneg.
  - apply Qle_shift_div_r; [done|]. lra.
Qed.

Lemma scoreBeforeLevel_range m it :
  wellFormedItem it →
  ∃ b, Allocation.scoreBeforeLevel m it = Fin b ∧ 0 <= b ∧ b <= 125.
Proof.
  intros Hwf. unfold Allocation.scoreBeforeLevel.
  destruct (skillScore_range
              (length (List.filter (fun skill => TeamMember.hasSkill m skill)
                         (RoadmapItem.requiredSkills it)))
              (length (RoadmapItem.requiredSkills it)))
    as [Hs0 Hs1]; [apply filter_length_le|].
  revert Hs0 Hs1. generalize (inject_Z
    (Z.of_nat (length (List.filter (fun skill => TeamMember.hasSkill m skill)
                         (RoadmapItem.requiredSkills it)))) /
    inject_Z (Z.of_nat (Nat.max 1 (length (RoadmapItem.requiredSkills it))))).
  intros skillScore Hs0 Hs1.
  destruct (RoadmapItem.effortBreakdown it) as [e|] eqn:E.
  - destruct (calculatePlatformBonus_bounded m e (Hwf e E)) as (b & -> & Hb0 & Hb1).
    repeat case_match; simpl; eexists; (split; [reflexivity|]); split; lra.
  - repeat case_match; simpl; eexists; (split; [reflexivity|]); split; lra.
Qed.

(** X7.  For an item without effort breakdown whose priority is on the
    1-5 scale, and an allocation fraction between 0 and 1, the score is a
    finite number between -15 (nothing matches, under-leveled, lowest
    priority, nothing allocated) and 140 (every bonus at its maximum). *)
Theorem score_range (m : TeamMember.t) (it : RoadmapItem.t) (q : Q) :
  RoadmapItem.effortBreakdown it = None →
  1 <= RoadmapItem.priority it → RoadmapItem.priority it <= 5 →
  0 <= q → q <= 1 →
  ∃ s, Allocation.calculateScore m it q = Fin s ∧ -15 <= s ∧ s <= 140.
Proof.
  intros Hnone Hp1 Hp5 Hq0 Hq1.
  unfold Allocation.calculateScore, Allocation.levelAdjust,
    Allocation.scoreBeforeLevel.
  rewrite Hnone.
  destruct (skillScore_range
              (length (List.filter (fun skill => TeamMember.hasSkill m skill)
                         (RoadmapItem.requiredSkills it)))
              (length (RoadmapItem.requiredSkills it)))
    as [Hs0 Hs1]; [apply filter_length_le|].
  revert Hs0 Hs1. generalize (inject_Z
    (Z.of_nat (length (List.filter (fun skill => TeamMember.hasSkill m skill)
                         (RoadmapItem.requiredSkills it)))) /
    inject_Z (Z.of_nat (Nat.max 1 (length (RoadmapItem.requiredSkills it))))).
  intros skillScore Hs0 Hs1.
  repeat case_match; simpl; eexists; (split; [reflexivity|]); split; lra.
Qed.

Lemma score_range_witness :
  RoadmapItem.effortBreakdown Fixture.frontendRedesign = None ∧
  1 <= RoadmapItem.priority Fixture.frontendRedesign ∧
  RoadmapItem.priority Fixture.frontendRedesign <= 5 ∧
  ∃ s, Allocation.calculateScore Fixture.alice Fixture.frontendRedesign (1 # 2)
       = Fin s ∧ -15 <= s ∧ s <= 140.
Proof.
  assert (H : RoadmapItem.effortBreakdown Fixture.frontendRedesign = None)
    by reflexivity.
  assert (H1 : 1 <= RoadmapItem.priority Fixture.frontendRedesign)
    by by vm_compute.
  assert (H5 : RoadmapItem.priority Fixture.frontendRedesign <= 5)
    by by vm_compute.
  assert (Hq0 : 0 <= 1 # 2) by by vm_compute.
  assert (Hq1 : (1 # 2) <= 1) by by vm_compute.
  split; [exact H|]. split; [exact H1|]. split; [exact H5|].
  exact (score_range Fixture.alice Fixture.frontendRedesign (1 # 2)
           H H1 H5 Hq0 Hq1).
Defined.

(** X9.  For an item without effort breakdown, or with a well-formed one,
    whose priority is on the 1-5 scale, a larger allocation fraction never
    gives a lower score: the score does not decrease as the fraction goes
    from 0 to 1. *)
Theorem score_monotone_in_fraction (m : TeamMember.t) (it : RoadmapItem.t)
    (q q' : Q) :
  wellFormedItem it →
  1 <= RoadmapItem.priority it → RoadmapItem.priority it <= 5 →
  0 <= q → q <= q' → q' <= 1 →
  Num.leb (Allocation.calculateScore m it q)
          (Allocation.calculateScore m it q') = true.
Proof.
  intros Hwf _ _ _ Hq _.
  unfold Allocation.calculateScore, Allocation.levelAdjust.
  destruct (scoreBeforeLevel_range m it Hwf) as (b & -> & _).
  repeat case_match; simpl; apply Qle_bool_iff; lra.
Qed.

Lemma score_monotone_in_fraction_witness :
  wellFormedItem Fixture.frontendRedesign ∧
  1 <= RoadmapItem.priority Fixture.frontendRedesign ∧
  RoadmapItem.priority Fixture.frontendRedesign <= 5 ∧
  Num.leb (Allocation.calculateScore Fixture.alice Fixture.frontendRedesign
             (1 # 10))
          (Allocation.calculateScore Fixture.alice Fixture.frontendRedesign
             (8 # 10)) = true.
Proof.
  assert (H : wellFormedItem Fixture.frontendRedesign)
    by (intros e He; discriminate He).
  assert (H1 : 1 <= RoadmapItem.priority Fixture.frontendRedesign)
    by by vm_compute.
  assert (H5 : RoadmapItem.priority Fixture.frontendRedesign <= 5)
    by by vm_compute.
  assert (Hq0 : 0 <= 1 # 10) by by vm_compute.
  assert (Hq : (1 # 10) <= 8 # 10) by by vm_compute.
  assert (Hq1 : (8 # 10) <= 1) by by vm_compute.
  split; [exact H|]. split; [exact H1|]. split; [exact H5|].
  exact (score_monotone_in_fraction Fixture.alice Fixture.frontendRedesign
           (1 # 10) (8 # 10) H H1 H5 Hq0 Hq Hq1).
Defined.

(** * Further properties of optimizer.js *)

(** ** The order of the items *)



Lemma insertSorted_cons {A : Type} (cmp : A → A → num) x y (l : list A) :
  insertSorted cmp x (y :: l)
  = if Num.gtb (cmp x y) (Fin 0) then y :: insertSorted cmp x l
    else x :: y :: l.
Proof. reflexivity. Qed.





(** ** What one pass over the candidates commits *)

Lemma allocLoop_effect i it potentials :
  ∀ remaining st, ∃ new,
    allocations (allocLoop i it potentials remaining st).2
      = allocations st ++ new ∧
    Forall (fun a => Allocation.item a = i ∧ 0 < Allocation.allocation a) new ∧
    sublist (Allocation.member <$> new) (member <$> potentials) ∧
    (allocLoop i it potentials remaining st).1
      == remaining - sumOf Allocation.allocation new ∧
    (0 <= remaining → 0 <= (allocLoop i it potentials remaining st).1) ∧
    (remaining <= 0 → new = []).
Proof.
  induction potentials as [|p rest IH]; intros remaining st.
  - exists []. simpl. rewrite app_nil_r.
    split_and!; [done|constructor|constructor|rewrite sumOf_nil; lra|done..].
  - simpl. destruct (Qle_bool remaining 0) eqn:Hrem.
    { exists []. simpl. rewrite app_nil_r. apply Qle_bool_iff in Hrem.
      split_and!;
        [done|constructor|apply sublist_nil_l|rewrite sumOf_nil; lra|lra|done]. }
    apply Qle_bool_gt in Hrem.
    assert (Hskip : ∃ new,
      allocations (allocLoop i it rest remaining st).2 = allocations st ++ new ∧
      Forall (fun a => Allocation.item a = i ∧ 0 < Allocation.allocation a) new ∧
      sublist (Allocation.member <$> new) (member p :: (member <$> rest)) ∧
      (allocLoop i it rest remaining st).1
        == remaining - sumOf Allocation.allocation new ∧
      (0 <= remaining → 0 <= (allocLoop i it rest remaining st).1) ∧
      (remaining <= 0 → new = [])).
    { destruct (IH remaining st) as (new & H1 & H2 & H3 & H4 & H5 & H6).
      exists new. split_and!; try done. by apply sublist_cons_r; left. }
    destruct (teamMembers st !! member p) as [m|] eqn:Hm; [|exact Hskip].
    destruct (Qle_bool (TeamMember.getAvailableCapacity m) 0) eqn:Hav;
      [exact Hskip|].
    apply Qle_bool_gt in Hav.
    destruct (Qltb _ _) eqn:Hamt; [|exact Hskip].
    apply Qltb_lt in Hamt.
    set (amount := Qmin (Qmin remaining (TeamMember.getAvailableCapacity m))
                        (1 # 2)) in *.
    assert (Hg : guarded remaining m amount) by by repeat split.
    destruct (guarded_amount _ _ _ Hg) as (Hlo & _ & Hle & _).
    destruct (IH (remaining - amount) (commit (member p) i m it amount st))
      as (new & H1 & H2 & H3 & H4 & H5 & H6).
    exists (Allocation.mk (member p) i amount
              (Allocation.calculateScore m it amount) :: new).
    split_and!.
    + rewrite H1. simpl. by rewrite <- app_assoc.
    + constructor; [|done]. simpl. split; [done|lra].
    + simpl. by apply sublist_skip.
    + rewrite H4, sumOf_cons. simpl. lra.
    + intros _. apply H5. lra.
    + intros Hneg. lra.
Qed.

Lemma potentialsFrom_members members it n :
  Forall (fun p => ∃ m, members !! (member p - n)%nat = Some m ∧
                        (n <= member p)%nat ∧
                        (1 # 10) < TeamMember.getAvailableCapacity m)
         (potentialsFrom n members it) ∧
  StronglySorted lt (member <$> potentialsFrom n members it) ∧
  Forall (fun p => (n <= member p)%nat) (potentialsFrom n members it).
Proof.
  revert n. induction members as [|m l IH]; intros n; simpl.
  - repeat split; constructor.
  - destruct (IH (S n)) as (H1 & H2 & H3).
    assert (H1' : Forall (fun p => ∃ m0, (m :: l) !! (member p - n)%nat = Some m0 ∧
                        (n <= member p)%nat ∧
                        (1 # 10) < TeamMember.getAvailableCapacity m0)
         (potentialsFrom (S n) l it)).
    { apply Forall_forall. intros p Hp.
      pose proof (proj1 (Forall_forall _ _) H1 p Hp) as (m0 & Hm0 & Hle & Hav).
      exists m0. replace (member p - n)%nat with (S (member p - S n)) by lia.
      repeat split; [done|lia|done]. }
    assert (H3' : Forall (fun p => (n <= member p)%nat)
                         (potentialsFrom (S n) l it)).
    { eapply Forall_impl; [exact H3|]. intros p Hp. simpl in Hp. lia. }
    destruct (Qltb _ _) eqn:E; [|done].
    apply Qltb_lt in E. repeat split.
    + constructor; [|done]. exists m. simpl.
      replace (n - n)%nat with 0%nat by lia. by repeat split.
    + simpl. constructor; [done|]. apply Forall_fmap.
      eapply Forall_impl; [exact H3|]. intros p Hp. simpl in *. lia.
    + constructor; [simpl; lia|done].
Qed.

Lemma findPotentialAllocations_members st it :
  Forall (fun p => ∃ m, teamMembers st !! member p = Some m ∧
                        (1 # 10) < TeamMember.getAvailableCapacity m)
         (findPotentialAllocations st it) ∧
  NoDup (member <$> findPotentialAllocations st it).
Proof.
  unfold findPotentialAllocations.
  destruct (potentialsFrom_members (teamMembers st) it 0) as (H1 & H2 & _).
  split.
  - eapply Forall_impl; [exact H1|]. intros p (m & Hm & _ & Hav).
    exists m. by rewrite Nat.sub_0_r in Hm.
  - clear H1. induction H2 as [|x l Hl IH Hx]; constructor; [|done].
    intros Hin. apply (proj1 (Forall_forall _ _) Hx) in Hin. lia.
Qed.

(** ** What handling one item commits *)

Lemma Qle_bool_proper (a a' b b' : Q) :
  a == a' → b == b' → Qle_bool a b = Qle_bool a' b'.
Proof.
  intros Ha Hb. destruct (Qle_bool a' b') eqn:E.
  - apply Qle_bool_iff in E. apply Qle_bool_iff. lra.
  - apply Qle_bool_gt in E. apply Qle_bool_gt. lra.
Qed.

Lemma Qeq_bool_proper (a a' b : Q) : a == a' → Qeq_bool a b = Qeq_bool a' b.
Proof.
  intros Ha. destruct (Qeq_bool a' b) eqn:E.
  - apply Qeq_bool_iff in E. apply Qeq_bool_iff. lra.
  - destruct (Qeq_bool a b) eqn:E'; [|done].
    apply Qeq_bool_iff in E'.
    assert (H : Qeq_bool a' b = true) by (apply Qeq_bool_iff; lra).
    congruence.
Qed.

Lemma div_proper (a a' b : Q) :
  a == a' →
  match Num.div a b, Num.div a' b with
  | Fin q, Fin q' => q == q'
  | PInf, PInf | NInf, NInf | NaN, NaN => True
  | _, _ => False
  end.
Proof.
  intros Ha. unfold Num.div, Qltb.
  rewrite (Qeq_bool_proper a a' 0 Ha).
  rewrite (Qle_bool_proper a a' 0 0 Ha (Qeq_refl 0)).
  repeat case_match; simplify_eq; try done.
  by rewrite Ha.
Qed.

Lemma getItemStatus_proper it it' (a a' : Q) :
  RoadmapItem.getRequiredCapacity it = RoadmapItem.getRequiredCapacity it' →
  a == a' → getItemStatus it a = getItemStatus it' a'.
Proof.
  intros Hreq Ha. unfold getItemStatus. rewrite <- Hreq.
  pose proof (div_proper a a' (RoadmapItem.getRequiredCapacity it) Ha) as H.
  destruct (Num.div a _), (Num.div a' _); try done.
  unfold Num.geb. simpl.
  by rewrite !(Qle_bool_proper _ _ q q0 (Qeq_refl _) H).
Qed.

Lemma allocateItem_other_item st i j :
  i ≠ j → roadmapItems (allocateItem st i) !! j = roadmapItems st !! j.
Proof.
  intros Hne.
  apply (allocateItem_inv
           (fun st' => roadmapItems st' !! j = roadmapItems st !! j));
    [| |done].
  - intros it _ st' idx m remaining amount H _ _ _. simpl.
    by rewrite list_lookup_alter_ne.
  - intros st' s H. simpl. by rewrite list_lookup_alter_ne.
Qed.

Lemma allocateItem_statics st i :
  sameStatics st (allocateItem st i).
Proof.
  apply allocateItem_inv; [| |done].
  - intros it _. apply sameStatics_commit.
  - apply sameStatics_status.
Qed.

Lemma eraseItem_required x y :
  eraseItem x = eraseItem y →
  RoadmapItem.getRequiredCapacity x = RoadmapItem.getRequiredCapacity y.
Proof. intros H. exact (f_equal RoadmapItem.getRequiredCapacity H). Qed.

Lemma allocateItem_effect st i it :
  roadmapItems st !! i = Some it →
  ∃ new,
    allocations (allocateItem st i) = allocations st ++ new ∧
    Forall (fun a => Allocation.item a = i ∧ 0 < Allocation.allocation a) new ∧
    NoDup (Allocation.member <$> new) ∧
    Forall (fun a => ∃ m, teamMembers st !! Allocation.member a = Some m ∧
                          (1 # 10) < TeamMember.getAvailableCapacity m) new ∧
    0 <= sumOf Allocation.allocation new ∧
    sumOf Allocation.allocation new
      <= Qmax 0 (RoadmapItem.getRequiredCapacity it) ∧
    statusOf (allocateItem st i) i
      = Some (Some (getItemStatus it (sumOf Allocation.allocation new))).
Proof.
  intros Hit. unfold allocateItem. rewrite Hit.
  set (pots := jsSort byScoreDesc (findPotentialAllocations st it)).
  destruct (allocLoop_effect i it pots (RoadmapItem.getRequiredCapacity it) st)
    as (new & H1 & H2 & H3 & H4 & H5 & H6).
  destruct (findPotentialAllocations_members st it) as [Hc Hnd].
  destruct (allocLoop i it pots _ st) as [remaining st'] eqn:Hloop.
  simpl in *. exists new.
  assert (Hpos : 0 <= sumOf Allocation.allocation new).
  { clear -H2. induction H2 as [|a l [_ Ha] _ IH]; [by rewrite sumOf_nil|].
    rewrite sumOf_cons. lra. }
  split_and!; try done.
  - eapply sublist_NoDup; [|exact H3]. unfold pots.
    by rewrite jsSort_Permutation.
  - apply Forall_forall. intros a Ha.
    assert (Hin : Allocation.member a ∈ member <$> pots).
    { eapply elem_of_sublist; [|exact H3]. by apply list_elem_of_fmap_2. }
    apply list_elem_of_fmap in Hin as (p & Hp & Hin).
    unfold pots in Hin. rewrite jsSort_Permutation in Hin.
    rewrite Hp. by apply (proj1 (Forall_forall _ _) Hc).
  - destruct (Qlt_le_dec 0 (RoadmapItem.getRequiredCapacity it)) as [Hr|Hr].
    + specialize (H5 ltac:(lra)). qminmax; lra.
    + rewrite (H6 Hr), sumOf_nil. qminmax; lra.
  - assert (Hsome : is_Some (roadmapItems st' !! i)).
    { change st' with (remaining, st').2. rewrite <- Hloop.
      apply allocLoop_item_is_Some. by eexists. }
    rewrite statusOf_setStatus_eq by done. do 2 f_equal.
    apply getItemStatus_proper; [done|]. lra.
Qed.

(** ** The state between two items *)

Lemma filter_item_same i (new : list Allocation.t) (P : Allocation.t → Prop) :
  Forall (fun a => Allocation.item a = i ∧ P a) new →
  filter (fun a => Allocation.item a = i) new = new.
Proof.
  induction 1 as [|a l [Ha _] _ IH]; [done|].
  by rewrite filter_cons_True, IH.
Qed.

Lemma filter_item_other i j (new : list Allocation.t) (P : Allocation.t → Prop) :
  i ≠ j → Forall (fun a => Allocation.item a = i ∧ P a) new →
  filter (fun a => Allocation.item a = j) new = [].
Proof.
  intros Hne. induction 1 as [|a l [Ha _] _ IH]; [done|].
  rewrite filter_cons_False by congruence. done.
Qed.

Lemma filter_item_unhandled (D : nat → Prop) i (old : list Allocation.t) :
  ¬ D i → Forall (fun a => D (Allocation.item a)) old →
  filter (fun a => Allocation.item a = i) old = [].
Proof.
  intros HD. induction 1 as [|a l Ha _ IH]; [done|].
  rewrite filter_cons_False; [done|]. intros Heq. by rewrite Heq in Ha.
Qed.

Lemma handled_allocateItem (D : nat → Prop) st i :
  ¬ D i → handled D st →
  handled (fun j => j = i ∨ D j) (allocateItem st i).
Proof.
  intros HDi (Hal & Hnd & Hset).
  destruct (roadmapItems st !! i) as [it|] eqn:Hit.
  - destruct (allocateItem_effect st i it Hit)
      as (new & H1 & H2 & H3 & _ & H5 & H6 & H7).
    split_and!.
    + rewrite H1. apply Forall_app. split.
      * eapply Forall_impl; [exact Hal|]. intros a Ha. by right.
      * eapply Forall_impl; [exact H2|]. intros a [Ha _]. by left.
    + rewrite H1, fmap_app. apply NoDup_app. split_and!; [done| |].
      * intros [mi ii] Hold Hnew.
        apply list_elem_of_fmap in Hold as (a & Ha & Hold).
        apply list_elem_of_fmap in Hnew as (b & Hb & Hnew).
        pose proof (proj1 (Forall_forall _ _) Hal a Hold) as HDa.
        pose proof (proj1 (Forall_forall _ _) H2 b Hnew) as [Hbi _].
        apply HDi. rewrite <- Hbi.
        assert (He : Allocation.item a = Allocation.item b)
          by (unfold pairOf in *; congruence).
        by rewrite <- He.
      * apply (NoDup_fmap_1 fst). rewrite <- list_fmap_compose. exact H3.
    + intros j [->|Hj] Hsome.
      * unfold statusOf in H7.
        destruct (roadmapItems (allocateItem st i) !! i) as [x|] eqn:Hx;
          [|done].
        assert (Hreq : RoadmapItem.getRequiredCapacity x
                       = RoadmapItem.getRequiredCapacity it).
        { destruct (allocateItem_statics st i) as [_ Hs].
          apply (f_equal (.!! i)) in Hs.
          rewrite !list_lookup_fmap, Hx, Hit in Hs. simpl in Hs.
          apply eraseItem_required. congruence. }
        assert (Hsum : allocatedTo (allocateItem st i) i
                       = sumOf Allocation.allocation new).
        { unfold allocatedTo. rewrite H1, filter_app.
          rewrite (filter_item_unhandled D i _ HDi Hal).
          by rewrite (filter_item_same i new _ H2). }
        exists x. rewrite Hsum, Hreq. split_and!; try done.
        simpl in H7. injection H7 as H7. rewrite H7. f_equal.
        by apply getItemStatus_proper.
      * assert (Hne : i ≠ j) by (intros ->; done).
        rewrite allocateItem_other_item in Hsome by done.
        destruct (Hset j Hj Hsome) as (x & Hx & Hst & Hlo & Hhi).
        assert (Hsum : allocatedTo (allocateItem st i) j = allocatedTo st j).
        { unfold allocatedTo. rewrite H1, filter_app.
          by rewrite (filter_item_other i j new _ Hne H2), app_nil_r. }
        exists x. rewrite Hsum, allocateItem_other_item by done. done.
  - unfold allocateItem. rewrite Hit. split_and!.
    + eapply Forall_impl; [exact Hal|]. intros a Ha. by right.
    + done.
    + intros j [->|Hj] Hsome; [|by apply Hset].
      rewrite Hit in Hsome. by destruct Hsome.
Qed.

Lemma handled_weaken (D D' : nat → Prop) st :
  (∀ j, D j ↔ D' j) → handled D st → handled D' st.
Proof.
  intros H (Hal & Hnd & Hset). split_and!; [|done|].
  - eapply Forall_impl; [exact Hal|]. intros a Ha. by apply H.
  - intros j Hj. apply Hset. by apply H.
Qed.

Lemma handled_fold order (D : nat → Prop) st :
  NoDup order → (∀ j, j ∈ order → ¬ D j) → handled D st →
  handled (fun j => j ∈ order ∨ D j) (fold_left allocateItem order st).
Proof.
  revert D st. induction order as [|i order IH]; intros D st Hnd Hfresh H.
  - simpl. eapply handled_weaken; [|exact H].
    intros j. split; [by right|]. intros [Hj|Hj]; [|done].
    by apply elem_of_nil in Hj.
  - apply NoDup_cons in Hnd as [Hi Hnd]. simpl.
    eapply handled_weaken;
      [|apply (IH (fun j => j = i ∨ D j)); [done| |apply handled_allocateItem]].
    + intros j. rewrite elem_of_cons. tauto.
    + intros j Hj [->|HD]; [done|]. apply (Hfresh j); [by right|done].
    + apply Hfresh. by left.
    + done.
Qed.

Lemma handled_reset st : handled (fun _ => False) (reset st).
Proof. split_and!; [constructor|constructor|done]. Qed.

Lemma handled_allocateAll st :
  handled (fun j => j ∈ sortedItems (reset st)) (allocateAll st).
Proof.
  unfold allocateAll.
  eapply handled_weaken; [|apply handled_fold, handled_reset].
  - intros j. tauto.
  - unfold sortedItems. rewrite jsSort_Permutation. apply NoDup_seq.
  - tauto.
Qed.

(** ** The records kept on members and items *)

Lemma itemsMirror_commit itemIdx it : commitStable itemsMirror itemIdx it.
Proof.
  intros st idx m remaining amount H _ _ _ j x Hx. simpl in *.
  rewrite filter_app, fmap_app.
  destruct (decide (itemIdx = j)) as [->|Hne].
  - rewrite list_lookup_alter_eq in Hx.
    destruct (roadmapItems st !! j) as [y|] eqn:Hy; simplify_eq/=.
    rewrite fmap_app, (H j y Hy). f_equal.
    by rewrite filter_cons_True.
  - rewrite list_lookup_alter_ne in Hx by done. rewrite (H j x Hx).
    rewrite filter_cons_False by (simpl; congruence).
    by rewrite filter_nil, app_nil_r.
Qed.

Lemma itemsMirror_status itemIdx : statusStable itemsMirror itemIdx.
Proof.
  intros st s H j x Hx. simpl in *.
  destruct (decide (itemIdx = j)) as [->|Hne].
  - rewrite list_lookup_alter_eq in Hx.
    destruct (roadmapItems st !! j) as [y|] eqn:Hy; simplify_eq/=.
    by apply H.
  - rewrite list_lookup_alter_ne in Hx by done. by apply H.
Qed.

Lemma itemsMirror_reset st : itemsMirror (reset st).
Proof.
  intros j x Hx. simpl in *. rewrite list_lookup_fmap in Hx.
  destruct (roadmapItems st !! j); by simplify_eq/=.
Qed.

Lemma itemsMirror_allocateAll st : itemsMirror (allocateAll st).
Proof.
  apply allocateAll_inv;
    auto using itemsMirror_commit, itemsMirror_status, itemsMirror_reset.
Qed.

Lemma membersMirror_commit itemIdx it : commitStable membersMirror itemIdx it.
Proof.
  intros st idx m remaining amount H Hm _ _ i x Hx. simpl in *.
  rewrite filter_app, fmap_app.
  destruct (decide (idx = i)) as [->|Hne].
  - rewrite list_lookup_alter_eq, Hm in Hx. simplify_eq/=.
    destruct (H i m Hm) as (H1 & H2 & H3). split_and!.
    + rewrite fmap_app, H1. f_equal. by rewrite filter_cons_True.
    + by eexists.
    + rewrite sumOf_app, sumOf_cons, sumOf_nil. simpl. lra.
  - rewrite list_lookup_alter_ne in Hx by done.
    destruct (H i x Hx) as (H1 & H2 & H3). split_and!; [|done..].
    rewrite H1, filter_cons_False by (simpl; congruence).
    by rewrite filter_nil, app_nil_r.
Qed.

Lemma membersMirror_status itemIdx : statusStable membersMirror itemIdx.
Proof. by intros st s H. Qed.

Lemma membersMirror_reset st : membersMirror (reset st).
Proof.
  intros i m Hm. simpl in *. rewrite list_lookup_fmap in Hm.
  destruct (teamMembers st !! i); simplify_eq/=.
  split_and!; [done|by eexists|reflexivity].
Qed.

Lemma membersMirror_allocateAll st : membersMirror (allocateAll st).
Proof.
  apply allocateAll_inv;
    auto using membersMirror_commit, membersMirror_status,
               membersMirror_reset.
Qed.

Lemma sumOf_fmap {A B : Type} (f : A → B) (g : B → Q) (l : list A) :
  sumOf g (f <$> l) = sumOf (fun x => g (f x)) l.
Proof.
  unfold sumOf. generalize 0. induction l as [|x l IH]; intros a; [done|].
  simpl. apply IH.
Qed.

Lemma getTotalAllocation_allocatedTo st j x :
  itemsMirror st → roadmapItems st !! j = Some x →
  RoadmapItem.getTotalAllocation x = allocatedTo st j.
Proof.
  intros H Hx. unfold allocatedTo.
  change (RoadmapItem.getTotalAllocation x)
    with (sumOf RoadmapItem.allocation (RoadmapItem.assignedMembers x)).
  rewrite <- (sumOf_fmap RoadmapItem.allocation id).
  rewrite <- (sumOf_fmap Allocation.allocation id).
  by rewrite (H j x Hx).
Qed.

(** X11.  A member's [assignments] and an item's [assignedMembers] list the
    amounts of exactly the allocations that name the member, or the item, in
    the order of the allocation list; and a member's [allocatedCapacity] is
    the sum of the amounts in the member's [assignments]. *)
Theorem records_mirror_allocations (st : t) :
  (∀ i m, teamMembers (optimize st).1 !! i = Some m →
     ∃ assignments,
       TeamMember.assignments m = Some assignments ∧
       TeamMember.allocation <$> assignments
       = Allocation.allocation
           <$> filter (fun a => Allocation.member a = i)
                      (allocations (optimize st).1) ∧
       TeamMember.allocatedCapacity m
       == sumOf TeamMember.allocation assignments) ∧
  (∀ j x, roadmapItems (optimize st).1 !! j = Some x →
     RoadmapItem.allocation <$> RoadmapItem.assignedMembers x
     = Allocation.allocation
         <$> filter (fun a => Allocation.item a = j)
                    (allocations (optimize st).1)).
Proof.
  split.
  - intros i m Hm.
    destruct (membersMirror_allocateAll st i m Hm) as (H1 & [l Hl] & H3).
    rewrite Hl in *. by exists l.
  - apply itemsMirror_allocateAll.
Qed.

(** ** The status of an item and what it received *)

Lemma settled_allocateAll st j x :
  roadmapItems (allocateAll st) !! j = Some x →
  RoadmapItem.allocationStatus x
    = Some (getItemStatus x (RoadmapItem.getTotalAllocation x)) ∧
  0 <= RoadmapItem.getTotalAllocation x ∧
  RoadmapItem.getTotalAllocation x
    <= Qmax 0 (RoadmapItem.getRequiredCapacity x).
Proof.
  intros Hx.
  rewrite (getTotalAllocation_allocatedTo _ j x (itemsMirror_allocateAll st) Hx).
  destruct (handled_allocateAll st) as (_ & _ & Hset).
  destruct (Hset j) as (y & Hy & H); [|by eexists|].
  - apply sortedItems_complete.
    apply lookup_lt_is_Some. apply lookup_lt_Some in Hx.
    unfold allocateAll in Hx. by rewrite fold_allocateItem_length in Hx.
  - by simplify_eq.
Qed.

Lemma getItemStatus_nothing x (a : Q) : a == 0 → getItemStatus x a = NotStaffed.
Proof.
  intros Ha. unfold getItemStatus, Num.div.
  rewrite (Qeq_bool_true a 0 Ha).
  destruct (Qeq_bool (RoadmapItem.getRequiredCapacity x) 0) eqn:E; [done|].
  assert (Hz : a / RoadmapItem.getRequiredCapacity x == 0).
  { rewrite Ha. unfold Qdiv. lra. }
  unfold Num.geb. simpl.
  rewrite !(Qle_bool_proper _ _ _ 0 (Qeq_refl _) Hz). done.
Qed.


Lemma sumOf_nonneg {A : Type} (f : A → Q) (l : list A) :
  Forall (fun x => 0 <= f x) l → 0 <= sumOf f l.
Proof.
  induction 1 as [|x l Hx _ IH]; [by rewrite sumOf_nil|].
  rewrite sumOf_cons. lra.
Qed.

Lemma sumOf_positive {A : Type} (f : A → Q) (l : list A) (c : Q) :
  0 < c → Forall (fun x => c < f x) l → l ≠ [] → 0 < sumOf f l.
Proof.
  intros Hc Hl Hne. destruct Hl as [|x l Hx Hl]; [done|].
  rewrite sumOf_cons.
  assert (H0 : 0 <= sumOf f l).
  { apply sumOf_nonneg. eapply Forall_impl; [exact Hl|].
    intros y Hy. simpl in Hy. lra. }
  lra.
Qed.

(** X12.  After [optimize] an item's total allocation is not negative; an
    item that received no allocation is not-staffed, so that an item with any
    other status has at least one; and an item that requires nothing, or
    less, receives no allocation. *)
Theorem unallocated_item_not_staffed (st : t) (j : nat) (x : RoadmapItem.t) :
  roadmapItems (optimize st).1 !! j = Some x →
  let received :=
    filter (fun a => Allocation.item a = j) (allocations (optimize st).1) in
  0 <= RoadmapItem.getTotalAllocation x ∧
  (received = [] → RoadmapItem.allocationStatus x = Some NotStaffed) ∧
  (RoadmapItem.allocationStatus x ≠ Some NotStaffed → received ≠ []) ∧
  (RoadmapItem.getRequiredCapacity x <= 0 → received = []).
Proof.
  simpl. intros Hx.
  destruct (settled_allocateAll st j x Hx) as (Hs & H0 & H1).
  pose proof (getTotalAllocation_allocatedTo _ j x
                (itemsMirror_allocateAll st) Hx) as Ht.
  unfold allocatedTo in Ht.
  assert (Hnone : filter (fun a => Allocation.item a = j)
                    (allocations (allocateAll st)) = [] →
                  RoadmapItem.allocationStatus x = Some NotStaffed).
  { intros He. rewrite Hs, Ht, He. f_equal.
    apply getItemStatus_nothing. apply sumOf_nil. }
  split_and!; [done|done| |].
  - intros Hst He. by apply Hst, Hnone.
  - intros Hreq.
    destruct (filter _ _) as [|a l] eqn:E; [done|]. exfalso.
    assert (Hpos : 0 < sumOf Allocation.allocation (a :: l)).
    { apply (sumOf_positive _ _ (1 # 10)); [done| |done].
      rewrite <- E. apply Forall_forall. intros b Hb.
      apply list_elem_of_filter in Hb as [_ Hb].
      destruct (allocationsOk_allocateAll st) as [_ Ha].
      by destruct (proj1 (Forall_forall _ _) Ha b Hb). }
    rewrite Ht in H1. revert H1. qminmax; lra.
Qed.

Lemma unallocated_item_not_staffed_witness :
  let x := default Fixture.smallBugFix
                   (roadmapItems (optimize overbooked).1 !! 1%nat) in
  roadmapItems (optimize overbooked).1 !! 1%nat = Some x ∧
  filter (fun a => Allocation.item a = 1%nat)
         (allocations (optimize overbooked).1) = [] ∧
  RoadmapItem.allocationStatus x = Some NotStaffed.
Proof.
  intros x.
  assert (Hx : roadmapItems (optimize overbooked).1 !! 1%nat = Some x)
    by by vm_compute.
  assert (He : filter (fun a => Allocation.item a = 1%nat)
                      (allocations (optimize overbooked).1) = [])
    by by vm_compute.
  split; [exact Hx|]. split; [exact He|].
  exact (proj1 (proj2 (unallocated_item_not_staffed overbooked 1 x Hx)) He).
Defined.

(** X14.  No member is committed to the same item twice: the allocations of
    one run pair each member with each item at most once. *)
Theorem member_item_pairs_unique (st : t) :
  NoDup (pairOf <$> allocations (optimize st).1).
Proof. by destruct (handled_allocateAll st) as (_ & H & _). Qed.

(** ** Members with little or no capacity *)

Lemma sameStatics_capacity st0 st i m0 m :
  sameStatics st0 st →
  teamMembers st0 !! i = Some m0 → teamMembers st !! i = Some m →
  TeamMember.capacity m = TeamMember.capacity m0.
Proof.
  intros [H _] H0 Hm. apply (f_equal (.!! i)) in H.
  rewrite !list_lookup_fmap, H0, Hm in H. simpl in H. by injection H.
Qed.

Lemma spared_allocateItem st0 i m0 st k :
  teamMembers st0 !! i = Some m0 → TeamMember.capacity m0 <= 1 # 10 →
  spared st0 i st → spared st0 i (allocateItem st k).
Proof.
  intros H0 Hcap (Hs & Hw & Ha). split_and!.
  - apply allocateItem_inv; [| |done].
    + intros it _. apply sameStatics_commit.
    + apply sameStatics_status.
  - apply allocateItem_inv; [| |done].
    + intros it _. apply membersWithin_commit.
    + apply membersWithin_status.
  - destruct (roadmapItems st !! k) as [it|] eqn:Hit.
    + destruct (allocateItem_effect st k it Hit) as (new & H1 & _ & _ & H4 & _).
      rewrite H1. apply Forall_app. split; [done|].
      eapply Forall_impl; [exact H4|].
      intros a (m & Hm & Hav) Heq. rewrite Heq in Hm.
      pose proof (sameStatics_capacity _ _ _ _ _ Hs H0 Hm) as Hc.
      pose proof (Forall_lookup_1 _ _ _ _ Hw Hm) as [Hlo _].
      unfold TeamMember.getAvailableCapacity in Hav. rewrite Hc in Hav.
      revert Hav. qminmax; intros; lra.
    + unfold allocateItem. by rewrite Hit.
Qed.

Lemma spared_allocateAll st i m0 :
  teamMembers st !! i = Some m0 → TeamMember.capacity m0 <= 1 # 10 →
  spared st i (allocateAll st).
Proof.
  intros H0 Hcap. unfold allocateAll. apply fold_allocateItem_inv.
  - intros st' k _. by apply (spared_allocateItem st i m0).
  - split_and!; [apply sameStatics_reset|apply membersWithin_reset|constructor].
Qed.

(** X15.  A member whose capacity is at most 0.1 is never a candidate:
    after [optimize] no allocation names the member, the member's
    [assignments] are empty and the [allocatedCapacity] is 0. *)
Theorem low_capacity_member_spared (st : t) (i : nat) (m0 : TeamMember.t) :
  teamMembers st !! i = Some m0 →
  TeamMember.capacity m0 <= 1 # 10 →
  ∃ m, teamMembers (optimize st).1 !! i = Some m ∧
       TeamMember.assignments m = Some [] ∧
       TeamMember.allocatedCapacity m == 0 ∧
       Forall (fun a => Allocation.member a ≠ i) (allocations (optimize st).1).
Proof.
  intros H0 Hcap. simpl.
  destruct (spared_allocateAll st i m0 H0 Hcap) as (_ & _ & Ha).
  destruct (Forall2_lookup_l _ _ _ _ _ (members_statics st) H0)
    as (m & Hm & _).
  destruct (membersMirror_allocateAll st i m Hm) as (H1 & [l Hl] & H3).
  assert (Hnone : filter (fun a => Allocation.member a = i)
                         (allocations (allocateAll st)) = []).
  { clear -Ha. induction Ha as [|a l Hne _ IH]; [done|].
    by rewrite filter_cons_False. }
  rewrite Hl, Hnone in *. simpl in *.
  destruct l; [|done]. exists m. by split_and!.
Qed.

Lemma low_capacity_member_spared_witness :
  ∃ m, teamMembers (optimize withZeroCap).1 !! 0%nat = Some m ∧
       TeamMember.assignments m = Some [] ∧
       TeamMember.allocatedCapacity m == 0 ∧
       Forall (fun a => Allocation.member a ≠ 0%nat)
              (allocations (optimize withZeroCap).1).
Proof.
  apply (low_capacity_member_spared withZeroCap 0 zeroCap).
  - reflexivity.
  - by vm_compute.
Defined.

(** X16.  When no member has a capacity above 0.1 (an empty team included),
    [optimize] commits nothing and every item ends not-staffed. *)
Theorem no_capacity_nothing_staffed (st : t) :
  Forall (fun m => TeamMember.capacity m <= 1 # 10) (teamMembers st) →
  allocations (optimize st).1 = [] ∧
  Report.allocations (optimize st).2 = [] ∧
  Forall (fun x => RoadmapItem.allocationStatus x = Some NotStaffed)
         (roadmapItems (optimize st).1).
Proof.
  intros Hcap. simpl.
  assert (Hnil : allocations (allocateAll st) = []).
  { destruct (allocations (allocateAll st)) as [|a l] eqn:E; [done|].
    destruct (allocationsOk_allocateAll st) as [_ Hok].
    rewrite E in Hok. apply Forall_cons in Hok as [(_ & _ & m & Hm & _) _].
    destruct (Forall2_lookup_r _ _ _ _ _ (members_statics st) Hm)
      as (m0 & H0 & _).
    pose proof (Forall_lookup_1 _ _ _ _ Hcap H0) as Hc. simpl in Hc.
    destruct (spared_allocateAll st _ m0 H0 Hc) as (_ & _ & Ha).
    rewrite E in Ha. by apply Forall_cons in Ha as [Ha _]. }
  rewrite Hnil. split_and!; [done..|].
  apply Forall_lookup. intros j x Hx.
  destruct (settled_allocateAll st j x Hx) as (Hs & _).
  rewrite Hs. f_equal. apply getItemStatus_nothing.
  rewrite (getTotalAllocation_allocatedTo _ j x (itemsMirror_allocateAll st) Hx).
  unfold allocatedTo. by rewrite Hnil.
Qed.

Lemma no_capacity_nothing_staffed_witness :
  Forall (fun m => TeamMember.capacity m <= 1 # 10) (teamMembers noMembers) ∧
  allocations (optimize noMembers).1 = [] ∧
  Report.allocations (optimize noMembers).2 = [] ∧
  Forall (fun x => RoadmapItem.allocationStatus x = Some NotStaffed)
         (roadmapItems (optimize noMembers).1).
Proof.
  assert (H : Forall (fun m => TeamMember.capacity m <= 1 # 10)
                     (teamMembers noMembers)) by apply Forall_nil_2.
  split; [exact H|]. exact (no_capacity_nothing_staffed noMembers H).
Defined.

(** ** Totals and utilization *)






Lemma utilization_unallocated (m : TeamMember.t) :
  TeamMember.allocatedCapacity m == 0 →
  isOverUtilized m = false ∧
  (¬ TeamMember.capacity m == 0 → isUnderUtilized m = true).
Proof.
  intros Ha. unfold isOverUtilized, isUnderUtilized, Num.div, Num.gtb.
  rewrite (Qeq_bool_true _ _ Ha).
  destruct (Qeq_bool (TeamMember.capacity m) 0) eqn:Ec.
  - split; [done|]. intros Hc. by apply Qeq_bool_iff in Ec.
  - assert (Hz : TeamMember.allocatedCapacity m / TeamMember.capacity m == 0).
    { rewrite Ha. unfold Qdiv. lra. }
    simpl. split.
    + apply Qltb_ge. lra.
    + intros _. apply Qltb_lt. lra.
Qed.

(** X18.  No member is both in [underUtilized] and in [overUtilized].  A
    member in either list is a member of the team with a capacity other
    than 0; a member with such a capacity and nothing allocated is in
    [underUtilized]; and a member in [overUtilized] has something
    allocated. *)
Theorem utilization_lists (st : t) (m : TeamMember.t) :
  let report := (optimize st).2 in
  ¬ (m ∈ Report.underUtilized report ∧ m ∈ Report.overUtilized report) ∧
  (m ∈ Report.underUtilized report ∨ m ∈ Report.overUtilized report →
   m ∈ Report.teamMembers report ∧ ¬ TeamMember.capacity m == 0) ∧
  (m ∈ Report.teamMembers report → ¬ TeamMember.capacity m == 0 →
   TeamMember.allocatedCapacity m == 0 → m ∈ Report.underUtilized report) ∧
  (m ∈ Report.overUtilized report → 0 < TeamMember.allocatedCapacity m).
Proof.
  simpl.
  assert (Hin : ∀ f, m ∈ List.filter f (teamMembers (allocateAll st))
                     ↔ m ∈ teamMembers (allocateAll st) ∧ f m = true).
  { intros f. by rewrite list_elem_of_In, filter_In, <- list_elem_of_In. }
  assert (Hw : m ∈ teamMembers (allocateAll st) →
               0 <= TeamMember.allocatedCapacity m ∧
               (TeamMember.capacity m == 0 →
                TeamMember.allocatedCapacity m == 0)).
  { intros Hm.
    pose proof (proj1 (Forall_forall _ _) (membersWithin_allocateAll st) m Hm)
      as [Hlo Hhi].
    split; [done|]. intros Hc. revert Hhi. qminmax; lra. }
  rewrite !Hin. split_and!.
  - intros [[_ Hu] [_ Ho]]. unfold isUnderUtilized, isOverUtilized in *.
    destruct (Num.div _ _); try done.
    unfold Num.gtb in Ho. simpl in *. apply Qltb_lt in Hu, Ho. lra.
  - intros H.
    assert (Hm : m ∈ teamMembers (allocateAll st)) by tauto.
    split; [done|]. intros Hc.
    destruct (Hw Hm) as [_ Hz].
    destruct (isUnderUtilized_zero m Hc (Hz Hc)) as [Hu Ho].
    destruct H as [[_ H]|[_ H]]; congruence.
  - intros Hm Hc Ha. split; [done|].
    by apply (utilization_unallocated m Ha).
  - intros [Hm Ho]. destruct (Hw Hm) as [Hlo _].
    destruct (Qlt_le_dec 0 (TeamMember.allocatedCapacity m)) as [|Hle]; [done|].
    assert (Ha : TeamMember.allocatedCapacity m == 0) by lra.
    destruct (utilization_unallocated m Ha) as [Hf _]. congruence.
Qed.

(** ** Recommendations *)

Lemma generateRecommendations_shape st ns us uu ou :
  let recs := generateRecommendations st ns us uu ou in
  recs ≠ [] ∧
  (Report.WellBalanced ∈ recs ↔ ns = [] ∧ us = [] ∧ uu = [] ∧ ou = []) ∧
  (Report.WellBalanced ∈ recs → recs = [Report.WellBalanced]) ∧
  (∀ n, Report.NoStaffing n ∈ recs ↔ ns ≠ [] ∧ n = length ns) ∧
  (∀ n, Report.UnderStaffedItems n ∈ recs ↔ us ≠ [] ∧ n = length us) ∧
  (∀ n, Report.AvailableCapacity n ∈ recs ↔ uu ≠ [] ∧ n = length uu) ∧
  (∀ n, Report.OverAllocated n ∈ recs ↔ ou ≠ [] ∧ n = length ou) ∧
  (∀ l, Report.MissingFTE l ∈ recs
        ↔ ns ≠ [] ∧ l ≠ [] ∧ l = analyzeMissingFTETypes st ns).
Proof.
  unfold generateRecommendations.
  destruct ns as [|n0 ns], us as [|u0 us], uu as [|v0 uu], ou as [|o0 ou];
    try destruct (analyzeMissingFTETypes st (n0 :: ns)) as [|f0 fs] eqn:E;
    simpl; split_and!; try done; intros;
    rewrite ?elem_of_cons, ?elem_of_nil in *;
    intuition (simplify_eq; try done; try congruence).
Qed.

(** X19.  The recommendations of a report are never empty.  The
    well-balanced message appears exactly when no item is not-staffed or
    under-staffed and no member is under- or over-utilized, and then it is
    the only one; each of the four counting messages appears exactly when
    its list is not empty, and carries the length of that list. *)
Theorem recommendations_shape (st : t) :
  let report := (optimize st).2 in
  let recs := Report.recommendations report in
  let buckets := Report.itemsByStatus report in
  recs ≠ [] ∧
  (Report.WellBalanced ∈ recs
   ↔ Report.notStaffed buckets = [] ∧ Report.underStaffed buckets = [] ∧
     Report.underUtilized report = [] ∧ Report.overUtilized report = []) ∧
  (Report.WellBalanced ∈ recs → recs = [Report.WellBalanced]) ∧
  (∀ n, Report.NoStaffing n ∈ recs
        ↔ Report.notStaffed buckets ≠ [] ∧
          n = length (Report.notStaffed buckets)) ∧
  (∀ n, Report.UnderStaffedItems n ∈ recs
        ↔ Report.underStaffed buckets ≠ [] ∧
          n = length (Report.underStaffed buckets)) ∧
  (∀ n, Report.AvailableCapacity n ∈ recs
        ↔ Report.underUtilized report ≠ [] ∧
          n = length (Report.underUtilized report)) ∧
  (∀ n, Report.OverAllocated n ∈ recs
        ↔ Report.overUtilized report ≠ [] ∧
          n = length (Report.overUtilized report)).
Proof.
  simpl.
  destruct (generateRecommendations_shape (allocateAll st)
              (itemsWithStatus (allocateAll st) NotStaffed)
              (itemsWithStatus (allocateAll st) UnderStaffed)
              (List.filter isUnderUtilized (teamMembers (allocateAll st)))
              (List.filter isOverUtilized (teamMembers (allocateAll st))))
    as (H1 & H2 & H3 & H4 & H5 & H6 & H7 & _).
  assert (Hmap : ∀ l : list RoadmapItem.t, map enhance l = [] ↔ l = []).
  { intros l. by destruct l. }
  rewrite !length_map, !Hmap. split_and!; try done.
  - intros n. by rewrite Hmap.
  - intros n. by rewrite Hmap.
Qed.

(** ** Missing FTE types *)

Lemma Platform_eqb_spec (a b : Platform) : reflect (a = b) (Platform_eqb a b).
Proof. destruct a, b; simpl; constructor; congruence. Qed.

Lemma shortageOf_nonneg st p it : 0 <= shortageOf st p it.
Proof.
  unfold shortageOf. destruct (RoadmapItem.effortBreakdown it); [|lra].
  destruct (Qltb _ _); [apply Q.le_max_l | lra].
Qed.

Lemma missingOf_addShortage p q s l :
  missingOf p (addShortage q s l) =
  if Platform_eqb q p
  then Some (match missingOf q l with
             | Some v => (if Qeq_bool v 0 then 0 else v) + s
             | None => 0 + s
             end)
  else missingOf p l.
Proof.
  induction l as [|[r v] l IH]; simpl.
  - done.
  - destruct (Platform_eqb_spec r q) as [->|Hrq]; simpl.
    + destruct (Platform_eqb_spec q p) as [->|Hqp]; simpl; [|done].
      by destruct (Platform_eqb_spec p p).
    + rewrite IH. destruct (Platform_eqb_spec q p) as [->|Hqp].
      * by destruct (Platform_eqb_spec r p).
      * done.
Qed.

Lemma addShortage_keys q s l :
  (addShortage q s l).*1 = if decide (q ∈ l.*1) then l.*1 else l.*1 ++ [q].
Proof.
  induction l as [|[r v] l IH]; [done|]. cbn [addShortage].
  destruct (Platform_eqb_spec r q) as [->|Hrq]; rewrite !fmap_cons; cbn [fst].
  - rewrite decide_True; [done | by left].
  - rewrite IH. destruct (decide (q ∈ l.*1)) as [Hin|Hin].
    + rewrite decide_True; [done | by right].
    + rewrite decide_False; [done|]. rewrite elem_of_cons.
      intros [E|?]; [by symmetry in E | done].
Qed.

Lemma addShortage_NoDup q s l : NoDup l.*1 → NoDup (addShortage q s l).*1.
Proof.
  intros Hl. rewrite addShortage_keys. destruct (decide _); [done|].
  apply NoDup_app. split_and!; [done | | apply NoDup_singleton].
  intros x Hx Hx'. apply list_elem_of_singleton in Hx'. by subst.
Qed.

Lemma missingOf_elem_of p v l :
  NoDup l.*1 → ((p, v) ∈ l ↔ missingOf p l = Some v).
Proof.
  induction l as [|[r w] l IH]; simpl; intros Hl.
  - rewrite elem_of_nil. split; [tauto | done].
  - apply NoDup_cons in Hl as [Hr Hl]. rewrite elem_of_cons, IH by done.
    destruct (Platform_eqb_spec r p) as [->|Hrp].
    + split; [intros [?|Hm]; [by simplify_eq|] | intros; left; by simplify_eq].
      exfalso. apply Hr. apply IH in Hm; [|done].
      apply list_elem_of_fmap. by exists (p, v).
    + split; [intros [?|?]; [by simplify_eq | done] | by right].
Qed.

Lemma missingOf_None p l : missingOf p l = None ↔ ¬ p ∈ l.*1.
Proof.
  induction l as [|[r w] l IH]; simpl.
  - rewrite elem_of_nil. tauto.
  - rewrite elem_of_cons. destruct (Platform_eqb_spec r p) as [->|Hrp].
    + split; [done | intros H; destruct H; by left].
    + rewrite IH. split; [intros H [E|?]; [by symmetry in E | done] | tauto].
Qed.

Lemma missingInv_step st it l acc q :
  missingInv l acc →
  missingInv
    (match RoadmapItem.effortBreakdown it with
     | None => l
     | Some effort =>
         if Qltb 0 (RoadmapItem.effortOf q effort) then
           if Qltb 0 (Qmax 0 (RoadmapItem.effortOf q effort / 13
                              - getAvailableCapacityForSkills st
                                  (Allocation.platformSkills q)))
           then addShortage q
                  (Qmax 0 (RoadmapItem.effortOf q effort / 13
                           - getAvailableCapacityForSkills st
                               (Allocation.platformSkills q))) l
           else l
         else l
     end)
    (fun p => if Platform_eqb q p then acc p + shortageOf st q it else acc p).
Proof.
  intros [Hnd Hacc]. unfold shortageOf.
  assert (Hsame : missingInv l
            (fun p => if Platform_eqb q p then acc p + 0 else acc p)).
  { split; [done|]. intros p. specialize (Hacc p).
    destruct (missingOf p l), (Platform_eqb q p); try done.
    - split; [tauto | lra].
    - lra. }
  destruct (RoadmapItem.effortBreakdown it) as [e|]; [|done].
  destruct (Qltb 0 (RoadmapItem.effortOf q e)); [|done].
  set (s := Qmax 0 _).
  destruct (Qltb 0 s) eqn:Hs.
  - apply Qltb_lt in Hs. split; [by apply addShortage_NoDup|].
    intros p. rewrite missingOf_addShortage.
    destruct (Platform_eqb_spec q p) as [->|Hqp]; [|apply Hacc].
    specialize (Hacc p). destruct (missingOf p l) as [v|].
    + destruct Hacc as [Hv Hva].
      destruct (Qeq_bool v 0) eqn:Hv0.
      * apply Qeq_bool_iff in Hv0. lra.
      * split; lra.
    + split; lra.
  - assert (Hs0 : s == 0).
    { apply Qle_antisym; [|apply Q.le_max_l].
      apply Qnot_lt_le. intros Hlt. apply Qltb_lt in Hlt. congruence. }
    split; [done|]. intros p. specialize (Hacc p).
    destruct (missingOf p l), (Platform_eqb q p); try done.
    + split; [tauto | lra].
    + lra.
Qed.

Lemma missingInv_proper l acc acc' :
  (∀ p, acc p == acc' p) → missingInv l acc → missingInv l acc'.
Proof.
  intros He [Hnd Hacc]. split; [done|]. intros p.
  specialize (Hacc p). specialize (He p).
  destruct (missingOf p l); [split; [tauto | lra] | lra].
Qed.

Lemma missingInv_fold st items : ∀ l acc,
  missingInv l acc →
  missingInv
    (fold_left
       (fun missingTypes it =>
          match RoadmapItem.effortBreakdown it with
          | None => missingTypes
          | Some effort =>
              fold_left
                (fun missingTypes platform =>
                   let platformEffort := RoadmapItem.effortOf platform effort in
                   if Qltb 0 platformEffort then
                     let neededFTE := platformEffort / 13 in
                     let availableCapacity :=
                       getAvailableCapacityForSkills st
                         (Allocation.platformSkills platform) in
                     let shortage := Qmax 0 (neededFTE - availableCapacity) in
                     if Qltb 0 shortage
                     then addShortage platform shortage missingTypes
                     else missingTypes
                   else missingTypes)
                [Ios; Android; Web; Backend] missingTypes
          end)
       items l)
    (fun p => acc p + sumOf (shortageOf st p) items).
Proof.
  induction items as [|it items IH]; intros l acc Hinv.
  - simpl. eapply missingInv_proper; [|exact Hinv].
    intros p. unfold sumOf. simpl. lra.
  - cbn [fold_left].
    eapply missingInv_proper; [|apply IH]; cycle 1.
    + pose proof (missingInv_step st it _ _ Ios Hinv) as H1.
      pose proof (missingInv_step st it _ _ Android H1) as H2.
      pose proof (missingInv_step st it _ _ Web H2) as H3.
      pose proof (missingInv_step st it _ _ Backend H3) as H4.
      clear H1 H2 H3.
      destruct (RoadmapItem.effortBreakdown it) as [e|] eqn:He; exact H4.
    + intros p. cbv beta. rewrite sumOf_cons.
      destruct p; simpl; lra.
Qed.

(** X20. [analyzeMissingFTETypes] lists each role at most once; a listed
    role carries a positive number, the sum over the given items of the part
    of the item's effort for that platform (in FTE of 13 weeks) that exceeds
    the capacity available for the platform's skills, the same available
    capacity being compared with every item; a role is left out exactly when
    that sum is zero. *)
Theorem missing_fte_types (st : t) (items : list RoadmapItem.t) :
  let missing := analyzeMissingFTETypes st items in
  NoDup missing.*1 ∧
  (∀ p v, (p, v) ∈ missing → 0 < v ∧ v == sumOf (shortageOf st p) items) ∧
  (∀ p, ¬ p ∈ missing.*1 ↔ sumOf (shortageOf st p) items == 0).
Proof.
  intros missing.
  assert (Hinv : missingInv missing (fun p => sumOf (shortageOf st p) items)).
  { eapply missingInv_proper;
      [|apply (missingInv_fold st items [] (fun _ => 0))].
    - intros p. cbv beta. lra.
    - split; [constructor | by intros p]. }
  destruct Hinv as [Hnd Hacc]. split_and!; [done | |].
  - intros p v Hin. apply missingOf_elem_of in Hin; [|done].
    specialize (Hacc p). by rewrite Hin in Hacc.
  - intros p. rewrite <- missingOf_None. specialize (Hacc p).
    destruct (missingOf p missing) as [v|]; [|done].
    split; [done|]. intros Hz. lra.
Qed.

(** ** The inputs a run leaves alone *)

Lemma items_statics st :
  Forall2 (fun x x' => eraseItem x' = eraseItem x)
          (roadmapItems st) (roadmapItems (allocateAll st)).
Proof.
  destruct (sameStatics_allocateAll st) as [_ H].
  apply Forall2_same_length_lookup. split.
  - apply (f_equal length) in H. by rewrite !length_fmap in H.
  - intros i x y Hx Hy.
    apply (f_equal (.!! i)) in H. rewrite !list_lookup_fmap, Hx, Hy in H.
    simpl in H. congruence.
Qed.

(** X21. [optimize] writes only the fields the engine owns: the members
    and the items stay in their arrays in the same order, a member keeps its
    name, level, skills, capacity, interests and career goals, and an item
    keeps everything but [assignedMembers] and [allocationStatus]. *)
Theorem optimize_leaves_inputs (st : t) :
  let st' := (optimize st).1 in
  Forall2 (fun m m' =>
             TeamMember.name m' = TeamMember.name m ∧
             TeamMember.level m' = TeamMember.level m ∧
             TeamMember.skills m' = TeamMember.skills m ∧
             TeamMember.capacity m' = TeamMember.capacity m ∧
             TeamMember.interests m' = TeamMember.interests m ∧
             TeamMember.careerGoals m' = TeamMember.careerGoals m)
          (teamMembers st) (teamMembers st') ∧
  Forall2 (fun x x' =>
             RoadmapItem.name x' = RoadmapItem.name x ∧
             RoadmapItem.description x' = RoadmapItem.description x ∧
             RoadmapItem.size x' = RoadmapItem.size x ∧
             RoadmapItem.complexity x' = RoadmapItem.complexity x ∧
             RoadmapItem.requiredSkills x' = RoadmapItem.requiredSkills x ∧
             RoadmapItem.domain x' = RoadmapItem.domain x ∧
             RoadmapItem.minLevel x' = RoadmapItem.minLevel x ∧
             RoadmapItem.careerOpportunities x'
               = RoadmapItem.careerOpportunities x ∧
             RoadmapItem.priority x' = RoadmapItem.priority x ∧
             RoadmapItem.effortBreakdown x' = RoadmapItem.effortBreakdown x)
          (roadmapItems st) (roadmapItems st').
Proof.
  simpl. split.
  - eapply Forall2_impl; [apply members_statics|].
    intros m m' H. simpl in H.
    split_and!.
    + exact (f_equal TeamMember.name H).
    + exact (f_equal TeamMember.level H).
    + exact (f_equal TeamMember.skills H).
    + exact (f_equal TeamMember.capacity H).
    + exact (f_equal TeamMember.interests H).
    + exact (f_equal TeamMember.careerGoals H).
  - eapply Forall2_impl; [apply items_statics|].
    intros x x' H. simpl in H.
    split_and!.
    + exact (f_equal RoadmapItem.name H).
    + exact (f_equal RoadmapItem.description H).
    + exact (f_equal RoadmapItem.size H).
    + exact (f_equal RoadmapItem.complexity H).
    + exact (f_equal RoadmapItem.requiredSkills H).
    + exact (f_equal RoadmapItem.domain H).
    + exact (f_equal RoadmapItem.minLevel H).
    + exact (f_equal RoadmapItem.careerOpportunities H).
    + exact (f_equal RoadmapItem.priority H).
    + exact (f_equal RoadmapItem.effortBreakdown H).
Qed.

(** ** The ledger of a run *)

Lemma calculateScore_statics m m' x x' amount :
  resetMember m = resetMember m' → eraseItem x = eraseItem x' →
  Allocation.calculateScore m x amount = Allocation.calculateScore m' x' amount.
Proof.
  intros Hm Hx. destruct m, m', x, x'.
  unfold resetMember, eraseItem, withAllocationStatus, withAssignedMembers
    in Hm, Hx.
  simpl in Hm, Hx. injection Hm as -> -> -> -> -> ->.
  injection Hx as -> -> -> -> -> -> -> -> -> ->.
  reflexivity.
Qed.

Lemma sameStatics_member st0 st i m :
  sameStatics st0 st → teamMembers st !! i = Some m →
  ∃ m0, teamMembers st0 !! i = Some m0 ∧ resetMember m = resetMember m0.
Proof.
  intros [H _] Hm. apply (f_equal (.!! i)) in H.
  rewrite !list_lookup_fmap, Hm in H. simpl in H.
  destruct (teamMembers st0 !! i) as [m0|]; [|done].
  exists m0. split; [done|]. simpl in H. congruence.
Qed.

Lemma sameStatics_item st0 st j x :
  sameStatics st0 st → roadmapItems st !! j = Some x →
  ∃ x0, roadmapItems st0 !! j = Some x0 ∧ eraseItem x = eraseItem x0.
Proof.
  intros [_ H] Hx. apply (f_equal (.!! j)) in H.
  rewrite !list_lookup_fmap, Hx in H. simpl in H.
  destruct (roadmapItems st0 !! j) as [x0|]; [|done].
  exists x0. split; [done|]. simpl in H. congruence.
Qed.

Lemma sameStatics_sym st0 st : sameStatics st0 st → sameStatics st st0.
Proof. intros [H1 H2]. by split. Qed.

Lemma sameStatics_memberName st0 st i :
  sameStatics st0 st → memberName st i = memberName st0 i.
Proof.
  intros H. unfold memberName.
  destruct (teamMembers st !! i) as [m|] eqn:Hm.
  - destruct (sameStatics_member _ _ _ _ H Hm) as (m0 & -> & E).
    exact (f_equal TeamMember.name E).
  - destruct (teamMembers st0 !! i) as [m0|] eqn:Hm0; [|done].
    destruct (sameStatics_member _ _ _ _ (sameStatics_sym _ _ H) Hm0)
      as (m' & ? & _). congruence.
Qed.

Lemma sameStatics_itemName st0 st j :
  sameStatics st0 st → itemName st j = itemName st0 j.
Proof.
  intros H. unfold itemName.
  destruct (roadmapItems st !! j) as [x|] eqn:Hx.
  - destruct (sameStatics_item _ _ _ _ H Hx) as (x0 & -> & E).
    exact (f_equal RoadmapItem.name E).
  - destruct (roadmapItems st0 !! j) as [x0|] eqn:Hx0; [|done].
    destruct (sameStatics_item _ _ _ _ (sameStatics_sym _ _ H) Hx0)
      as (x' & ? & _). congruence.
Qed.

Lemma ledger_commit st0 itemIdx it :
  commitStable (fun st => ledger st0 st ∧ isItem itemIdx it st) itemIdx it.
Proof.
  intros st idx m remaining amount [(Hs & Hsc & Hi & Hm) Hit] Hidx _ Hg.
  destruct (sameStatics_member _ _ _ _ Hs Hidx) as (m0 & Hm0 & Em).
  unfold isItem in Hit.
  destruct (roadmapItems st !! itemIdx) as [y|] eqn:Hy; [|done].
  simpl in Hit.
  destruct (sameStatics_item _ _ _ _ Hs Hy) as (x0 & Hx0 & Ex).
  assert (Eit : eraseItem it = eraseItem x0) by congruence.
  assert (En : TeamMember.name m = TeamMember.name m0)
    by exact (f_equal TeamMember.name Em).
  assert (En' : RoadmapItem.name it = RoadmapItem.name x0)
    by exact (f_equal RoadmapItem.name Eit).
  assert (Hs' : sameStatics st0 (commit idx itemIdx m it amount st)).
  { apply (sameStatics_commit st0 itemIdx it st idx m remaining amount);
      [done | done | by rewrite Hy | done]. }
  split; [split_and!|]; [done| | | |].
  - simpl. apply Forall_app. split; [done|].
    apply Forall_singleton. exists m0, x0. simpl.
    split_and!; [done..|]. by apply calculateScore_statics.
  - intros j x Hx. simpl in *. rewrite filter_app, fmap_app.
    destruct (decide (itemIdx = j)) as [<-|Hne].
    + rewrite list_lookup_alter_eq, Hy in Hx. simpl in Hx.
      assert (E : x = recordOnItem (TeamMember.name m) amount y) by congruence.
      rewrite E. simpl. rewrite (Hi itemIdx y Hy). f_equal.
      rewrite filter_cons_True by done. simpl.
      unfold itemRecord, memberName. simpl. rewrite Hm0. simpl.
      by rewrite En.
    + rewrite list_lookup_alter_ne in Hx by done. rewrite (Hi j x Hx).
      rewrite filter_cons_False by (simpl; congruence).
      by rewrite filter_nil, app_nil_r.
  - intros i x Hx. simpl in *. rewrite filter_app, fmap_app.
    destruct (decide (idx = i)) as [<-|Hne].
    + rewrite list_lookup_alter_eq, Hidx in Hx. simpl in Hx.
      assert (E : x = recordOnMember (RoadmapItem.name it) amount m)
        by congruence.
      rewrite E. simpl. rewrite (Hm idx m Hidx). simpl. do 2 f_equal.
      rewrite filter_cons_True by done. simpl.
      unfold memberRecord, itemName. simpl. rewrite Hx0. simpl.
      by rewrite En'.
    + rewrite list_lookup_alter_ne in Hx by done. rewrite (Hm i x Hx).
      rewrite filter_cons_False by (simpl; congruence).
      by rewrite filter_nil, app_nil_r.
  - unfold isItem. simpl. rewrite list_lookup_alter_eq, Hy.
    rewrite <- Hit. reflexivity.
Qed.

Lemma ledger_status st0 itemIdx : statusStable (ledger st0) itemIdx.
Proof.
  intros st s (Hs & Hsc & Hi & Hm). split_and!.
  - by apply sameStatics_status.
  - done.
  - intros j x Hx. simpl in *.
    destruct (decide (itemIdx = j)) as [<-|Hne].
    + rewrite list_lookup_alter_eq in Hx.
      destruct (roadmapItems st !! itemIdx) as [y|] eqn:Hy; [|done].
      simpl in Hx. assert (E : x = withAllocationStatus (Some s) y)
        by congruence.
      rewrite E. simpl. by apply Hi.
    + rewrite list_lookup_alter_ne in Hx by done. by apply Hi.
  - done.
Qed.

Lemma ledger_allocateItem st0 st itemIdx :
  ledger st0 st → ledger st0 (allocateItem st itemIdx).
Proof.
  intros H. unfold allocateItem.
  destruct (roadmapItems st !! itemIdx) as [it|] eqn:Hit; [|done].
  destruct (allocLoop _ _ _ _ _) as [remaining st'] eqn:Hloop.
  apply ledger_status.
  change st' with (remaining, st').2. rewrite <- Hloop.
  eapply proj1.
  apply (allocLoop_inv (fun st => ledger st0 st ∧ isItem itemIdx it st)).
  - apply ledger_commit.
  - by rewrite Hit.
  - split; [done|]. unfold isItem. by rewrite Hit.
Qed.

Lemma ledger_reset st : ledger st (reset st).
Proof.
  split_and!.
  - apply sameStatics_reset.
  - constructor.
  - intros j x Hx. simpl in *. rewrite list_lookup_fmap in Hx.
    destruct (roadmapItems st !! j) as [y|]; [|done]. simpl in Hx.
    assert (E : x = withAssignedMembers [] y) by congruence. by rewrite E.
  - intros i m Hm. simpl in *. rewrite list_lookup_fmap in Hm.
    destruct (teamMembers st !! i) as [m0|]; [|done]. simpl in Hm.
    assert (E : m = resetMember m0) by congruence. by rewrite E.
Qed.

Lemma ledger_allocateAll st : ledger st (allocateAll st).
Proof.
  unfold allocateAll. apply fold_allocateItem_inv; [|apply ledger_reset].
  intros st' i _. apply ledger_allocateItem.
Qed.

Lemma scored_statics st0 st a :
  sameStatics st0 st → scored st0 a → scored st a.
Proof.
  intros Hs (m0 & x0 & Hm0 & Hx0 & E).
  destruct (sameStatics_member _ _ _ _ (sameStatics_sym _ _ Hs) Hm0)
    as (m & Hm & Em).
  destruct (sameStatics_item _ _ _ _ (sameStatics_sym _ _ Hs) Hx0)
    as (x & Hx & Ex).
  exists m, x. split_and!; [done..|]. rewrite E.
  by apply calculateScore_statics.
Qed.

(** X22. Every allocation of a run pairs a member and an item of the
    optimizer and carries the score [calculateScore] gives that pair at the
    amount committed; the report has one row per allocation, in the same
    order, with the two names, the amount and that score, and counts the
    rows in [totalAssignments]. *)
Theorem allocation_rows (st : t) :
  let st' := (optimize st).1 in
  let report := (optimize st).2 in
  Forall2 (fun a row =>
             ∃ m x,
               teamMembers st' !! Allocation.member a = Some m ∧
               roadmapItems st' !! Allocation.item a = Some x ∧
               Report.member row = TeamMember.name m ∧
               Report.item row = RoadmapItem.name x ∧
               Report.allocation row = Allocation.allocation a ∧
               Report.score row
                 = Allocation.calculateScore m x (Allocation.allocation a))
          (allocations st') (Report.allocations report) ∧
  Report.totalAssignments (Report.summary report)
    = length (Report.allocations report).
Proof.
  simpl. split; [|by rewrite length_map].
  destruct (ledger_allocateAll st) as (Hs & Hsc & _).
  apply Forall2_fmap_r, Forall_Forall2_diag.
  eapply Forall_impl; [exact Hsc|].
  intros a Ha. apply (scored_statics _ _ _ Hs) in Ha.
  destruct Ha as (m & x & Hm & Hx & E).
  exists m, x. unfold reportRow. simpl. rewrite Hm, Hx. simpl.
  by split_and!.
Qed.

Lemma percentage_range (amount : Q) :
  (1 # 10) < amount → amount <= 1 # 2 →
  (10 ≤ Num.roundHalfUp (amount * 100) ≤ 50)%Z.
Proof.
  intros Hlo Hhi. split.
  - change 10%Z with (Qfloor (inject_Z 10)) at 1.
    unfold Num.roundHalfUp. apply Qfloor_resp_le.
    assert (E : inject_Z 10 == 10) by reflexivity. lra.
  - change 50%Z with (Qfloor ((101 # 2))).
    unfold Num.roundHalfUp. apply Qfloor_resp_le. lra.
Qed.

(** X23. After a run [item.assignedMembers] holds one entry per
    allocation of the item and [member.assignments] one per allocation of
    the member, in the order of the allocation list; an entry carries the
    name of the member (of the item), the amount, and as percentage the
    amount times 100 rounded, a whole number from 10 to 50. *)
Theorem records_name_their_allocation (st : t) :
  let st' := (optimize st).1 in
  (∀ j x, roadmapItems st' !! j = Some x →
     RoadmapItem.assignedMembers x
     = itemRecord st'
         <$> filter (fun a => Allocation.item a = j) (allocations st')) ∧
  (∀ i m, teamMembers st' !! i = Some m →
     TeamMember.assignments m
     = Some (memberRecord st'
               <$> filter (fun a => Allocation.member a = i)
                     (allocations st'))) ∧
  Forall (fun a =>
            (10 ≤ Num.roundHalfUp (Allocation.allocation a * 100) ≤ 50)%Z)
         (allocations st').
Proof.
  cbv zeta. change (optimize st).1 with (allocateAll st).
  destruct (ledger_allocateAll st) as (Hs & _ & Hi & Hm).
  split_and!.
  - intros j x Hx. rewrite (Hi j x Hx). apply list_fmap_ext.
    intros ? a _. unfold itemRecord.
    by rewrite (sameStatics_memberName _ _ _ Hs).
  - intros i m Hi'. rewrite (Hm i m Hi'). f_equal. apply list_fmap_ext.
    intros ? a _. unfold memberRecord.
    by rewrite (sameStatics_itemName _ _ _ Hs).
  - destruct (allocationsOk_allocateAll st) as [_ H].
    eapply Forall_impl; [exact H|].
    intros a (Hlo & Hhi & _). by apply percentage_range.
Qed.

(** ** No capacity is left beside a shortfall *)

Lemma noFreer_refl st : noFreer st st.
Proof.
  split; [done|]. intros k m0 m H0 H.
  assert (m = m0) by congruence. subst. lra.
Qed.

Lemma noFreer_commit st0 itemIdx it : commitStable (noFreer st0) itemIdx it.
Proof.
  intros st idx m remaining amount [Hlen H] Hidx _ Hg.
  destruct (guarded_amount _ _ _ Hg) as (Hlo & _).
  split; simpl; [by rewrite length_alter|].
  intros k m0 m' Hm0 Hm'.
  destruct (decide (idx = k)) as [<-|Hne].
  - rewrite list_lookup_alter_eq, Hidx in Hm'. simpl in Hm'.
    assert (E : m' = recordOnMember (RoadmapItem.name it) amount m)
      by congruence.
    specialize (H idx m0 m Hm0 Hidx). rewrite E.
    unfold TeamMember.getAvailableCapacity, recordOnMember in *.
    cbn [TeamMember.capacity TeamMember.allocatedCapacity].
    revert H. qminmax; lra.
  - rewrite list_lookup_alter_ne in Hm' by done. by apply (H k).
Qed.

Lemma noFreer_status st0 itemIdx : statusStable (noFreer st0) itemIdx.
Proof. by intros st s H. Qed.

Lemma noFreer_allocateItem st i : noFreer st (allocateItem st i).
Proof.
  apply allocateItem_inv; [| |apply noFreer_refl].
  - intros it _. apply noFreer_commit.
  - apply noFreer_status.
Qed.

Lemma noFreer_lookup st0 st k m :
  noFreer st0 st → teamMembers st !! k = Some m →
  ∃ m0, teamMembers st0 !! k = Some m0 ∧
        TeamMember.getAvailableCapacity m <= TeamMember.getAvailableCapacity m0.
Proof.
  intros [Hlen H] Hm.
  destruct (teamMembers st0 !! k) as [m0|] eqn:Hm0.
  - exists m0. split; [done|]. by apply (H k).
  - apply lookup_ge_None in Hm0. apply lookup_lt_Some in Hm. lia.
Qed.

Lemma potentialsFrom_complete members it n k m :
  members !! k = Some m → (1 # 10) < TeamMember.getAvailableCapacity m →
  ∃ p, p ∈ potentialsFrom n members it ∧ member p = (n + k)%nat.
Proof.
  revert n k. induction members as [|m' l IH]; intros n k Hk Hav; [done|].
  simpl. destruct k as [|k]; simpl in Hk.
  - assert (m' = m) by congruence. subst m'.
    apply Qltb_lt in Hav. rewrite Hav.
    eexists. split; [by left|]. simpl. lia.
  - destruct (IH (S n) k Hk Hav) as (p & Hp & E).
    exists p. split; [|lia].
    destruct (Qltb _ _); [by right | done].
Qed.

(** A candidate passed over while the loop ran either had, or left, no
    meaningful amount. *)
Lemma allocLoop_spareless i it potentials :
  ∀ remaining st, is_Some (roadmapItems st !! i) →
    ∀ k m', k ∈ member <$> potentials →
      teamMembers (allocLoop i it potentials remaining st).2 !! k = Some m' →
      (1 # 10) < (allocLoop i it potentials remaining st).1 →
      (1 # 10) < TeamMember.getAvailableCapacity m' →
      ∃ a, a ∈ allocations (allocLoop i it potentials remaining st).2 ∧
           Allocation.member a = k ∧ Allocation.item a = i.
Proof.
  induction potentials as [|q rest IH]; intros remaining st Hsome k m' Hk;
    [by apply elem_of_nil in Hk|].
  assert (Hrest : ∀ remaining st,
            is_Some (roadmapItems st !! i) → k ≠ member q →
            teamMembers (allocLoop i it rest remaining st).2 !! k = Some m' →
            (1 # 10) < (allocLoop i it rest remaining st).1 →
            (1 # 10) < TeamMember.getAvailableCapacity m' →
            ∃ a, a ∈ allocations (allocLoop i it rest remaining st).2 ∧
                 Allocation.member a = k ∧ Allocation.item a = i).
  { intros r s Hs Hne. apply IH; [done|].
    rewrite fmap_cons in Hk. apply elem_of_cons in Hk as [?|?]; done. }
  assert (Hskip :
            teamMembers (allocLoop i it rest remaining st).2 !! k = Some m' →
            (∀ m, teamMembers st !! member q = Some m →
                  (1 # 10) < remaining →
                  (1 # 10) < TeamMember.getAvailableCapacity m → False) →
            (1 # 10) < (allocLoop i it rest remaining st).1 →
            (1 # 10) < TeamMember.getAvailableCapacity m' →
            ∃ a, a ∈ allocations (allocLoop i it rest remaining st).2 ∧
                 Allocation.member a = k ∧ Allocation.item a = i).
  { intros Hm' Hno Hr Hav.
    destruct (decide (k = member q)) as [->|Hne]; [|by apply Hrest].
    exfalso.
    pose proof (allocLoop_inv (noFreer st) i it (noFreer_commit st i it)
                  rest remaining st Hsome (noFreer_refl st)) as Hnf.
    destruct (noFreer_lookup _ _ _ _ Hnf Hm') as (m0 & Hm0 & Hle).
    destruct (allocLoop_effect i it rest remaining st)
      as (new & _ & H2 & _ & H4 & _).
    assert (Hpos : 0 <= sumOf Allocation.allocation new).
    { clear -H2. induction H2 as [|a l [_ Ha] _ IHl]; [by rewrite sumOf_nil|].
      rewrite sumOf_cons. lra. }
    apply (Hno m0 Hm0); lra. }
  simpl.
  destruct (Qle_bool remaining 0) eqn:Hrem.
  { simpl. apply Qle_bool_iff in Hrem. intros _ Hr. lra. }
  apply Qle_bool_gt in Hrem.
  destruct (teamMembers st !! member q) as [m|] eqn:Hm.
  2:{ intros Hm'. apply Hskip; [done|]. intros m0 Hm0. done. }
  destruct (Qle_bool (TeamMember.getAvailableCapacity m) 0) eqn:Hav.
  { apply Qle_bool_iff in Hav. intros Hm'. apply Hskip; [done|].
    intros m0 Hm0 _ Hgt. assert (m0 = m) by congruence. subst. lra. }
  apply Qle_bool_gt in Hav.
  destruct (Qltb _ _) eqn:Hamt.
  - apply Qltb_lt in Hamt.
    set (amount := Qmin (Qmin remaining (TeamMember.getAvailableCapacity m))
                        (1 # 2)) in *.
    set (st1 := commit (member q) i m it amount st).
    assert (Hsome1 : is_Some (roadmapItems st1 !! i))
      by by apply commit_item_is_Some.
    intros Hm' Hr Hav'.
    destruct (decide (k = member q)) as [->|Hne]; [|by apply Hrest].
    destruct (allocLoop_effect i it rest (remaining - amount) st1)
      as (new & H1 & _).
    eexists. split; [|split].
    + rewrite H1. apply elem_of_app. left. unfold st1. simpl.
      apply elem_of_app. right. by apply list_elem_of_singleton.
    + done.
    + done.
  - apply Qltb_ge in Hamt. intros Hm'. apply Hskip; [done|].
    intros m0 Hm0 Hr Hgt. assert (m0 = m) by congruence. subst m0.
    revert Hamt. qminmax; lra.
Qed.

Lemma allocatedTo_app_other st st' new i j :
  allocations st' = allocations st ++ new → i ≠ j →
  Forall (fun a => Allocation.item a = i ∧ 0 < Allocation.allocation a) new →
  allocatedTo st' j = allocatedTo st j.
Proof.
  intros H Hne Hnew. unfold allocatedTo.
  by rewrite H, filter_app, (filter_item_other i j new _ Hne Hnew), app_nil_r.
Qed.

Lemma sameStatics_refl st : sameStatics st st.
Proof. by split. Qed.

Lemma greedy_allocateItem (D : nat → Prop) st i :
  ¬ D i → greedy D st → greedy (fun j => j = i ∨ D j) (allocateItem st i).
Proof.
  intros HDi [Hal Hsp].
  destruct (roadmapItems st !! i) as [it|] eqn:Hit.
  2:{ unfold allocateItem. rewrite Hit. split.
      - eapply Forall_impl; [exact Hal|]. intros a Ha. by right.
      - intros j [->|Hj]; [|by apply Hsp].
        intros x k m Hx. congruence. }
  destruct (allocateItem_effect st i it Hit) as (new & H1 & H2 & _).
  split.
  - rewrite H1. apply Forall_app. split.
    + eapply Forall_impl; [exact Hal|]. intros a Ha. by right.
    + eapply Forall_impl; [exact H2|]. intros a [Ha _]. by left.
  - intros j [->|Hj].
    + intros x k m' Hx Hk Hshort Hav.
      unfold allocatedTo in Hshort.
      rewrite H1, filter_app, (filter_item_unhandled D i _ HDi Hal),
        (filter_item_same i new _ H2) in Hshort.
      simpl in Hshort.
      revert Hx Hk H1. unfold allocateItem. rewrite Hit.
      set (pots := jsSort byScoreDesc (findPotentialAllocations st it)).
      pose proof (allocLoop_spareless i it pots
                    (RoadmapItem.getRequiredCapacity it) st
                    ltac:(by rewrite Hit)) as Hloop.
      pose proof (allocLoop_inv (noFreer st) i it (noFreer_commit st i it)
                    pots (RoadmapItem.getRequiredCapacity it) st
                    ltac:(by rewrite Hit) (noFreer_refl st)) as Hnf.
      pose proof (allocLoop_inv (sameStatics st) i it
                    (sameStatics_commit st i it)
                    pots (RoadmapItem.getRequiredCapacity it) st
                    ltac:(by rewrite Hit) (sameStatics_refl st)) as Hss.
      destruct (allocLoop_effect i it pots
                  (RoadmapItem.getRequiredCapacity it) st)
        as (new' & H1' & _ & _ & H4' & _).
      destruct (allocLoop i it pots _ st) as [remaining st'] eqn:El.
      simpl in *. intros Hx Hk H1.
      assert (Hnew : new' = new).
      { rewrite H1' in H1. by apply app_inv_head in H1. }
      subst new'.
      destruct (noFreer_lookup _ _ _ _ Hnf Hk) as (m0 & Hm0 & Hle).
      destruct (potentialsFrom_complete (teamMembers st) it 0 k m0 Hm0
                  ltac:(lra)) as (p & Hp & Ep).
      simpl in Ep. subst k.
      assert (Hreq : RoadmapItem.getRequiredCapacity x
                     = RoadmapItem.getRequiredCapacity it).
      { rewrite list_lookup_alter_eq in Hx.
        destruct (sameStatics_item _ _ _ _ (sameStatics_sym _ _ Hss) Hit)
          as (y & Hy & Ey).
        rewrite Hy in Hx. simpl in Hx.
        assert (E : x = withAllocationStatus
                          (Some (getItemStatus it
                                   (RoadmapItem.getRequiredCapacity it
                                    - remaining))) y) by congruence.
        rewrite E. symmetry.
        exact (f_equal RoadmapItem.getRequiredCapacity Ey). }
      apply (Hloop (member p) m'); [| done | | done].
      * unfold pots. rewrite jsSort_Permutation.
        by apply list_elem_of_fmap_2.
      * rewrite Hreq in Hshort. lra.
    + destruct (decide (i = j)) as [->|Hne]; [done|].
      intros x k m' Hx Hk Hshort Hav.
      rewrite allocateItem_other_item in Hx by done.
      rewrite (allocatedTo_app_other st _ new i j H1 Hne H2) in Hshort.
      destruct (noFreer_lookup _ _ _ _ (noFreer_allocateItem st i) Hk)
        as (m0 & Hm0 & Hle).
      destruct (Hsp j Hj x k m0 Hx Hm0 Hshort ltac:(lra)) as (a & Ha & E).
      exists a. split; [|done]. rewrite H1. apply elem_of_app. by left.
Qed.

Lemma greedy_weaken (D D' : nat → Prop) st :
  (∀ j, D j ↔ D' j) → greedy D st → greedy D' st.
Proof.
  intros HD [H1 H2]. split.
  - eapply Forall_impl; [exact H1|]. intros a. apply HD.
  - intros j Hj. apply H2. by apply HD.
Qed.

Lemma greedy_fold (order : list nat) :
  ∀ (D : nat → Prop) st,
    NoDup order → (∀ j, j ∈ order → ¬ D j) → greedy D st →
    greedy (fun j => j ∈ order ∨ D j) (fold_left allocateItem order st).
Proof.
  induction order as [|i order IH]; intros D st Hnd Hfresh H.
  - simpl. eapply greedy_weaken; [|exact H].
    intros j. split; [by right|]. intros [Hj|Hj]; [|done].
    by apply elem_of_nil in Hj.
  - apply NoDup_cons in Hnd as [Hi Hnd]. simpl.
    eapply greedy_weaken;
      [|apply (IH (fun j => j = i ∨ D j)); [done| |apply greedy_allocateItem]].
    + intros j. rewrite elem_of_cons. tauto.
    + intros j Hj [->|HD]; [done|]. apply (Hfresh j); [by right|done].
    + apply Hfresh. by left.
    + done.
Qed.

Lemma greedy_allocateAll st j :
  is_Some (roadmapItems (allocateAll st) !! j) → spareless (allocateAll st) j.
Proof.
  intros Hj.
  assert (H : greedy (fun j => j ∈ sortedItems (reset st) ∨ False)
                (allocateAll st)).
  { unfold allocateAll. apply greedy_fold.
    - unfold sortedItems. rewrite jsSort_Permutation. apply NoDup_seq.
    - tauto.
    - split; [constructor | done]. }
  destruct H as [_ H]. apply H. left.
  unfold sortedItems. rewrite jsSort_Permutation.
  apply elem_of_seq. split; [lia|]. simpl.
  apply lookup_lt_is_Some in Hj.
  destruct (sameStatics_allocateAll st) as [_ Hi].
  apply (f_equal length) in Hi. rewrite !length_fmap in Hi.
  unfold reset. simpl. rewrite length_fmap. lia.
Qed.

(** X24. A run leaves no usable capacity beside an unmet need: when an
    item is still short of its required capacity and a member still has
    capacity available, both by more than 0.11, that member has been
    allocated to the item (with the 0.5 cap of one allocation).  The
    engine's own thresholds are at 0.1; the statement keeps clear of them
    by 0.01, so that it does not turn on the last digit of a sum. *)
Theorem shortfall_leaves_no_spare_member (st : t) (j i : nat)
    (x : RoadmapItem.t) (m : TeamMember.t) :
  roadmapItems (optimize st).1 !! j = Some x →
  teamMembers (optimize st).1 !! i = Some m →
  (11 # 100) < RoadmapItem.getRequiredCapacity x
               - RoadmapItem.getTotalAllocation x →
  (11 # 100) < TeamMember.getAvailableCapacity m →
  ∃ a, a ∈ allocations (optimize st).1 ∧
       Allocation.member a = i ∧ Allocation.item a = j.
Proof.
  simpl. intros Hx Hm Hshort Hav.
  apply (greedy_allocateAll st j ltac:(by rewrite Hx) x i m);
    [done | done | | lra].
  rewrite <- (getTotalAllocation_allocatedTo _ j x
                (itemsMirror_allocateAll st) Hx). lra.
Qed.

Lemma shortfall_leaves_no_spare_member_witness :
  let x := default Fixture.frontendRedesign
                   (roadmapItems (optimize fayAlone).1 !! 0%nat) in
  let m := default fay (teamMembers (optimize fayAlone).1 !! 0%nat) in
  (11 # 100) < RoadmapItem.getRequiredCapacity x
               - RoadmapItem.getTotalAllocation x ∧
  (11 # 100) < TeamMember.getAvailableCapacity m ∧
  ∃ a, a ∈ allocations (optimize fayAlone).1 ∧
       Allocation.member a = 0%nat ∧ Allocation.item a = 0%nat.
Proof.
  intros x m.
  assert (Hx : roadmapItems (optimize fayAlone).1 !! 0%nat = Some x)
    by by vm_compute.
  assert (Hm : teamMembers (optimize fayAlone).1 !! 0%nat = Some m)
    by by vm_compute.
  assert (Hshort : (11 # 100) < RoadmapItem.getRequiredCapacity x
                                - RoadmapItem.getTotalAllocation x)
    by by vm_compute.
  assert (Hav : (11 # 100) < TeamMember.getAvailableCapacity m)
    by by vm_compute.
  split; [exact Hshort|]. split; [exact Hav|].
  exact (shortfall_leaves_no_spare_member fayAlone 0 0 x m Hx Hm Hshort Hav).
Defined.

(** ** Best matches first *)

Lemma calculateScore_finite m it q :
  wellFormedItem it → ∃ s, Allocation.calculateScore m it q = Fin s.
Proof.
  intros Hwf. unfold Allocation.calculateScore, Allocation.levelAdjust.
  destruct (scoreBeforeLevel_range m it Hwf) as (b & -> & _).
  repeat case_match; simpl; eexists; reflexivity.
Qed.

Lemma StronglySorted_on {A : Type} (R R' : A → A → Prop) (l : list A) :
  (∀ a b, a ∈ l → b ∈ l → R a b → R' a b) →
  StronglySorted R l → StronglySorted R' l.
Proof.
  intros H Hs. induction Hs as [|x l Hl IH Hx]; constructor.
  - apply IH. intros a b Ha Hb. apply H; by right.
  - apply Forall_forall. intros y Hy. apply H; [by left|by right|].
    by apply (proj1 (Forall_forall _ _) Hx).
Qed.

Lemma StronglySorted_of_fmap {A B : Type} (f : A → B) (R : B → B → Prop)
    (l : list A) :
  StronglySorted R (f <$> l) ↔ StronglySorted (fun a b => R (f a) (f b)) l.
Proof.
  induction l as [|x l IH]; [split; constructor|].
  rewrite fmap_cons. split; intros H; inversion H as [|? ? Hl Hx]; subst.
  - constructor; [by apply IH|]. apply Forall_forall. intros y Hy.
    apply (proj1 (Forall_forall _ _) Hx). by apply list_elem_of_fmap_2.
  - constructor; [by apply IH|]. apply Forall_forall. intros y Hy.
    apply list_elem_of_fmap in Hy as (a & -> & Ha).
    by apply (proj1 (Forall_forall _ _) Hx).
Qed.

Lemma StronglySorted_sublist {A : Type} (R : A → A → Prop) (l k : list A) :
  sublist l k → StronglySorted R k → StronglySorted R l.
Proof.
  induction 1 as [|x l k Hs IH|x l k Hs IH]; intros Hk.
  - constructor.
  - inversion Hk as [|? ? Hk' Hx]; subst. constructor; [by apply IH|].
    apply Forall_forall. intros y Hy.
    apply (proj1 (Forall_forall _ _) Hx). by eapply elem_of_sublist.
  - inversion Hk; subst. by apply IH.
Qed.

(** The comparator [(a, b) => b.score - a.score] on finite scores puts the
    higher score first. *)
Lemma jsSort_byScoreDesc (key : Potential → Q) (l : list Potential) :
  Forall (fun p => score p = Fin (key p)) l →
  StronglySorted (fun p q => key q <= key p) (jsSort byScoreDesc l).
Proof.
  induction 1 as [|x l Hx Hl IH]; [constructor|].
  change (jsSort byScoreDesc (x :: l))
    with (insertSorted byScoreDesc x (jsSort byScoreDesc l)).
  assert (Hall : Forall (fun p => score p = Fin (key p))
                        (jsSort byScoreDesc l)).
  { by rewrite jsSort_Permutation. }
  clear Hl. revert IH Hall. generalize (jsSort byScoreDesc l). clear l.
  intros l Hs. induction Hs as [|y l Hl IH Hy]; intros Hall.
  - repeat constructor.
  - apply Forall_cons in Hall as [Hky Hall]. rewrite insertSorted_cons.
    unfold byScoreDesc at 1. rewrite Hx, Hky. simpl.
    destruct (Qltb _ _) eqn:E.
    + apply Qltb_lt in E. constructor; [by apply IH|].
      rewrite insertSorted_Permutation. constructor; [lra|done].
    + apply Qltb_ge in E. constructor; [by constructor|].
      constructor; [lra|].
      eapply Forall_impl; [exact Hy|]. intros z Hz. simpl in Hz. lra.
Qed.

Lemma potentialsFrom_scores members it n :
  Forall (fun p => ∃ m, members !! (member p - n)%nat = Some m ∧
                        (n <= member p)%nat ∧
                        score p = Allocation.calculateScore m it (3 # 10))
         (potentialsFrom n members it).
Proof.
  revert n. induction members as [|m l IH]; intros n; simpl; [constructor|].
  assert (H : Forall (fun p => ∃ m0, (m :: l) !! (member p - n)%nat = Some m0 ∧
                        (n <= member p)%nat ∧
                        score p = Allocation.calculateScore m0 it (3 # 10))
         (potentialsFrom (S n) l it)).
  { eapply Forall_impl; [apply (IH (S n))|].
    intros p (m0 & Hm0 & Hle & Hs). exists m0.
    replace (member p - n)%nat with (S (member p - S n)) by lia.
    split_and!; [done|lia|done]. }
  destruct (Qltb _ _); [|done].
  constructor; [|done]. exists m. simpl.
  replace (n - n)%nat with 0%nat by lia. by split_and!.
Qed.

Lemma candidate_baseline st0 st i it x0 p :
  sameStatics st0 st → roadmapItems st !! i = Some it →
  roadmapItems st0 !! i = Some x0 → wellFormedItem x0 →
  p ∈ findPotentialAllocations st it →
  score p = Fin (baselineOf st0 i (member p)) ∧
  ∀ a, Allocation.member a = member p → Allocation.item a = i →
       baselineScore st0 a = Fin (baselineOf st0 i (member p)).
Proof.
  intros Hs Hit Hx0 Hwf Hp.
  pose proof (proj1 (Forall_forall _ _)
                (potentialsFrom_scores (teamMembers st) it 0) p Hp)
    as (m & Hm & _ & Hsc).
  rewrite Nat.sub_0_r in Hm.
  destruct (sameStatics_member _ _ _ _ Hs Hm) as (m0 & Hm0 & Em).
  destruct (sameStatics_item _ _ _ _ Hs Hit) as (x & Hx & Ex).
  assert (x = x0) by congruence. subst x.
  destruct (calculateScore_finite m0 x0 (3 # 10) Hwf) as (s & Hfin).
  assert (Hb : baselineOf st0 i (member p) = s).
  { unfold baselineOf, baselineScore. simpl. by rewrite Hm0, Hx0, Hfin. }
  split.
  - rewrite Hsc, Hb, <- Hfin. by apply calculateScore_statics.
  - intros a Ha Hi. unfold baselineScore. by rewrite Ha, Hi, Hm0, Hx0, Hb.
Qed.

Lemma allocateItem_ranked st0 st i it x0 :
  sameStatics st0 st → roadmapItems st !! i = Some it →
  roadmapItems st0 !! i = Some x0 → wellFormedItem x0 →
  ∀ new, allocations (allocateItem st i) = allocations st ++ new →
         StronglySorted (noWorse st0) new.
Proof.
  intros Hs Hit Hx0 Hwf new. unfold allocateItem. rewrite Hit.
  set (pots := jsSort byScoreDesc (findPotentialAllocations st it)).
  destruct (allocLoop_effect i it pots (RoadmapItem.getRequiredCapacity it) st)
    as (new' & H1 & H2 & H3 & _).
  destruct (allocLoop i it pots _ st) as [remaining st'] eqn:Hloop.
  simpl in *. intros Hnew.
  assert (new' = new).
  { rewrite H1 in Hnew. by apply app_inv_head in Hnew. }
  subst new'. clear Hnew.
  set (R := fun k k' : nat => baselineOf st0 i k' <= baselineOf st0 i k).
  assert (Hpots : StronglySorted R (member <$> pots)).
  { apply (proj2 (StronglySorted_of_fmap _ _ _)). unfold pots.
    apply (jsSort_byScoreDesc (fun p => baselineOf st0 i (member p))).
    apply Forall_forall. intros p Hp.
    by destruct (candidate_baseline st0 st i it x0 p). }
  apply (StronglySorted_sublist _ _ _ H3) in Hpots.
  apply (proj1 (StronglySorted_of_fmap _ _ _)) in Hpots.
  eapply StronglySorted_on; [|exact Hpots].
  assert (Hfin : ∀ a, a ∈ new →
            baselineScore st0 a = Fin (baselineOf st0 i (Allocation.member a))).
  { intros a Ha.
    assert (Hin : Allocation.member a ∈ member <$> pots).
    { eapply elem_of_sublist; [|exact H3]. by apply list_elem_of_fmap_2. }
    apply list_elem_of_fmap in Hin as (p & Ep & Hin).
    unfold pots in Hin. rewrite jsSort_Permutation in Hin.
    destruct (candidate_baseline st0 st i it x0 p) as [_ Hb]; try done.
    rewrite Ep. apply Hb; [done|].
    by destruct (proj1 (Forall_forall _ _) H2 a Ha). }
  intros a b Ha Hb HR. unfold noWorse.
  rewrite (Hfin a Ha), (Hfin b Hb). simpl. by apply Qle_bool_iff.
Qed.

Lemma ranked_allocateItem st0 (D : nat → Prop) st i :
  ¬ D i → ranked st0 D st →
  ranked st0 (fun j => j = i ∨ D j) (allocateItem st i).
Proof.
  intros HDi (Hs & Hal & Hr).
  assert (Hs' : sameStatics st0 (allocateItem st i)).
  { apply allocateItem_inv; [| |done].
    - intros it _. apply sameStatics_commit.
    - apply sameStatics_status. }
  destruct (roadmapItems st !! i) as [it|] eqn:Hit.
  2:{ unfold allocateItem in *. rewrite Hit in *. split_and!; [done| |].
      - eapply Forall_impl; [exact Hal|]. intros a Ha. by right.
      - intros j x [->|Hj] Hx Hwf; [|by apply (Hr j x)].
        rewrite (filter_item_unhandled D i _ HDi Hal). constructor. }
  destruct (allocateItem_effect st i it Hit) as (new & H1 & H2 & _).
  split_and!; [done| |].
  - rewrite H1. apply Forall_app. split.
    + eapply Forall_impl; [exact Hal|]. intros a Ha. by right.
    + eapply Forall_impl; [exact H2|]. intros a [Ha _]. by left.
  - intros j x HDj Hx Hwf. rewrite H1, filter_app.
    destruct (decide (i = j)) as [<-|Hne].
    + rewrite (filter_item_unhandled D i _ HDi Hal),
        (filter_item_same i new _ H2). simpl.
      by apply (allocateItem_ranked st0 st i it x).
    + rewrite (filter_item_other i j new _ Hne H2), app_nil_r.
      destruct HDj as [->|HDj]; [done|]. by apply (Hr j x).
Qed.

Lemma ranked_weaken st0 (D D' : nat → Prop) st :
  (∀ j, D j ↔ D' j) → ranked st0 D st → ranked st0 D' st.
Proof.
  intros HD (H0 & H1 & H2). split_and!; [done| |].
  - eapply Forall_impl; [exact H1|]. intros a. apply HD.
  - intros j x Hj. apply (H2 j x). by apply HD.
Qed.

Lemma ranked_fold st0 (order : list nat) :
  ∀ (D : nat → Prop) st,
    NoDup order → (∀ j, j ∈ order → ¬ D j) → ranked st0 D st →
    ranked st0 (fun j => j ∈ order ∨ D j) (fold_left allocateItem order st).
Proof.
  induction order as [|i order IH]; intros D st Hnd Hfresh H.
  - simpl. eapply ranked_weaken; [|exact H].
    intros j. split; [by right|]. intros [Hj|Hj]; [|done].
    by apply elem_of_nil in Hj.
  - apply NoDup_cons in Hnd as [Hi Hnd]. simpl.
    eapply ranked_weaken;
      [|apply (IH (fun j => j = i ∨ D j)); [done| |apply ranked_allocateItem]].
    + intros j. rewrite elem_of_cons. tauto.
    + intros j Hj [->|HD]; [done|]. apply (Hfresh j); [by right|done].
    + apply Hfresh. by left.
    + done.
Qed.

(** X25. Best matches first: among the allocations of one item, in the
    order they were committed, a member never comes before one with a
    higher baseline score (the score of the pair at 30%), provided the
    item has no effort breakdown or a well-formed one, so that the scores
    are numbers. *)
Theorem best_matches_first (st : t) (j : nat) (x : RoadmapItem.t) :
  roadmapItems st !! j = Some x → wellFormedItem x →
  StronglySorted (noWorse st)
    (filter (fun a => Allocation.item a = j) (allocations (optimize st).1)).
Proof.
  intros Hx Hwf. simpl.
  assert (H : ranked st (fun j => j ∈ sortedItems (reset st) ∨ False)
                (allocateAll st)).
  { unfold allocateAll. apply ranked_fold.
    - unfold sortedItems. rewrite jsSort_Permutation. apply NoDup_seq.
    - tauto.
    - split_and!; [apply sameStatics_reset | constructor | tauto]. }
  destruct H as (_ & _ & H). apply (H j x); [|done..].
  left. unfold sortedItems. rewrite jsSort_Permutation.
  apply elem_of_seq. split; [lia|]. simpl.
  apply lookup_lt_Some in Hx. unfold reset. simpl. rewrite length_fmap. lia.
Qed.

Lemma best_matches_first_witness :
  roadmapItems Fixture.optimizer !! 0%nat = Some Fixture.frontendRedesign ∧
  wellFormedItem Fixture.frontendRedesign ∧
  StronglySorted (noWorse Fixture.optimizer)
    (filter (fun a => Allocation.item a = 0%nat)
            (allocations (optimize Fixture.optimizer).1)).
Proof.
  assert (Hx : roadmapItems Fixture.optimizer !! 0%nat
               = Some Fixture.frontendRedesign) by reflexivity.
  assert (H : wellFormedItem Fixture.frontendRedesign)
    by (intros e He; discriminate He).
  split; [exact Hx|]. split; [exact H|].
  exact (best_matches_first Fixture.optimizer 0 Fixture.frontendRedesign Hx H).
Defined.

(** ** The utilization figure of the command-line application *)





(** ** Importing rows into a data file *)

Section ImportSheet.
Context {A : Type} (lower : string → string) (name : A → string).

Lemma filter_none {B : Type} (f : B → bool) (l : list B) :
  (∀ x, x ∈ l → f x = false) → List.filter f l = [].
Proof.
  induction l as [|x l IH]; intros H; simpl; [done|].
  rewrite (H x) by by left. apply IH. intros y Hy. apply H. by right.
Qed.

Lemma filter_sublist' {B : Type} (f : B → bool) (l : list B) :
  sublist (List.filter f l) l.
Proof.
  induction l as [|x l IH]; simpl; [constructor|].
  destruct (f x); by constructor.
Qed.

(** The rows appended to the file, and what the file then holds. *)
Lemma merged_keys (existing imported : list A) (m : A) :
  m ∈ imported →
  lower (name m)
    ∈ (fun m => lower (name m))
        <$> existing
            ++ List.filter
                 (fun m =>
                    negb (bool_decide
                            (lower (name m)
                               ∈ (fun m => lower (name m)) <$> existing)))
                 imported.
Proof.
  intros Hm. rewrite fmap_app, elem_of_app.
  destruct (decide (lower (name m) ∈ (fun m => lower (name m)) <$> existing))
    as [Hin|Hout]; [by left|].
  right. apply (list_elem_of_fmap_2 (fun m => lower (name m))).
  rewrite list_elem_of_In, filter_In, <- list_elem_of_In. split; [done|].
  by rewrite bool_decide_eq_false_2.
Qed.

Lemma importSheet_written (input : Server.ImportInput A) (data : list A) :
  (Server.importSheet lower name input).2 = Some data →
  ∃ imported,
    Server.sheet input = inr imported ∧ imported ≠ [] ∧
    Server.sheetUrl input ≠ ""%string ∧
    (Server.importSheet lower name input).1
      = (if Server.writable input
         then Server.Success (length imported) (length data) imported
         else Server.Failure 500 Server.FailedToSave) ∧
    data = if Server.replaceExisting input then imported
           else Server.existing input
                ++ List.filter
                     (fun m =>
                        negb (bool_decide
                                (lower (name m)
                                   ∈ (fun m => lower (name m))
                                       <$> Server.existing input)))
                     imported.
Proof.
  unfold Server.importSheet.
  destruct (String.eqb_spec (Server.sheetUrl input) "") as [|Hurl]; [done|].
  destruct (Server.serviceAccount input) as [[e|]|];
    [done| |destruct (String.eqb (Server.apiKey input) ""); [done|]];
    (destruct (Server.sheet input) as [e|imported]; [done|];
     destruct imported as [|r rows]; [done|];
     cbn [length Nat.eqb];
     destruct (Server.writable input); cbn [snd fst];
     intros Hd; injection Hd as <-; by eexists).
Qed.

(** X27.  Whenever a sheet import gets as far as writing the data file,
    the sheet has given at least one row, and the response is a success
    that reports the number of rows read and the number of rows written, or,
    if the write fails, the error 500.  With [replaceExisting] the data
    written are the rows of the sheet.  Without it they are the rows on
    file, in their order, followed by the rows of the sheet whose
    lower-cased name is not on file, in the order of the sheet: every name
    of the sheet is on file afterwards, the same import on the file so
    written writes the same data again, and names that were unique on file
    and in the sheet are unique in the data written.  Nothing is assumed of
    [toLowerCase]. *)
Theorem import_keeps_rows_on_file (input : Server.ImportInput A)
    (data : list A) :
  (Server.importSheet lower name input).2 = Some data →
  ∃ imported,
    Server.sheet input = inr imported ∧ imported ≠ [] ∧
    (Server.importSheet lower name input).1
      = (if Server.writable input
         then Server.Success (length imported) (length data) imported
         else Server.Failure 500 Server.FailedToSave) ∧
    (Server.replaceExisting input = true → data = imported) ∧
    (Server.replaceExisting input = false →
     (∃ added,
        data = Server.existing input ++ added ∧ sublist added imported ∧
        ∀ m, m ∈ added
             ↔ m ∈ imported ∧
               ¬ lower (name m)
                   ∈ (fun m => lower (name m)) <$> Server.existing input) ∧
     (∀ m, m ∈ imported →
           lower (name m) ∈ (fun m => lower (name m)) <$> data) ∧
     (Server.importSheet lower name (Server.withExisting data input)).2
       = Some data ∧
     (NoDup ((fun m => lower (name m)) <$> Server.existing input) →
      NoDup ((fun m => lower (name m)) <$> imported) →
      NoDup ((fun m => lower (name m)) <$> data))).
Proof.
  intros Hw.
  destruct (importSheet_written input data Hw)
    as (imported & Hs & Hne & Hurl & Hr & Hd).
  exists imported. split_and!; [done|done|done| |].
  - intros E. by rewrite E in Hd.
  - intros E. rewrite E in Hd. split_and!.
    + eexists. split; [exact Hd|]. split; [apply filter_sublist'|].
      intros m. rewrite list_elem_of_In, filter_In, <- list_elem_of_In.
      by rewrite negb_true_iff, bool_decide_eq_false.
    + intros m Hm. rewrite Hd. by apply merged_keys.
    + unfold Server.importSheet, Server.withExisting. cbn.
      destruct (String.eqb_spec (Server.sheetUrl input) "") as [|_]; [done|].
      assert (Hagain :
        List.filter
          (fun m =>
             negb (bool_decide
                     (lower (name m) ∈ (fun m => lower (name m)) <$> data)))
          imported = []).
      { apply filter_none. intros m Hm.
        apply negb_false_iff, bool_decide_eq_true.
        rewrite Hd. by apply merged_keys. }
      destruct imported as [|r rows]; [done|].
      unfold Server.importSheet in Hw.
      destruct (String.eqb (Server.sheetUrl input) ""); [done|].
      destruct (Server.serviceAccount input) as [[e|]|];
        [done| |destruct (String.eqb (Server.apiKey input) ""); [done|]];
        rewrite Hs, E; cbn [length Nat.eqb]; rewrite Hagain, app_nil_r;
        by destruct (Server.writable input).
    + intros He Hi. rewrite Hd, fmap_app.
      apply NoDup_app. split_and!; [done| |].
      * intros k Hk Hk'. apply list_elem_of_fmap in Hk' as (m & -> & Hm).
        rewrite list_elem_of_In, filter_In in Hm. destruct Hm as [_ Hm].
        apply negb_true_iff, bool_decide_eq_false in Hm. done.
      * eapply sublist_NoDup; [exact Hi|].
        apply fmap_sublist, filter_sublist'.
Qed.

End ImportSheet.

Lemma import_keeps_rows_on_file_witness :
  let input :=
    Server.mkImportInput TeamMember.t "https://sheet" "key" false None
      (inr [Fixture.bob; Fixture.carol]) [Fixture.alice; Fixture.bob] true in
  (Server.importSheet toLowerCase TeamMember.name input).2
    = Some [Fixture.alice; Fixture.bob; Fixture.carol] ∧
  (Server.importSheet toLowerCase TeamMember.name input).1
    = Server.Success 2 3 [Fixture.bob; Fixture.carol].
Proof.
  intros input.
  assert (Hw : (Server.importSheet toLowerCase TeamMember.name input).2
               = Some [Fixture.alice; Fixture.bob; Fixture.carol])
    by by vm_compute.
  split; [exact Hw|].
  destruct (import_keeps_rows_on_file toLowerCase TeamMember.name input _ Hw)
    as (imported & Hs & _ & Hr & _).
  injection Hs as <-. exact Hr.
Defined.

(** ** The optimization endpoint *)

Lemma analyzeMissingFTETypes_no_effort st items :
  Forall (fun x => RoadmapItem.effortBreakdown x = None) items →
  analyzeMissingFTETypes st items = [].
Proof.
  intros H. unfold analyzeMissingFTETypes.
  generalize (@nil (Platform * Q)).
  induction H as [|x rest Hx _ IH]; intros acc; [done|].
  cbn [fold_left]. rewrite Hx. apply IH.
Qed.

Lemma no_effort_allocateAll st :
  Forall (fun x => RoadmapItem.effortBreakdown x = None) (roadmapItems st) →
  Forall (fun x => RoadmapItem.effortBreakdown x = None)
         (roadmapItems (allocateAll st)).
Proof.
  intros H. apply Forall_lookup. intros j x' Hx'.
  destruct (Forall2_lookup_r _ _ _ _ _ (items_statics st) Hx')
    as (x & Hx & E).
  pose proof (Forall_lookup_1 _ _ _ _ H Hx) as Hn. simpl in *.
  rewrite <- Hn. exact (f_equal RoadmapItem.effortBreakdown E).
Qed.

Lemma no_effort_report st :
  Forall (fun x => RoadmapItem.effortBreakdown x = None) (roadmapItems st) →
  let report := (optimize st).2 in
  (∀ l, ¬ Report.MissingFTE l ∈ Report.recommendations report) ∧
  Forall (fun x => RoadmapItem.getRequiredCapacity x
                   = RoadmapItem.size x / 5 * (RoadmapItem.complexity x / 5) * 2)
         (Report.roadmapItems report).
Proof.
  intros H. simpl. pose proof (no_effort_allocateAll st H) as H'.
  split_and!.
  - intros l Hl.
    apply generateRecommendations_shape in Hl as (_ & Hne & Hl).
    rewrite analyzeMissingFTETypes_no_effort in Hl; [done|].
    apply Forall_forall. intros x Hx.
    apply (proj1 (Forall_forall _ _) H' x).
    unfold itemsWithStatus in Hx.
    rewrite list_elem_of_In, filter_In, <- list_elem_of_In in Hx. tauto.
  - eapply Forall_impl; [exact H'|]. intros x Hx.
    unfold RoadmapItem.getRequiredCapacity. by rewrite Hx.
Qed.

(** X28. [POST /api/optimize] answers 400 exactly when a data file holds
    no rows.  A report it answers with is on as many members and items as
    there are rows, and the effort breakdowns on file play no part in it,
    since the items are built without them: no recommendation names missing
    FTE types, and every item's required capacity is the size and complexity
    heuristic. *)
Theorem api_optimize_ignores_effort
    (teamMembersData : list Server.TeamMemberData)
    (roadmapItemsData : list Server.RoadmapItemData) :
  ((∃ error, Server.optimize teamMembersData roadmapItemsData
             = Server.BadRequest error)
   ↔ teamMembersData = [] ∨ roadmapItemsData = []) ∧
  ∀ report,
    Server.optimize teamMembersData roadmapItemsData = Server.Json report →
    length (Report.teamMembers report) = length teamMembersData ∧
    length (Report.roadmapItems report) = length roadmapItemsData ∧
    (∀ l, ¬ Report.MissingFTE l ∈ Report.recommendations report) ∧
    Forall (fun x =>
              RoadmapItem.getRequiredCapacity x
              = RoadmapItem.size x / 5 * (RoadmapItem.complexity x / 5) * 2)
           (Report.roadmapItems report).
Proof.
  unfold Server.optimize.
  destruct teamMembersData as [|d ds]; simpl.
  { split; [|done]. split; [by left | by eexists]. }
  destruct roadmapItemsData as [|r rs]; simpl.
  { split; [|done]. split; [by right | by eexists]. }
  split.
  { split; [by intros [? ?] | by intros [?|?]]. }
  intros report Hr. injection Hr as <-.
  set (st := new _ _).
  assert (Hnone : Forall (fun x => RoadmapItem.effortBreakdown x = None)
                         (roadmapItems st)).
  { unfold st. simpl. constructor; [done|]. by apply Forall_fmap, Forall_true. }
  destruct (no_effort_report st Hnone) as (H1 & H2).
  split_and!; [| |exact H1|exact H2].
  - pose proof (Forall2_length _ _ _ (members_statics st)) as Hl.
    change (Report.teamMembers (generateReport (allocateAll st)))
      with (teamMembers (allocateAll st)).
    rewrite <- Hl. unfold st. simpl. by rewrite length_map.
  - pose proof (Forall2_length _ _ _ (items_statics st)) as Hl.
    change (Report.roadmapItems (generateReport (allocateAll st)))
      with (roadmapItems (allocateAll st)).
    rewrite <- Hl. unfold st. simpl. by rewrite length_map.
Qed.

(** ** The level test on the documented scale *)

Lemma scoreBeforeLevel_sameButLevel m1 m2 it :
  sameButLevel m1 m2 →
  Allocation.scoreBeforeLevel m1 it = Allocation.scoreBeforeLevel m2 it.
Proof.
  destruct m1, m2. unfold sameButLevel. simpl.
  intros (-> & -> & -> & -> & -> & -> & ->). reflexivity.
Qed.

(** X29.  Where the level weights are numbers, the level test decides
    between two candidates that differ in level only.  For an item without
    effort breakdown or with a well-formed one, whose priority is on the 1-5
    scale, and an allocation fraction between 0 and 1: if both members and
    the item's [minLevel] have a number for weight (as every level has but
    the two inherited names), one member at or above the weight of
    [minLevel] and the other strictly below it, then both scores are finite
    and the second is the lower, by 29 points or more.  (The level test
    moves the score by 30 or 40 points; the bound leaves room for the
    rounding of the sums.) *)
Theorem level_penalty_on_scale (m1 m2 : TeamMember.t) (it : RoadmapItem.t)
    (q w1 w2 wmin : Q) :
  wellFormedItem it →
  1 <= RoadmapItem.priority it → RoadmapItem.priority it <= 5 →
  0 <= q → q <= 1 →
  sameButLevel m1 m2 →
  TeamMember.getLevelWeight m1 = Weight w1 →
  TeamMember.getLevelWeight m2 = Weight w2 →
  levelWeightOr1 (toLowerCase (RoadmapItem.minLevel it)) = Weight wmin →
  wmin <= w1 → w2 < wmin →
  ∃ s1 s2,
    Allocation.calculateScore m1 it q = Fin s1 ∧
    Allocation.calculateScore m2 it q = Fin s2 ∧
    s2 + 29 <= s1.
Proof.
  intros Hwf _ _ _ _ Hsame E1 E2 Emin H1 H2.
  unfold Allocation.calculateScore, Allocation.levelAdjust.
  rewrite <- (scoreBeforeLevel_sameButLevel m1 m2 it Hsame).
  destruct (scoreBeforeLevel_range m1 it Hwf) as (b & -> & _).
  rewrite E1, E2, Emin. simpl.
  apply Qle_bool_iff in H1. rewrite H1.
  assert (H2' : Qle_bool wmin w2 = false) by by apply Qle_bool_gt.
  rewrite H2'.
  destruct (_ && _); simpl; do 2 eexists;
    (split; [reflexivity|]); (split; [reflexivity|]); lra.
Qed.

Lemma level_penalty_on_scale_witness :
  ∃ s1 s2,
    Allocation.calculateScore seniorCarol Fixture.frontendRedesign (3 # 10)
      = Fin s1 ∧
    Allocation.calculateScore Fixture.carol Fixture.frontendRedesign (3 # 10)
      = Fin s2 ∧
    s2 + 29 <= s1.
Proof.
  apply (level_penalty_on_scale seniorCarol Fixture.carol
           Fixture.frontendRedesign (3 # 10) (13 # 10) (7 # 10) 1).
  - intros e He. discriminate He.
  - by vm_compute.
  - by vm_compute.
  - by vm_compute.
  - by vm_compute.
  - by repeat split.
  - reflexivity.
  - reflexivity.
  - reflexivity.
  - by vm_compute.
  - by vm_compute.
Defined.
